(** * The HHVM debugger adapter (src/debugger.ts), embedded in Rocq

    The adapter is a Node program: VS Code talks to it over stdin/stdout with
    [Content-Length] framed JSON, HHVM talks to it over a TCP socket or a
    pipe of the spawned child with NUL-terminated JSON.  The class
    [HHVMDebuggerWrapper] keeps seven fields and reacts to events.

    The embedding follows the class method by method.  Handlers are
    functions in a small monad that threads the object and the handles it
    created, collects the writes of the handler (stdout, stderr, socket,
    child pipes, timers) and stops at [process.exit] or at an exception
    that leaves the handler.  The events of Node (data on stdin, connect,
    data, close and error of a socket, a timer, the events of a child) are
    the input: [handle] runs the handler of one event, [run] a list of them.

    Conventions.
    - A JavaScript string is a list of UTF-16 code units, a [Buffer] a list
      of bytes; [Buffer_toString] is the UTF-8 decoding done by
      [chunk.toString()], [byteLength] is [Buffer.byteLength].
    - [JSON.parse], [JSON.stringify] and [parseInt] belong to the JavaScript
      runtime, not to the repository; they are the fields of the class
      [Runtime], and the statements hold for every runtime.  The module
      [Mini] is an executable instance on a fragment of JSON, used to run
      the adapter on concrete traffic.
    - A JSON number is an integer here; [sequenceNumber] is a double, so
      [++] is exact below 2^53 and without effect at 2^53.
    - The file is a TypeScript module and runs in strict mode: assigning a
      property on a primitive throws.
    - The appends to the log file /tmp/ext.log are left out; nothing in the
      adapter reads the file back.

    Of the settings module (src/Config.ts) the client command is
    embedded, in the module [Config]. *)

From Stdlib Require Import List ZArith NArith Lia Bool String Ascii.
From Stdlib Require Import Strings.Byte.
From Stdlib Require Import DecimalString DecimalNat.
Import ListNotations.

Set Implicit Arguments.

Open Scope string_scope.
Open Scope list_scope.

(** ** JavaScript strings and buffers *)

Definition JSString := list N.
Definition Buffer := list byte.

Fixpoint lit (s : string) : JSString :=
  match s with
  | EmptyString => []
  | String c r => N_of_ascii c :: lit r
  end.

Definition NUL : N := 0%N.
Definition CR : N := 13%N.
Definition LF : N := 10%N.

Fixpoint jseqb (a b : JSString) : bool :=
  match a, b with
  | [], [] => true
  | x :: a', y :: b' => N.eqb x y && jseqb a' b'
  | _, _ => false
  end.

(** [s.startsWith(p)] *)
Fixpoint startsWith (p s : JSString) : bool :=
  match p, s with
  | [], _ => true
  | x :: p', y :: s' => N.eqb x y && startsWith p' s'
  | _ :: _, [] => false
  end.

(** [s.indexOf(p)] as a natural number, [None] for -1. *)
Fixpoint find (p s : JSString) : option nat :=
  if startsWith p s then Some 0
  else match s with
       | [] => None
       | _ :: s' => option_map S (find p s')
       end.

Definition indexOf (p s : JSString) : Z :=
  match find p s with
  | Some i => Z.of_nat i
  | None => (-1)%Z
  end.

(** [s.substr(0, n)] and [s.substr(n)] for [n >= 0]. *)
Definition substr0 (s : JSString) (n : Z) : JSString := firstn (Z.to_nat n) s.
Definition substrFrom (s : JSString) (n : Z) : JSString := skipn (Z.to_nat n) s.

Definition jslength (s : JSString) : Z := Z.of_nat (List.length s).

(** The decimal digits of a natural number, as in a template literal. *)
Definition decimal (n : nat) : JSString := lit (NilZero.string_of_uint (Nat.to_uint n)).

(** *** UTF-8

    [chunk.toString()] decodes the bytes of one chunk as UTF-8; a sequence
    that is malformed or cut off by the end of the chunk becomes U+FFFD. *)

Definition REPLACEMENT : N := 65533%N.

(** A pending multi-byte sequence: code point so far, continuation bytes
    still expected, bounds of the next continuation byte. *)
Definition Pending := (N * nat * N * N)%type.

Definition utf8_lead (b : N) : list N * option Pending :=
  (if b <? 128 then ([b], None)
   else if (194 <=? b) && (b <=? 223) then ([], Some (N.land b 31, 1%nat, 128, 191))
   else if (224 <=? b) && (b <=? 239) then
     ([], Some (N.land b 15, 2%nat, if b =? 224 then 160 else 128, if b =? 237 then 159 else 191))
   else if (240 <=? b) && (b <=? 244) then
     ([], Some (N.land b 7, 3%nat, if b =? 240 then 144 else 128, if b =? 244 then 143 else 191))
   else ([REPLACEMENT], None))%N.

Fixpoint utf8_decode (st : option Pending) (bs : list N) : list N :=
  match bs with
  | [] => match st with None => [] | Some _ => [REPLACEMENT] end
  | b :: r =>
    match st with
    | None => let (out, st') := utf8_lead b in out ++ utf8_decode st' r
    | Some (cp, rem, lo, hi) =>
      if ((lo <=? b) && (b <=? hi))%N then
        let cp' := N.lor (N.shiftl cp 6) (N.land b 63) in
        match rem with
        | S (S rem') => utf8_decode (Some (cp', S rem', 128%N, 191%N)) r
        | _ => cp' :: utf8_decode None r
        end
      else let (out, st') := utf8_lead b in REPLACEMENT :: out ++ utf8_decode st' r
    end
  end.

Definition utf16_units (cp : N) : list N :=
  (if cp <? 65536 then [cp]
   else let c := cp - 65536 in [55296 + c / 1024; 56320 + c mod 1024])%N.

Definition Buffer_toString (chunk : Buffer) : JSString :=
  flat_map utf16_units (utf8_decode None (map Byte.to_N chunk)).

Definition is_high_surrogate (u : N) : bool := ((55296 <=? u) && (u <=? 56319))%N.
Definition is_low_surrogate (u : N) : bool := ((56320 <=? u) && (u <=? 57343))%N.

(** [Buffer.byteLength(s, 'utf8')] *)
Fixpoint byteLength (s : JSString) : nat :=
  match s with
  | [] => 0
  | u :: r =>
    if (u <? 128)%N then 1 + byteLength r
    else if (u <? 2048)%N then 2 + byteLength r
    else if is_high_surrogate u then
      match r with
      | l :: r' => if is_low_surrogate l then 4 + byteLength r' else 3 + byteLength r
      | [] => 3
      end
    else 3 + byteLength r
  end.

(** ** JSON values *)

#[warnings="-register-all"]
Inductive json : Type :=
| JNull
| JBool (b : bool)
| JNum (n : Z)
| JStr (s : JSString)
| JArr (items : list json)
| JObj (fields : list (JSString * json)).

(** Truthiness of a value, as in [if (v)], [v ? a : b], [Boolean(v)]. *)
Definition truthy (v : json) : bool :=
  match v with
  | JNull => false
  | JBool b => b
  | JNum n => negb (n =? 0)%Z
  | JStr s => match s with [] => false | _ => true end
  | JArr _ | JObj _ => true
  end.

Fixpoint lookup (k : JSString) (fields : list (JSString * json)) : option json :=
  match fields with
  | [] => None
  | (k', v) :: r => if jseqb k k' then Some v else lookup k r
  end.

(** [o[k] = v] on a plain object: an existing key keeps its place. *)
Fixpoint assign (k : JSString) (v : json) (fields : list (JSString * json))
  : list (JSString * json) :=
  match fields with
  | [] => [(k, v)]
  | (k', v') :: r => if jseqb k k' then (k, v) :: r else (k', v') :: assign k v r
  end.

(** [v.k] for a value that is not null and a key that no prototype
    defines ([command], [seq], [arguments], [port], [cwd], [noDebug]):
    [None] is [undefined]. *)
Definition prop (v : json) (k : string) : option json :=
  match v with
  | JObj fields => lookup (lit k) fields
  | _ => None
  end.

Definition truthy_opt (v : option json) : bool :=
  match v with
  | Some x => truthy x
  | None => false
  end.

(** ** The JavaScript runtime *)

Inductive Parsed : Type :=
| SyntaxError (text : JSString)   (* [JSON.parse] throws; [text] is [e.toString()] *)
| Value (v : json).

Class Runtime : Type := {
  JSON_parse : JSString -> Parsed;
  JSON_stringify : json -> JSString;
  (** [parseInt(v, 10)]; [None] is NaN *)
  parseInt : json -> option Z;
  (** [e.toString()] of the TypeError raised by [v.seq = n] on a value
      that is not an object *)
  assignErrorText : json -> JSString;
  (** [process.exit(code)] for a code that is not [undefined]: the
      status the process exits with; [None] when the call throws a
      TypeError instead.  Node 20 and later throw for a code that is
      neither an integer nor a string that stands for one; earlier
      versions exit, with status 0 for such a code. *)
  exitStatus : json -> option Z
}.

(** ** The adapter object and what it can do to the outside *)

(** The two closures stored in [debuggerWriteCallback]:
    [socket.write(`${data}\0`)] of [attachTarget] and
    [targetProcess.stdin.write(`${data}\0`)] of [launchTarget]. *)
Inductive Callback : Type :=
| SocketWriter (sock : nat)
| ChildStdinWriter (child : nat).

Record Wrapper : Type := mkWrapper {
  sequenceNumber : Z;
  currentOutputData : JSString;
  currentInputData : JSString;
  currentContentLength : Z;
  bufferedRequests : list json;
  debugging : bool;
  debuggerWriteCallback : option Callback
}.

(** [constructor()] *)
Definition constructor : Wrapper :=
  mkWrapper 0 [] [] 0 [] false None.

(** An [Error] object as the handlers use it: [error.toString()] and
    [error.code]. *)
Record ErrorObj : Type := mkError {
  error_toString : JSString;
  error_code : option json
}.

(** The handlers of one [net.Socket] close over [attachMessage] and
    [retries]; [connect] is registered with [once]. *)
Record SocketRec : Type := mkSocket {
  sk_attachMessage : json;
  sk_retries : nat;
  sk_connect_armed : bool
}.

(** A timer set by [setTimeout]: it will call
    [attachTarget(attachMessage, retries)]. *)
Record TimerRec : Type := mkTimer {
  tm_attachMessage : json;
  tm_retries : nat;
  tm_pending : bool
}.

(** The Node process: the adapter object and the handles it created.
    A child is recorded by the number of its stdio streams. *)
Record Process : Type := mkProcess {
  wrapper : Wrapper;
  sockets : list SocketRec;
  timers : list TimerRec;
  children : list nat
}.

Definition boot : Process := mkProcess constructor [] [] [].

Inductive Effect : Type :=
| StdoutWrite (data : JSString)
| StderrWrite (data : JSString)
| SocketConnect (sock : nat) (port : Z)          (* new socket, connect to localhost:port *)
| SocketWrite (sock : nat) (data : JSString)
| Spawn (child : nat) (stdio : nat) (cwd : option JSString)
| ChildWrite (child : nat) (fd : nat) (data : JSString)
| SetTimeout (timer : nat) (ms : Z).

Inductive Exn : Type :=
| TypeError
| JSONError (text : JSString)
| Error (message : JSString).

(** What running a piece of code gives: it returns, or the process
    exits, or an exception leaves the event handler (which ends a Node
    process that has no handler for it). *)
Inductive Outcome (A : Type) : Type :=
| Ok (a : A) (p : Process) (out : list Effect)
| Exited (code : option json) (out : list Effect)
| Crashed (e : Exn) (out : list Effect).

Arguments Exited {A} code out.
Arguments Crashed {A} e out.

Definition M (A : Type) : Type := Process -> Outcome A.

Definition ret {A} (a : A) : M A := fun p => Ok a p [].

Definition bind {A B} (m : M A) (f : A -> M B) : M B :=
  fun p =>
    match m p with
    | Ok a p' out =>
      match f a p' with
      | Ok b p'' out' => Ok b p'' (out ++ out')
      | Exited c out' => Exited c (out ++ out')
      | Crashed e out' => Crashed e (out ++ out')
      end
    | Exited c out => Exited c out
    | Crashed e out => Crashed e out
    end.

Declare Scope js_scope.
Delimit Scope js_scope with js.
Notation "x <- m ;; k" := (bind m (fun x => k))
  (at level 61, m at next level, right associativity) : js_scope.
Notation "m ;; k" := (bind m (fun _ => k))
  (at level 61, right associativity) : js_scope.
Open Scope js_scope.

Definition emit (out : list Effect) : M unit := fun p => Ok tt p out.
Definition exit {A} (code : option json) : M A := fun _ => Exited code [].
Definition throw {A} (e : Exn) : M A := fun _ => Crashed e [].
Definition this : M Wrapper := fun p => Ok (wrapper p) p [].
Definition process : M Process := fun p => Ok p p [].
Definition update (f : Wrapper -> Wrapper) : M unit :=
  fun p => Ok tt (mkProcess (f (wrapper p)) (sockets p) (timers p) (children p)) [].
Definition install (f : Process -> Process) : M unit := fun p => Ok tt (f p) [].

Definition set_sequenceNumber (n : Z) (w : Wrapper) : Wrapper :=
  mkWrapper n (currentOutputData w) (currentInputData w) (currentContentLength w)
            (bufferedRequests w) (debugging w) (debuggerWriteCallback w).
Definition set_currentOutputData (s : JSString) (w : Wrapper) : Wrapper :=
  mkWrapper (sequenceNumber w) s (currentInputData w) (currentContentLength w)
            (bufferedRequests w) (debugging w) (debuggerWriteCallback w).
Definition set_currentInputData (s : JSString) (w : Wrapper) : Wrapper :=
  mkWrapper (sequenceNumber w) (currentOutputData w) s (currentContentLength w)
            (bufferedRequests w) (debugging w) (debuggerWriteCallback w).
Definition set_currentContentLength (n : Z) (w : Wrapper) : Wrapper :=
  mkWrapper (sequenceNumber w) (currentOutputData w) (currentInputData w) n
            (bufferedRequests w) (debugging w) (debuggerWriteCallback w).
Definition set_bufferedRequests (l : list json) (w : Wrapper) : Wrapper :=
  mkWrapper (sequenceNumber w) (currentOutputData w) (currentInputData w)
            (currentContentLength w) l (debugging w) (debuggerWriteCallback w).
Definition set_debugging (b : bool) (w : Wrapper) : Wrapper :=
  mkWrapper (sequenceNumber w) (currentOutputData w) (currentInputData w)
            (currentContentLength w) (bufferedRequests w) b (debuggerWriteCallback w).
Definition set_debuggerWriteCallback (c : option Callback) (w : Wrapper) : Wrapper :=
  mkWrapper (sequenceNumber w) (currentOutputData w) (currentInputData w)
            (currentContentLength w) (bufferedRequests w) (debugging w) c.

(** [++this.sequenceNumber].  The field is a JavaScript number, a
    double: adding one is exact below 2^53 and gives 2^53 back at 2^53. *)
Definition MAX_EXACT : Z := 9007199254740992.

Definition increment (n : Z) : Z := if (n <? MAX_EXACT)%Z then (n + 1)%Z else n.

Definition nextSequenceNumber : M Z :=
  w <- this ;;
  let n := increment (sequenceNumber w) in
  update (set_sequenceNumber n) ;;
  ret n.

(** ** The methods of [HHVMDebuggerWrapper] *)

Definition TWO_CRLF : JSString := [CR; LF; CR; LF].
Definition DEFAULT_HHVM_DEBUGGER_PORT : Z := 8999.

(** [CONTENT_LENGTH_PATTERN]: [header.match(/Content-Length: (\d+)/)]
    gives the digits captured at the leftmost place where the pattern
    matches. *)
Definition is_digit (u : N) : bool := ((48 <=? u) && (u <=? 57))%N.

Fixpoint take_digits (s : JSString) : JSString :=
  match s with
  | u :: r => if is_digit u then u :: take_digits r else []
  | [] => []
  end.

Definition match_here (s : JSString) : option JSString :=
  if startsWith (lit "Content-Length: ") s then
    match take_digits (skipn 16 s) with
    | [] => None
    | ds => Some ds
    end
  else None.

Fixpoint match_CONTENT_LENGTH_PATTERN (s : JSString) : option JSString :=
  match match_here s with
  | Some ds => Some ds
  | None => match s with
            | [] => None
            | _ :: r => match_CONTENT_LENGTH_PATTERN r
            end
  end.

(** [parseInt(digits, 10)] on a run of decimal digits (exact as long as
    the value is below 2^53, which every length of a string is). *)
Definition parseDigits (ds : JSString) : Z :=
  fold_left (fun acc u => (acc * 10 + (Z.of_N u - 48))%Z) ds 0%Z.

(** [s.replace(p, r)] with a string pattern: the first occurrence. *)
Definition replace (p r s : JSString) : JSString :=
  match find p s with
  | Some i => firstn i s ++ r ++ skipn (i + List.length p) s
  | None => s
  end.

Fixpoint forEach {A} (l : list A) (f : A -> M unit) : M unit :=
  match l with
  | [] => ret tt
  | x :: r => f x ;; forEach r f
  end.

(** The properties of an object literal that are not [undefined]. *)
Definition defined (fields : list (string * option json)) : list (JSString * json) :=
  flat_map (fun kv => match snd kv with
                      | Some v => [(lit (fst kv), v)]
                      | None => []
                      end) fields.

(** [v || {}] *)
Definition orEmpty (v : option json) : json :=
  match v with
  | Some x => if truthy x then x else JObj []
  | None => JObj []
  end.

(** Calling a stored callback. [targetProcess.stdin] is stream 0 of the
    child. *)
Definition written (callback : Callback) (data : JSString) : Effect :=
  match callback with
  | SocketWriter sock => SocketWrite sock (data ++ [NUL])
  | ChildStdinWriter child => ChildWrite child 0 (data ++ [NUL])
  end.

Definition call (callback : Callback) (data : JSString) : M unit :=
  emit [written callback data].

Section Adapter.

Context {R : Runtime}.

Definition writeOutputWithHeader (output : JSString) : M unit :=
  let length := byteLength output in
  emit [StdoutWrite (lit "Content-Length: " ++ decimal length ++ TWO_CRLF)] ;;
  emit [StdoutWrite output].

(** [message] only ever is [{request_seq, success, command}], so the
    spread cannot override [seq] or [type]. *)
Definition writeResponseMessage (message : list (string * option json)) : M unit :=
  n <- nextSequenceNumber ;;
  writeOutputWithHeader
    (JSON_stringify
       (JObj ([(lit "seq", JNum n); (lit "type", JStr (lit "response"))]
                ++ defined message))).

Definition writeOutputEvent (eventType : string) (message : JSString) : M unit :=
  n <- nextSequenceNumber ;;
  writeOutputWithHeader
    (JSON_stringify
       (JObj [(lit "seq", JNum n);
              (lit "type", JStr (lit "event"));
              (lit "event", JStr (lit "output"));
              (lit "body", JObj [(lit "category", JStr (lit eventType));
                                 (lit "output", JStr message)])])).

Definition forwardBufferedMessages : M unit :=
  w <- this ;;
  match debuggerWriteCallback w with
  | Some callback =>
    forEach (bufferedRequests w)
            (fun requestMsg => call callback (JSON_stringify requestMsg))
  | None => ret tt
  end.

(** The port computed at the top of [attachTarget]; [None] is NaN. *)
Definition attachPort (attachMessage : json) : option Z :=
  let args := orEmpty (prop attachMessage "arguments") in
  match prop args "port" with
  | Some port => if truthy port then parseInt port
                 else Some DEFAULT_HHVM_DEBUGGER_PORT
  | None => Some DEFAULT_HHVM_DEBUGGER_PORT
  end.

(** [attachTarget(attachMessage, retries)] up to [socket.connect]; the
    socket's handlers are [onConnect] ... [onError] below.
    [socket.connect] itself throws a RangeError for a port outside
    0..65535. *)
Definition attachTarget (attachMessage : json) (retries : nat) : M unit :=
  match attachPort attachMessage with
  | None => throw (Error (lit "Invalid HHVM debug port specified."))
  | Some port =>
    if ((0 <=? port) && (port <? 65536))%Z then
      p <- process ;;
      let sock := List.length (sockets p) in
      install (fun p => mkProcess (wrapper p)
                                  (sockets p ++ [mkSocket attachMessage retries true])
                                  (timers p) (children p)) ;;
      emit [SocketConnect sock port]
    else throw (Error (lit "RangeError"))
  end.

(** The [once('connect')] handler. *)
Definition onConnect (sock : nat) (attachMessage : json) : M unit :=
  let callback := SocketWriter sock in
  call callback (JSON_stringify attachMessage) ;;
  update (set_debuggerWriteCallback (Some callback)) ;;
  forwardBufferedMessages ;;
  update (set_debugging true) ;;
  writeResponseMessage [("request_seq", prop attachMessage "seq");
                        ("success", Some (JBool true));
                        ("command", prop attachMessage "command")].

Definition onClose : M unit := exit (Some (JNum 0)).

Definition onDisconnect : M unit :=
  emit [StderrWrite (lit "The connection to the debug target has been closed.")] ;;
  exit (Some (JNum 0)).

(** [process.exit(code)] with a code that comes from data. *)
Definition processExit {A} (code : option json) : M A :=
  match code with
  | None => exit None
  | Some v =>
    match exitStatus v with
    | Some status => exit (Some (JNum status))
    | None => throw TypeError
    end
  end.

(** The [on('error')] handler.  The code of a socket error is a string
    such as [ECONNREFUSED]. *)
Definition onError (attachMessage : json) (retries : nat) (error : ErrorObj) : M unit :=
  if (5 <=? retries)%nat then
    emit [StderrWrite (lit "Error communicating with debugger target: "
                         ++ error_toString error)] ;;
    processExit (error_code error)
  else
    p <- process ;;
    let timer := List.length (timers p) in
    install (fun p => mkProcess (wrapper p) (sockets p)
                                (timers p ++ [mkTimer attachMessage (retries + 1) true])
                                (children p)) ;;
    emit [SetTimeout timer 1000].

(** The [cwd] option of [spawn]: [args.cwd ? args.cwd : process.cwd()]
    ([Some None] is [process.cwd()]).  [spawn] throws a TypeError for a
    [cwd] that is not a string: [None]. *)
Definition spawn_cwd (args : json) : option (option JSString) :=
  match prop args "cwd" with
  | Some (JStr c) => Some (if truthy (JStr c) then Some c else None)
  | Some c => if truthy c then None else Some None
  | None => Some None
  end.

(** The number of pipes in the [stdio] option. *)
Definition spawn_stdio (args : json) : nat :=
  if truthy_opt (prop args "noDebug") then 3 else 4.

(** [launchTarget(launchMessage)].  [targetProcess.stdio] has as many
    entries as the [stdio] option, so [targetProcess.stdio[3]] is
    [undefined] for a child spawned with three pipes, and calling [.on]
    on it throws a TypeError. *)
Definition launchTarget (launchMessage : json) : M unit :=
  let args := orEmpty (prop launchMessage "arguments") in
  match spawn_cwd args with
  | None => throw TypeError
  | Some cwd =>
    let stdio := spawn_stdio args in
    p <- process ;;
    let child := List.length (children p) in
    install (fun p => mkProcess (wrapper p) (sockets p) (timers p)
                                (children p ++ [stdio])) ;;
    emit [Spawn child stdio cwd] ;;
    (if (stdio <=? 3)%nat then throw TypeError else ret tt) ;;
    let callback := ChildStdinWriter child in
    call callback (JSON_stringify launchMessage) ;;
    update (set_debuggerWriteCallback (Some callback)) ;;
    forwardBufferedMessages ;;
    update (set_debugging true)
  end.

Definition translateNuclideRequest (requestMsg : json) : M JSString :=
  match requestMsg with
  | JObj fields =>
    match lookup (lit "command") fields with
    | Some (JStr command) =>
      if truthy (JStr command) && startsWith (lit "nuclide_") command then
        ret (JSON_stringify
               (JObj (assign (lit "command")
                             (JStr (replace (lit "nuclide_") (lit "fb_") command))
                             fields)))
      else ret (JSON_stringify requestMsg)
    | Some command =>
      (* [command.startsWith] is not a function *)
      if truthy command then throw TypeError
      else ret (JSON_stringify requestMsg)
    | None => ret (JSON_stringify requestMsg)
    end
  | JNull => throw TypeError
  | _ => ret (JSON_stringify requestMsg)
  end.

Definition handleWrapperRequest (requestMsg : json) : M bool :=
  let otherwise : M bool :=
      w <- this ;;
      if negb (debugging w) then
        update (fun w => set_bufferedRequests (bufferedRequests w ++ [requestMsg]) w) ;;
        ret true
      else ret false in
  match requestMsg with
  | JNull => throw TypeError
  | _ =>
    match prop requestMsg "command" with
    | Some (JStr command) =>
      if jseqb command (lit "disconnect") then
        writeResponseMessage [("request_seq", prop requestMsg "seq");
                              ("success", Some (JBool true));
                              ("command", prop requestMsg "command")] ;;
        exit (Some (JNum 0))
      else if jseqb command (lit "launch") then
        launchTarget requestMsg ;; ret true
      else if jseqb command (lit "attach") then
        attachTarget requestMsg 0 ;; ret true
      else otherwise
    | _ => otherwise
    end
  end.

Definition readContentHeader : M unit :=
  w <- this ;;
  let idx := indexOf TWO_CRLF (currentInputData w) in
  if (idx <=? 0)%Z then ret tt
  else
    let header := substr0 (currentInputData w) idx in
    match match_CONTENT_LENGTH_PATTERN header with
    | None => throw (Error (lit "Unable to parse message from debugger client"))
    | Some digits =>
      update (set_currentContentLength (parseDigits digits)) ;;
      update (set_currentInputData
                (substrFrom (currentInputData w) (idx + jslength TWO_CRLF))) ;;
      _ <- nextSequenceNumber ;;
      ret tt
    end.

(** What the loop of [processClientMessage] does with one parsed
    message. *)
Definition dispatch (requestMsg : json) : M unit :=
  handled <- handleWrapperRequest requestMsg ;;
  if negb handled then
    w <- this ;;
    match debuggerWriteCallback w with
    | Some callback =>
      data <- translateNuclideRequest requestMsg ;;
      call callback data
    | None => ret tt
    end
  else ret tt.

(** The [while (true)] loop of [processClientMessage]; every turn that
    does not break takes at least one code unit off [currentInputData],
    so [fuel] above its length is never used up
    (see [clientLoop_fuel]). *)
Fixpoint clientLoop (fuel : nat) : M unit :=
  match fuel with
  | O => ret tt
  | S fuel' =>
    w <- this ;;
    (if (currentContentLength w =? 0)%Z then readContentHeader else ret tt) ;;
    w <- this ;;
    let length := currentContentLength w in
    if ((length =? 0) || (jslength (currentInputData w) <? length))%Z then ret tt
    else
      let message := substr0 (currentInputData w) length in
      match JSON_parse message with
      | SyntaxError text => throw (JSONError text)
      | Value requestMsg =>
        dispatch requestMsg ;;
        update (set_currentContentLength 0) ;;
        w <- this ;;
        update (set_currentInputData (substrFrom (currentInputData w) length)) ;;
        clientLoop fuel'
      end
  end.

Definition processClientMessage (chunk : Buffer) : M unit :=
  update (fun w => set_currentInputData (currentInputData w ++ Buffer_toString chunk) w) ;;
  w <- this ;;
  clientLoop (S (List.length (currentInputData w))).

(** One message of the target, between [try] and [catch] and after. *)
Definition deliver (message : JSString) : M unit :=
  match JSON_parse message with
  | Value obj =>
    n <- nextSequenceNumber ;;
    match obj with
    | JObj fields =>
      writeOutputWithHeader (JSON_stringify (JObj (assign (lit "seq") (JNum n) fields)))
    | JArr _ =>
      (* the property is set on the array and not serialised *)
      writeOutputWithHeader (JSON_stringify obj)
    | _ =>
      emit [StderrWrite (lit "Error parsing message from target: "
                           ++ assignErrorText obj ++ lit ": " ++ message)]
    end
  | SyntaxError text =>
    emit [StderrWrite (lit "Error parsing message from target: "
                         ++ text ++ lit ": " ++ message)]
  end.

(** The [while (idx > 0)] loop of [processDebuggerMessage]. *)
Fixpoint debuggerLoop (fuel : nat) : M unit :=
  match fuel with
  | O => ret tt
  | S fuel' =>
    w <- this ;;
    let idx := indexOf [NUL] (currentOutputData w) in
    if (idx >? 0)%Z then
      let message := substr0 (currentOutputData w) idx in
      deliver message ;;
      update (set_currentOutputData (substrFrom (currentOutputData w) (idx + 1))) ;;
      debuggerLoop fuel'
    else ret tt
  end.

Definition processDebuggerMessage (chunk : Buffer) : M unit :=
  update (fun w => set_currentOutputData (currentOutputData w ++ Buffer_toString chunk) w) ;;
  w <- this ;;
  debuggerLoop (S (List.length (currentOutputData w))).

(** ** Events

    Node calls the registered handlers one at a time.  An event names the
    handle it belongs to; the handler registered on that handle runs, with
    the [attachMessage] and [retries] its closure captured. *)

Inductive Event : Type :=
| StdinData (chunk : Buffer)
| SocketConnected (sock : nat)
| SocketData (sock : nat) (chunk : Buffer)
| SocketClosed (sock : nat)
| SocketDisconnected (sock : nat)
| SocketFailed (sock : nat) (error : ErrorObj)
| TimerFired (timer : nat)
| ChildExited (child : nat) (code : option json)
| ChildFailed (child : nat) (error : ErrorObj)
| ChildStdout (child : nat) (chunk : Buffer)
| ChildStderr (child : nat) (chunk : Buffer)
| ChildPipe (child : nat) (chunk : Buffer).

Fixpoint alter {A} (f : A -> A) (i : nat) (l : list A) : list A :=
  match l, i with
  | [], _ => []
  | x :: r, O => f x :: r
  | x :: r, S i' => x :: alter f i' r
  end.

Definition disarm (sock : nat) (p : Process) : Process :=
  mkProcess (wrapper p)
            (alter (fun sk => mkSocket (sk_attachMessage sk) (sk_retries sk) false)
                   sock (sockets p))
            (timers p) (children p).

Definition expire (timer : nat) (p : Process) : Process :=
  mkProcess (wrapper p) (sockets p)
            (alter (fun tm => mkTimer (tm_attachMessage tm) (tm_retries tm) false)
                   timer (timers p))
            (children p).

Definition withSocket (sock : nat) (k : SocketRec -> M unit) : M unit :=
  p <- process ;;
  match nth_error (sockets p) sock with
  | Some sk => k sk
  | None => ret tt
  end.

Definition withChild (child : nat) (k : nat -> M unit) : M unit :=
  p <- process ;;
  match nth_error (children p) child with
  | Some stdio => k stdio
  | None => ret tt
  end.

Definition handle (e : Event) : M unit :=
  match e with
  | StdinData chunk => processClientMessage chunk
  | SocketConnected sock =>
    withSocket sock (fun sk =>
      if sk_connect_armed sk then
        install (disarm sock) ;; onConnect sock (sk_attachMessage sk)
      else ret tt)
  | SocketData sock chunk => withSocket sock (fun _ => processDebuggerMessage chunk)
  | SocketClosed sock => withSocket sock (fun _ => onClose)
  | SocketDisconnected sock => withSocket sock (fun _ => onDisconnect)
  | SocketFailed sock error =>
    withSocket sock (fun sk => onError (sk_attachMessage sk) (sk_retries sk) error)
  | TimerFired timer =>
    p <- process ;;
    match nth_error (timers p) timer with
    | Some tm =>
      if tm_pending tm then
        install (expire timer) ;; attachTarget (tm_attachMessage tm) (tm_retries tm)
      else ret tt
    | None => ret tt
    end
  | ChildExited child code => withChild child (fun _ => exit code)
  | ChildFailed child error =>
    withChild child (fun _ => emit [StderrWrite (error_toString error)])
  | ChildStdout child chunk =>
    withChild child (fun _ => writeOutputEvent "stdout" (Buffer_toString chunk))
  | ChildStderr child chunk =>
    withChild child (fun _ => writeOutputEvent "stderr" (Buffer_toString chunk))
  | ChildPipe child chunk =>
    withChild child (fun stdio =>
      if (4 <=? stdio)%nat then processDebuggerMessage chunk else ret tt)
  end.

Fixpoint run (events : list Event) : M unit :=
  match events with
  | [] => ret tt
  | e :: r => handle e ;; run r
  end.

End Adapter.

(** ** An executable runtime on a fragment of JSON

    Compact JSON without escapes, fractions or exponents: enough to run
    the adapter on concrete traffic. *)

Module Mini.

Fixpoint parse_string (s : JSString) : option (JSString * JSString) :=
  match s with
  | [] => None
  | u :: r =>
    if (u =? 34)%N then Some ([], r)
    else if (u =? 92)%N || (u <? 32)%N then None
    else match parse_string r with
         | Some (str, rest) => Some (u :: str, rest)
         | None => None
         end
  end.

Fixpoint remove_key (k : JSString) (fields : list (JSString * json))
  : list (JSString * json) :=
  match fields with
  | [] => []
  | (k', v) :: r => if jseqb k k' then remove_key k r else (k', v) :: remove_key k r
  end.

Definition parse_number (s : JSString) : option (json * JSString) :=
  match s with
  | 45%N :: r =>
    match take_digits r with
    | [] => None
    | ds => Some (JNum (- parseDigits ds), skipn (List.length ds) r)
    end
  | _ =>
    match take_digits s with
    | [] => None
    | ds => Some (JNum (parseDigits ds), skipn (List.length ds) s)
    end
  end.

Fixpoint parse_value (fuel : nat) (s : JSString) : option (json * JSString) :=
  match fuel with
  | O => None
  | S fuel' =>
    if startsWith (lit "null") s then Some (JNull, skipn 4 s)
    else if startsWith (lit "true") s then Some (JBool true, skipn 4 s)
    else if startsWith (lit "false") s then Some (JBool false, skipn 5 s)
    else match s with
         | 34%N :: r =>
           match parse_string r with
           | Some (str, rest) => Some (JStr str, rest)
           | None => None
           end
         | 91%N :: 93%N :: r => Some (JArr [], r)
         | 91%N :: r =>
           match parse_items fuel' r with
           | Some (items, rest) => Some (JArr items, rest)
           | None => None
           end
         | 123%N :: 125%N :: r => Some (JObj [], r)
         | 123%N :: r =>
           match parse_fields fuel' r with
           | Some (fields, rest) => Some (JObj fields, rest)
           | None => None
           end
         | _ => parse_number s
         end
  end
with parse_items (fuel : nat) (s : JSString) : option (list json * JSString) :=
  match fuel with
  | O => None
  | S fuel' =>
    match parse_value fuel' s with
    | Some (v, 44%N :: r) =>
      match parse_items fuel' r with
      | Some (items, rest) => Some (v :: items, rest)
      | None => None
      end
    | Some (v, 93%N :: r) => Some ([v], r)
    | _ => None
    end
  end
with parse_fields (fuel : nat) (s : JSString)
  : option (list (JSString * json) * JSString) :=
  match fuel with
  | O => None
  | S fuel' =>
    match s with
    | 34%N :: r =>
      match parse_string r with
      | Some (k, 58%N :: r') =>
        match parse_value fuel' r' with
        | Some (v, 44%N :: r'') =>
          match parse_fields fuel' r'' with
          | Some (fields, rest) =>
            (* a repeated key keeps its first place and its last value *)
            Some (match lookup k fields with
                  | Some v' => (k, v') :: remove_key k fields
                  | None => (k, v) :: fields
                  end, rest)
          | None => None
          end
        | Some (v, 125%N :: r'') => Some ([(k, v)], r'')
        | _ => None
        end
      | _ => None
      end
    | _ => None
    end
  end.

Definition parse (s : JSString) : Parsed :=
  match parse_value (S (List.length s)) s with
  | Some (v, []) => Value v
  | _ => SyntaxError (lit "SyntaxError: Unexpected token")
  end.

Definition quote (s : JSString) : JSString := 34%N :: s ++ [34%N].

Fixpoint join (l : list JSString) : JSString :=
  match l with
  | [] => []
  | [x] => x
  | x :: r => x ++ 44%N :: join r
  end.

Definition number (n : Z) : JSString :=
  match n with
  | Zneg p => 45%N :: decimal (Pos.to_nat p)
  | _ => decimal (Z.to_nat n)
  end.

Fixpoint stringify (v : json) : JSString :=
  match v with
  | JNull => lit "null"
  | JBool true => lit "true"
  | JBool false => lit "false"
  | JNum n => number n
  | JStr s => quote s
  | JArr items => lit "[" ++ join (map stringify items) ++ lit "]"
  | JObj fields =>
    lit "{" ++ join (map (fun kv => match kv with
                                   | (k, x) => quote k ++ 58%N :: stringify x
                                   end) fields) ++ lit "}"
  end.

Definition parse_int (v : json) : option Z :=
  match v with
  | JNum n => Some n
  | JStr s => match take_digits s with
              | [] => None
              | ds => Some (parseDigits ds)
              end
  | _ => None
  end.

(** [process.exit] as Node 20 checks its argument. *)
Definition exit_status (v : json) : option Z :=
  match v with
  | JNull => Some 0%Z
  | JNum n => Some n
  | JStr s => match s with
              | [] => None
              | _ => if jseqb (take_digits s) s then Some (parseDigits s) else None
              end
  | _ => None
  end.

#[export] Instance runtime : Runtime :=
  {| JSON_parse := parse;
     JSON_stringify := stringify;
     parseInt := parse_int;
     assignErrorText := fun _ => lit "TypeError: Cannot create property 'seq'";
     exitStatus := exit_status |}.

End Mini.

(** ** Concrete traffic *)

Definition QUOTE : N := 34%N.

Definition ascii_bytes (s : JSString) : Buffer :=
  flat_map (fun u => match Byte.of_N u with
                     | Some b => [b]
                     | None => []
                     end) s.

(** A client frame around the serialisation of a request. *)
Definition frame (requestMsg : json) : Buffer :=
  let payload := Mini.stringify requestMsg in
  ascii_bytes (lit "Content-Length: " ++ decimal (List.length payload)
                   ++ TWO_CRLF ++ payload).

(** A message of the target, with its terminator. *)
Definition terminated (message : JSString) : Buffer := ascii_bytes (message ++ [NUL]).

Definition request (command : string) (seq : Z) : json :=
  JObj [(lit "command", JStr (lit command)); (lit "seq", JNum seq)].

Definition request_with (command : string) (seq : Z) (arguments : list (JSString * json))
  : json :=
  JObj [(lit "command", JStr (lit command)); (lit "seq", JNum seq);
        (lit "arguments", JObj arguments)].

Definition event (name : string) : json := JObj [(lit "event", JStr (lit name))].


(** ** The deframer on the framing fields alone

    [readContentHeader] and the loop of [processClientMessage] read and
    write [currentInputData] and [currentContentLength]; the handlers
    they call do not.  [deframe] is the same loop on these two fields,
    and [exec] runs what it found. *)

Inductive HeaderResult : Type :=
| NoHeader                               (* [idx <= 0]: return *)
| Malformed                              (* no match: throw *)
| Announced (len : Z) (rest : JSString).

Definition readHeader (input : JSString) : HeaderResult :=
  let idx := indexOf TWO_CRLF input in
  if (idx <=? 0)%Z then NoHeader
  else match match_CONTENT_LENGTH_PATTERN (substr0 input idx) with
       | None => Malformed
       | Some digits =>
         Announced (parseDigits digits) (substrFrom input (idx + jslength TWO_CRLF))
       end.

Inductive Deframing : Type :=
| Wait (input : JSString) (len : Z)      (* break, with these fields *)
| Bad                                    (* [readContentHeader] throws *)
| Header (len : Z) (rest : JSString) (next : Deframing)
| Payload (message rest : JSString) (next : Deframing).

Definition payloadOrWait (continue : JSString -> Deframing) (input : JSString) (len : Z)
  : Deframing :=
  if ((len =? 0) || (jslength input <? len))%Z then Wait input len
  else Payload (substr0 input len) (substrFrom input len) (continue (substrFrom input len)).

Fixpoint deframe (fuel : nat) (input : JSString) (len : Z) : Deframing :=
  match fuel with
  | O => Wait input len
  | S fuel' =>
    let continue := fun rest => deframe fuel' rest 0%Z in
    if (len =? 0)%Z then
      match readHeader input with
      | NoHeader => payloadOrWait continue input len
      | Malformed => Bad
      | Announced len' rest => Header len' rest (payloadOrWait continue rest len')
      end
    else payloadOrWait continue input len
  end.

(** The deframing of a buffer, with the fuel of [processClientMessage]. *)
Definition deframing (input : JSString) (len : Z) : Deframing :=
  deframe (S (List.length input)) input len.

Fixpoint payloads (d : Deframing) : list JSString :=
  match d with
  | Wait _ _ | Bad => []
  | Header _ _ next => payloads next
  | Payload message _ next => message :: payloads next
  end.

(** The fields the loop leaves behind, unless it throws. *)
Fixpoint ending (d : Deframing) : option (JSString * Z) :=
  match d with
  | Wait input len => Some (input, len)
  | Bad => None
  | Header _ _ next => ending next
  | Payload _ _ next => ending next
  end.

(** Every header parsed announces at least one code unit. *)
Fixpoint positive (d : Deframing) : Prop :=
  match d with
  | Wait _ _ | Bad => True
  | Header len _ next => (0 < len)%Z /\ positive next
  | Payload _ _ next => positive next
  end.

(** Feeding chunks of text one after the other: the payloads found, and
    the fields left behind. *)
Fixpoint feeding (chunks : list JSString) (input : JSString) (len : Z)
  : list JSString * option (JSString * Z) :=
  match chunks with
  | [] => ([], Some (input, len))
  | chunk :: more =>
    let d := deframing (input ++ chunk) len in
    match ending d with
    | Some (input', len') =>
      let (found, left) := feeding more input' len' in (payloads d ++ found, left)
    | None => (payloads d, None)
    end
  end.

(** The deframing [d] of a buffer followed by [t] is the deframing [d1]
    of the buffer alone, continued on what it left behind followed by
    [t]. *)
Definition continues (t : JSString) (d1 d : Deframing) : Prop :=
  positive d1 /\
  match ending d1 with
  | Some (input, len) =>
    (0 <= len)%Z /\
    deframing input len = Wait input len /\
    positive (deframing (input ++ t) len) /\
    payloads d = payloads d1 ++ payloads (deframing (input ++ t) len) /\
    ending d = ending (deframing (input ++ t) len)
  | None => payloads d = payloads d1 /\ ending d = None
  end.

Definition is_ascii (chunk : Buffer) : Prop :=
  Forall (fun b => (Byte.to_N b < 128)%N) chunk.

Section Exec.

Context {R : Runtime}.

Fixpoint exec (d : Deframing) : M unit :=
  match d with
  | Wait _ _ => ret tt
  | Bad => throw (Error (lit "Unable to parse message from debugger client"))
  | Header len rest next =>
    update (set_currentContentLength len) ;;
    update (set_currentInputData rest) ;;
    _ <- nextSequenceNumber ;;
    exec next
  | Payload message rest next =>
    match JSON_parse message with
    | SyntaxError text => throw (JSONError text)
    | Value requestMsg =>
      dispatch requestMsg ;;
      update (set_currentContentLength 0) ;;
      update (set_currentInputData rest) ;;
      exec next
    end
  end.

End Exec.

(** ** Vocabulary of the statements *)

Definition effects {A} (o : Outcome A) : list Effect :=
  match o with
  | Ok _ _ out => out
  | Exited _ out => out
  | Crashed _ out => out
  end.

Definition final {A} (o : Outcome A) : option Process :=
  match o with
  | Ok _ p _ => Some p
  | _ => None
  end.

(** The same outcome after [pre] has already been written. *)
Definition prepend {A} (pre : list Effect) (o : Outcome A) : Outcome A :=
  match o with
  | Ok a p out => Ok a p (pre ++ out)
  | Exited c out => Exited c (pre ++ out)
  | Crashed e out => Crashed e (pre ++ out)
  end.

(** The two writes of [writeOutputWithHeader]. *)
Definition frame_of (output : JSString) : list Effect :=
  [StdoutWrite (lit "Content-Length: " ++ decimal (byteLength output) ++ TWO_CRLF);
   StdoutWrite output].

(** The sequence number a message carries once serialised. *)
Definition seq_of (m : json) : option Z :=
  match m with
  | JObj fields => match lookup (lit "seq") fields with
                   | Some (JNum n) => Some n
                   | _ => None
                   end
  | _ => None
  end.

(** [m] went out stamped with [n]: an object holds [n] in [seq]; on an
    array the property is set and lost in serialisation. *)
Definition carries (m : json) (n : Z) : Prop :=
  match m with
  | JObj _ => seq_of m = Some n
  | JArr _ => True
  | _ => False
  end.

Definition with_wrapper (w : Wrapper) (p : Process) : Process :=
  mkProcess w (sockets p) (timers p) (children p).

(** The process after [this.bufferedRequests.push(requestMsg)]. *)
Definition push (requestMsg : json) (p : Process) : Process :=
  with_wrapper (set_bufferedRequests (bufferedRequests (wrapper p) ++ [requestMsg])
                                     (wrapper p)) p.

(** What the deframing loop works on. *)
Definition framing (p : Process) : JSString * Z :=
  (currentInputData (wrapper p), currentContentLength (wrapper p)).

Definition stdout_only (out : list Effect) : list Effect :=
  filter (fun e => match e with StdoutWrite _ => true | _ => false end) out.

Definition is_socket_write (sock : nat) (e : Effect) : bool :=
  match e with
  | SocketWrite s _ => Nat.eqb s sock
  | _ => false
  end.

(** A request that [handleWrapperRequest] does not treat itself: not
    [null], and its command is none of disconnect, launch, attach. *)
Definition ordinary (requestMsg : json) : Prop :=
  requestMsg <> JNull /\
  forall command, prop requestMsg "command" = Some (JStr command) ->
                  jseqb command (lit "disconnect") = false /\
                  jseqb command (lit "launch") = false /\
                  jseqb command (lit "attach") = false.

(** Strictly increasing as far as doubles count exactly. *)
Definition ascending (a b : Z) : Prop := (a < MAX_EXACT -> a < b)%Z.

(** The object that [writeResponseMessage] serialises. *)
Definition response (n : Z) (message : list (string * option json)) : json :=
  JObj ([(lit "seq", JNum n); (lit "type", JStr (lit "response"))] ++ defined message).

(** The adapter object after a successful [launchTarget] or connect
    handler. *)
Definition established (callback : Callback) (w : Wrapper) : Wrapper :=
  set_debugging true (set_debuggerWriteCallback (Some callback) w).

(** The argument of [writeResponseMessage] in the connect handler. *)
Definition attachResponse (attachMessage : json) : list (string * option json) :=
  [("request_seq", prop attachMessage "seq");
   ("success", Some (JBool true));
   ("command", prop attachMessage "command")].

(** A message as it leaves for the client: an object with a [seq], or
    an array passed through. *)
Definition stamped (m : json) : Prop :=
  match m with
  | JObj _ => exists n, seq_of m = Some n
  | JArr _ => True
  | _ => False
  end.

Definition seqs (msgs : list json) : list Z :=
  flat_map (fun m => match seq_of m with Some n => [n] | None => [] end) msgs.

Fixpoint increasing (l : list Z) : Prop :=
  match l with
  | [] => True
  | a :: r => Forall (ascending a) r /\ increasing r
  end.

(** The messages written between two values of the counter: each
    message takes the next value, and values may be skipped. *)
Inductive Stamps : Z -> list json -> Z -> Prop :=
| stamps_nil c : Stamps c [] c
| stamps_gap c msgs c' : Stamps (increment c) msgs c' -> Stamps c msgs c'
| stamps_msg c m msgs c' :
    carries m (increment c) -> Stamps (increment c) msgs c' -> Stamps c (m :: msgs) c'.

(** The connect handler of socket [sock] has run. *)
Definition disarmed (p : Process) (sock : nat) : Prop :=
  exists sk, nth_error (sockets p) sock = Some sk /\ sk_connect_armed sk = false.

(** Only sockets whose connect handler has run are written to or held
    in [debuggerWriteCallback]. *)
Definition connected_only (p : Process) (out : list Effect) : Prop :=
  (forall sock data, In (SocketWrite sock data) out -> disarmed p sock) /\
  (forall sock, debuggerWriteCallback (wrapper p) = Some (SocketWriter sock) ->
                disarmed p sock).

Section Actions.

Context {R : Runtime}.

(** The atomic things a handler does to the process and the outside. *)
Inductive Act : Process -> list Effect -> Process -> Prop :=
| act_buffers p input len output :
    Act p []
        (with_wrapper (set_currentInputData input
                         (set_currentContentLength len
                            (set_currentOutputData output (wrapper p)))) p)
| act_incr p :
    Act p [] (with_wrapper (set_sequenceNumber (increment (sequenceNumber (wrapper p)))
                                               (wrapper p)) p)
| act_message p m :
    carries m (increment (sequenceNumber (wrapper p))) ->
    Act p (frame_of (JSON_stringify m))
        (with_wrapper (set_sequenceNumber (increment (sequenceNumber (wrapper p)))
                                          (wrapper p)) p)
| act_stderr p s :
    Act p [StderrWrite s] p
| act_push p requestMsg :
    debugging (wrapper p) = false ->
    Act p [] (with_wrapper (set_bufferedRequests (bufferedRequests (wrapper p) ++ [requestMsg])
                                                 (wrapper p)) p)
| act_socket p attachMessage retries port :
    Act p [SocketConnect (List.length (sockets p)) port]
        (mkProcess (wrapper p) (sockets p ++ [mkSocket attachMessage retries true])
                   (timers p) (children p))
| act_timer p attachMessage retries :
    Act p [SetTimeout (List.length (timers p)) 1000]
        (mkProcess (wrapper p) (sockets p)
                   (timers p ++ [mkTimer attachMessage retries true]) (children p))
| act_expire p timer :
    Act p [] (expire timer p)
| act_spawn p stdio cwd :
    Act p [Spawn (List.length (children p)) stdio cwd]
        (mkProcess (wrapper p) (sockets p) (timers p) (children p ++ [stdio]))
| act_attach_handshake p sock sk :
    nth_error (sockets p) sock = Some sk ->
    sk_connect_armed sk = true ->
    Act p [SocketWrite sock (JSON_stringify (sk_attachMessage sk) ++ [NUL])]
        (with_wrapper (set_debuggerWriteCallback (Some (SocketWriter sock)) (wrapper p))
                      (disarm sock p))
| act_launch_handshake p child launchMessage :
    child < List.length (children p) ->
    Act p [ChildWrite child 0 (JSON_stringify launchMessage ++ [NUL])]
        (with_wrapper (set_debuggerWriteCallback (Some (ChildStdinWriter child)) (wrapper p)) p)
| act_call p callback data :
    debuggerWriteCallback (wrapper p) = Some callback ->
    Act p [written callback data] p
| act_debugging p :
    debuggerWriteCallback (wrapper p) <> None ->
    Act p [] (with_wrapper (set_debugging true (wrapper p)) p).

Inductive Acts : Process -> list Effect -> Process -> Prop :=
| acts_nil p : Acts p [] p
| acts_cons p1 out1 p2 out2 p3 :
    Act p1 out1 p2 -> Acts p2 out2 p3 -> Acts p1 (out1 ++ out2) p3.

(** A computation all of whose runs are sequences of atomic actions,
    also when it ends the process. *)
Definition sound {A} (m : M A) : Prop :=
  forall p,
    match m p with
    | Ok _ p' out => Acts p out p'
    | Exited _ out => exists p', Acts p out p'
    | Crashed _ out => exists p', Acts p out p'
    end.

End Actions.

(** ** Frames, chunks and targets: more vocabulary *)

(** A frame as the client sends it: the header announces the length of
    the payload, which [processClientMessage] compares with the length
    of its string. *)
Definition framed (payload : JSString) : JSString :=
  lit "Content-Length: " ++ decimal (List.length payload) ++ TWO_CRLF ++ payload.

(** A message of the target with its terminator. *)
Definition ended (message : JSString) : JSString := message ++ [NUL].

(** The process with the two framing fields replaced. *)
Definition refit (f : JSString * Z) (p : Process) : Process :=
  with_wrapper (set_currentInputData (fst f) (set_currentContentLength (snd f) (wrapper p))) p.

Definition refitted {A} (f : JSString * Z) (o : Outcome A) : Outcome A :=
  match o with
  | Ok a p out => Ok a (refit f p) out
  | Exited c out => Exited c out
  | Crashed e out => Crashed e out
  end.

(** A computation that neither reads nor writes the framing fields. *)
Definition oblivious {A} (m : M A) : Prop :=
  forall f p, m (refit f p) = refitted f (m p).

(** The process after [++this.sequenceNumber]. *)
Definition bump (p : Process) : Process :=
  with_wrapper (set_sequenceNumber (increment (sequenceNumber (wrapper p))) (wrapper p)) p.

(** The object that [writeOutputEvent] serialises. *)
Definition outputEvent (n : Z) (eventType : string) (message : JSString) : json :=
  JObj [(lit "seq", JNum n);
        (lit "type", JStr (lit "event"));
        (lit "event", JStr (lit "output"));
        (lit "body", JObj [(lit "category", JStr (lit eventType));
                           (lit "output", JStr message)])].

(** [n] times [++this.sequenceNumber]. *)
Fixpoint bumps (n : nat) (p : Process) : Process :=
  match n with
  | O => p
  | S n' => bumps n' (bump p)
  end.

(** The process with [currentInputData] replaced. *)
Definition reinput (s : JSString) (p : Process) : Process :=
  with_wrapper (set_currentInputData s (wrapper p)) p.

(** The process with [currentOutputData] replaced. *)
Definition rebuffer (s : JSString) (p : Process) : Process :=
  with_wrapper (set_currentOutputData s (wrapper p)) p.

Definition rebuffered {A} (s : JSString) (o : Outcome A) : Outcome A :=
  match o with
  | Ok a p out => Ok a (rebuffer s p) out
  | Exited c out => Exited c out
  | Crashed e out => Crashed e out
  end.

(** The argument of [writeResponseMessage] in [handleWrapperRequest]. *)
Definition acknowledgement (requestMsg : json) : list (string * option json) :=
  [("request_seq", prop requestMsg "seq");
   ("success", Some (JBool true));
   ("command", prop requestMsg "command")].

(** [debugging] is only set with a callback in place. *)
Definition routed (p : Process) : Prop :=
  debugging (wrapper p) = true -> debuggerWriteCallback (wrapper p) <> None.

(** A command as [translateNuclideRequest] sends it on. *)
Definition translated (command : JSString) : JSString :=
  if startsWith (lit "nuclide_") command then lit "fb_" ++ skipn 8 command else command.

(** The request as [translateNuclideRequest] serialises it. *)
Definition forwarded (requestMsg : json) : json :=
  match requestMsg with
  | JObj fields =>
    match lookup (lit "command") fields with
    | Some (JStr command) =>
      if startsWith (lit "nuclide_") command
      then JObj (assign (lit "command") (JStr (translated command)) fields)
      else requestMsg
    | _ => requestMsg
    end
  | _ => requestMsg
  end.

(** A command that is truthy and not a string: [command.startsWith] is
    not a function. *)
Definition unforwardable (requestMsg : json) : bool :=
  match prop requestMsg "command" with
  | Some (JStr _) => false
  | Some command => truthy command
  | None => false
  end.

(** The line that [processDebuggerMessage] writes on stderr for a
    message it does not pass on. *)
Definition report (text message : JSString) : Effect :=
  StderrWrite (lit "Error parsing message from target: " ++ text ++ lit ": " ++ message).



(** What has been written on stdout, as one text. *)
Definition stdout_text (out : list Effect) : JSString :=
  flat_map (fun e => match e with StdoutWrite data => data | _ => [] end) out.

Section Resuming.

Context {R : Runtime}.

(** Running what the deframer found, from given framing fields. *)
Definition resume (d : Deframing) (f : JSString * Z) : M unit :=
  fun p => exec d (refit f p).

(** [processClientMessage] on the text of a chunk. *)
Definition feed (t : JSString) : M unit :=
  fun p => resume (deframing (currentInputData (wrapper p) ++ t)
                             (currentContentLength (wrapper p)))
                  (currentInputData (wrapper p) ++ t, currentContentLength (wrapper p)) p.

(** What the adapter does with one complete frame, in the order of
    the source: [readContentHeader] takes a value of the counter, then
    the loop parses the payload and dispatches the request. *)
Definition handleFrame (payload : JSString) : M unit :=
  _ <- nextSequenceNumber ;;
  match JSON_parse payload with
  | SyntaxError text => throw (JSONError text)
  | Value requestMsg => dispatch requestMsg
  end.

(** The loop of [processDebuggerMessage] with a bound on its turns:
    [true] when the loop was left because [idx > 0] failed, [false]
    when the bound was reached before that. *)
Fixpoint debuggerLoopWithin (turns : nat) : M bool :=
  match turns with
  | O => ret false
  | S turns' =>
    w <- this ;;
    let idx := indexOf [NUL] (currentOutputData w) in
    if (idx >? 0)%Z then
      let message := substr0 (currentOutputData w) idx in
      deliver message ;;
      update (set_currentOutputData (substrFrom (currentOutputData w) (idx + 1))) ;;
      debuggerLoopWithin turns'
    else ret true
  end.

(** The loop of [processClientMessage] with a bound on its turns:
    [true] when the loop was left by [break], [false] when the bound
    was reached before that. *)
Fixpoint clientLoopWithin (turns : nat) : M bool :=
  match turns with
  | O => ret false
  | S turns' =>
    w <- this ;;
    (if (currentContentLength w =? 0)%Z then readContentHeader else ret tt) ;;
    w <- this ;;
    let length := currentContentLength w in
    if ((length =? 0) || (jslength (currentInputData w) <? length))%Z then ret true
    else
      let message := substr0 (currentInputData w) length in
      match JSON_parse message with
      | SyntaxError text => throw (JSONError text)
      | Value requestMsg =>
        dispatch requestMsg ;;
        update (set_currentContentLength 0) ;;
        w <- this ;;
        update (set_currentInputData (substrFrom (currentInputData w) length)) ;;
        clientLoopWithin turns'
      end
  end.

(** A write to a target is the serialisation of a message followed by
    one NUL, and for a child it goes to stream 0. *)
Definition to_target (e : Effect) : Prop :=
  match e with
  | SocketWrite _ data => exists message, data = JSON_stringify message ++ [NUL]
  | ChildWrite _ fd data => fd = 0 /\ exists message, data = JSON_stringify message ++ [NUL]
  | _ => True
  end.

(** A computation that writes to targets in this way only. *)
Definition tidy {A} (m : M A) : Prop :=
  forall p, Forall to_target (effects (m p)).

(** The output events for texts that arrive one after the other, from
    the counter [n] on. *)
Fixpoint eventsFrom (n : Z) (eventType : string) (texts : list JSString) : list Effect :=
  match texts with
  | [] => []
  | text :: more =>
    frame_of (JSON_stringify (outputEvent (increment n) eventType text))
      ++ eventsFrom (increment n) eventType more
  end.

End Resuming.

(** ** The settings of the extension (src/Config.ts)

    The module reads the settings once, when it is loaded;
    [hackConfig.get] is the parameter [get].  Only the client command
    is embedded: [clientPath], [hhClientArgs], [hhClientCommand]. *)

Module Config.

Definition SPACE : N := 32%N.

(** [s.split(' ')] *)
Fixpoint split (s : JSString) : list JSString :=
  match s with
  | [] => [[]]
  | u :: r =>
    if (u =? SPACE)%N then [] :: split r
    else match split r with
         | part :: parts => (u :: part) :: parts
         | [] => [[u]]
         end
  end.

(** [parts.join(' ')] *)
Fixpoint join (parts : list JSString) : JSString :=
  match parts with
  | [] => []
  | part :: rest =>
    match rest with
    | [] => part
    | _ :: _ => part ++ SPACE :: join rest
    end
  end.

Section Settings.

(** [hackConfig.get(key)]; [None] is [undefined]. *)
Variable get : string -> option json.

(** [v || d] *)
Definition orElse (v : option json) (d : json) : json :=
  match v with
  | Some x => if truthy x then x else d
  | None => d
  end.

Definition clientPath : json := orElse (get "clientPath") (JStr (lit "hh_client")).

(** [clientPath.split(' ')] as [hhClientArgs] is first computed.  A
    value that is not a string has no [split]: [None] is the TypeError
    that ends the loading of the module. *)
Definition splitClientPath : option (list JSString) :=
  match clientPath with
  | JStr s => Some (split s)
  | _ => None
  end.

(** [String(hhClientArgs.shift())]; [shift] on an empty array gives
    [undefined]. *)
Definition hhClientCommand : option JSString :=
  match splitClientPath with
  | Some (command :: _) => Some command
  | Some [] => Some (lit "undefined")
  | None => None
  end.

(** [hhClientArgs] as the module exports it: the array that [shift]
    has taken the first element from. *)
Definition hhClientArgs : option (list JSString) :=
  match splitClientPath with
  | Some parts => Some (tl parts)
  | None => None
  end.

End Settings.

End Config.

(** * Proofs *)

(** ** Strings *)

Lemma jseqb_refl (a : JSString) : jseqb a a = true.
Proof.
  induction a as [|x a IH]; simpl; [reflexivity|].
  now rewrite N.eqb_refl, IH.
Qed.

Lemma startsWith_app (p s : JSString) : startsWith p (p ++ s) = true.
Proof.
  induction p as [|x p IH]; simpl; [reflexivity|].
  now rewrite N.eqb_refl, IH.
Qed.

Lemma lookup_assign (k : JSString) (v : json) fields :
  lookup k (assign k v fields) = Some v.
Proof.
  induction fields as [|[k' v'] r IH]; simpl.
  - now rewrite jseqb_refl.
  - destruct (jseqb k k') eqn:E; simpl.
    + now rewrite jseqb_refl.
    + now rewrite E.
Qed.

(** ** The monad *)

Ltac step :=
  cbv beta iota delta [bind ret emit this process update install exit throw
                            nextSequenceNumber with_wrapper];
  cbn [wrapper sockets timers children app
       sequenceNumber currentOutputData currentInputData currentContentLength
       bufferedRequests debugging debuggerWriteCallback].

Lemma prepend_nil {A} (o : Outcome A) : prepend [] o = o.
Proof. now destruct o. Qed.

Lemma bind_ok {A B} (m : M A) (f : A -> M B) p a p1 out :
  m p = Ok a p1 out -> bind m f p = prepend out (f a p1).
Proof. intros H. unfold bind. rewrite H. now destruct (f a p1). Qed.

Lemma bind_exited {A B} (m : M A) (f : A -> M B) p c out :
  m p = Exited c out -> bind m f p = Exited c out.
Proof. intros H. unfold bind. now rewrite H. Qed.

Lemma bind_crashed {A B} (m : M A) (f : A -> M B) p e out :
  m p = Crashed e out -> bind m f p = Crashed e out.
Proof. intros H. unfold bind. now rewrite H. Qed.

Lemma effects_prepend {A} pre (o : Outcome A) : effects (prepend pre o) = pre ++ effects o.
Proof. now destruct o. Qed.

Section Handlers.

Context {R : Runtime}.

Lemma acts_one p out p' : Act p out p' -> Acts p out p'.
Proof.
  intros H. rewrite <- (app_nil_r out). eapply acts_cons; [exact H | constructor].
Qed.

Lemma acts_app p1 out1 p2 out2 p3 :
  Acts p1 out1 p2 -> Acts p2 out2 p3 -> Acts p1 (out1 ++ out2) p3.
Proof.
  induction 1 as [|q1 o1 q2 o2 q3 Ha Hs IH]; intros H2; simpl; [exact H2|].
  rewrite <- app_assoc. eapply acts_cons; [exact Ha | now apply IH].
Qed.

Lemma sound_ret {A} (a : A) : sound (ret a).
Proof. intros p. simpl. constructor. Qed.

Lemma sound_exit {A} c : sound (@exit A c).
Proof. intros p. simpl. exists p. constructor. Qed.

Lemma sound_throw {A} e : sound (@throw A e).
Proof. intros p. simpl. exists p. constructor. Qed.

Lemma sound_this : sound this.
Proof. intros p. simpl. constructor. Qed.

Lemma sound_process : sound process.
Proof. intros p. simpl. constructor. Qed.

Lemma sound_bind {A B} (m : M A) (f : A -> M B) :
  sound m -> (forall a, sound (f a)) -> sound (bind m f).
Proof.
  intros Hm Hf p. unfold bind. specialize (Hm p).
  destruct (m p) as [a p1 o1 | c o1 | e o1]; try exact Hm.
  specialize (Hf a p1).
  destruct (f a p1) as [b p2 o2 | c o2 | e o2].
  - eapply acts_app; eauto.
  - destruct Hf as [p' Hf]. exists p'. eapply acts_app; eauto.
  - destruct Hf as [p' Hf]. exists p'. eapply acts_app; eauto.
Qed.

Lemma sound_act {A} (m : M A) :
  (forall p, exists a p' out, m p = Ok a p' out /\ Act p out p') -> sound m.
Proof.
  intros H p. destruct (H p) as (a & p' & out & -> & Ha). now apply acts_one.
Qed.

Lemma sound_stderr s : sound (emit [StderrWrite s]).
Proof. apply sound_act. intros p. do 3 eexists. split; [reflexivity | constructor]. Qed.

Lemma sound_nextSequenceNumber : sound nextSequenceNumber.
Proof. apply sound_act. intros p. do 3 eexists. split; [reflexivity | apply act_incr]. Qed.

Lemma writeOutputWithHeader_eq output p :
  writeOutputWithHeader output p = Ok tt p (frame_of output).
Proof. reflexivity. Qed.

Lemma nextSequenceNumber_eq p :
  nextSequenceNumber p =
  Ok (increment (sequenceNumber (wrapper p)))
     (with_wrapper (set_sequenceNumber (increment (sequenceNumber (wrapper p))) (wrapper p)) p)
     [].
Proof. reflexivity. Qed.

Lemma writeResponseMessage_eq message p :
  writeResponseMessage message p =
  Ok tt
     (with_wrapper (set_sequenceNumber (increment (sequenceNumber (wrapper p))) (wrapper p)) p)
     (frame_of (JSON_stringify (response (increment (sequenceNumber (wrapper p))) message))).
Proof. reflexivity. Qed.

Lemma sound_writeResponseMessage message : sound (writeResponseMessage message).
Proof.
  apply sound_act. intros p. do 3 eexists. split; [apply writeResponseMessage_eq|].
  apply act_message. reflexivity.
Qed.

Lemma sound_writeOutputEvent eventType message : sound (writeOutputEvent eventType message).
Proof.
  apply sound_act. intros p. do 3 eexists. split; [reflexivity|].
  apply (act_message p (JObj _)). reflexivity.
Qed.

Lemma forEach_call callback (l : list json) p :
  forEach l (fun requestMsg => call callback (JSON_stringify requestMsg)) p =
  Ok tt p (map (fun requestMsg => written callback (JSON_stringify requestMsg)) l).
Proof.
  induction l as [|x l IH]; simpl; [reflexivity|].
  unfold bind at 1. simpl. now rewrite IH.
Qed.

Lemma forwardBufferedMessages_eq p :
  forwardBufferedMessages p =
  Ok tt p
     match debuggerWriteCallback (wrapper p) with
     | Some callback =>
       map (fun requestMsg => written callback (JSON_stringify requestMsg))
           (bufferedRequests (wrapper p))
     | None => []
     end.
Proof.
  unfold forwardBufferedMessages. step.
  destruct (debuggerWriteCallback (wrapper p)); [|reflexivity].
  now rewrite forEach_call.
Qed.

Lemma acts_calls p callback (l : list json) :
  debuggerWriteCallback (wrapper p) = Some callback ->
  Acts p (map (fun requestMsg => written callback (JSON_stringify requestMsg)) l) p.
Proof.
  intros H. induction l as [|x l IH]; simpl; [constructor|].
  change (?e :: ?r) with ([e] ++ r). eapply acts_cons; [|exact IH].
  now apply act_call.
Qed.

Lemma attachTarget_eq attachMessage retries port p :
  attachPort attachMessage = Some port ->
  (0 <= port < 65536)%Z ->
  attachTarget attachMessage retries p =
  Ok tt
     (mkProcess (wrapper p) (sockets p ++ [mkSocket attachMessage retries true])
                (timers p) (children p))
     [SocketConnect (List.length (sockets p)) port].
Proof.
  intros Hp Hr. unfold attachTarget. rewrite Hp.
  replace ((0 <=? port) && (port <? 65536))%Z with true; [reflexivity|].
  symmetry. apply andb_true_iff. split; [apply Z.leb_le | apply Z.ltb_lt]; lia.
Qed.

Lemma sound_attachTarget attachMessage retries : sound (attachTarget attachMessage retries).
Proof.
  intros p. unfold attachTarget.
  destruct (attachPort attachMessage) as [port|]; [|apply sound_throw].
  destruct ((0 <=? port) && (port <? 65536))%Z; [|apply sound_throw].
  step. apply acts_one, act_socket.
Qed.

Lemma onError_retry attachMessage retries error p :
  retries < 5 ->
  onError attachMessage retries error p =
  Ok tt
     (mkProcess (wrapper p) (sockets p)
                (timers p ++ [mkTimer attachMessage (retries + 1) true]) (children p))
     [SetTimeout (List.length (timers p)) 1000].
Proof.
  intros H. unfold onError.
  replace (5 <=? retries)%nat with false; [reflexivity|].
  symmetry. apply Nat.leb_gt. exact H.
Qed.

Lemma onError_give_up attachMessage retries error p :
  5 <= retries ->
  onError attachMessage retries error p =
  prepend [StderrWrite (lit "Error communicating with debugger target: "
                          ++ error_toString error)]
          (processExit (error_code error) p).
Proof.
  intros H. unfold onError, processExit.
  replace (5 <=? retries)%nat with true by (symmetry; apply Nat.leb_le; exact H).
  destruct (error_code error) as [v|]; [|reflexivity].
  destruct (exitStatus v); reflexivity.
Qed.

Lemma sound_onError attachMessage retries error : sound (onError attachMessage retries error).
Proof.
  intros p. destruct (Nat.le_gt_cases 5 retries) as [H|H].
  - rewrite onError_give_up by exact H. unfold processExit.
    destruct (error_code error) as [v|]; [destruct (exitStatus v)|];
      exists p; apply acts_one, act_stderr.
  - rewrite onError_retry by exact H. apply acts_one, act_timer.
Qed.

Lemma onConnect_eq sock attachMessage p :
  onConnect sock attachMessage p =
  Ok tt
     (with_wrapper
        (set_sequenceNumber (increment (sequenceNumber (wrapper p)))
                            (established (SocketWriter sock) (wrapper p))) p)
     (written (SocketWriter sock) (JSON_stringify attachMessage)
        :: map (fun requestMsg => written (SocketWriter sock) (JSON_stringify requestMsg))
               (bufferedRequests (wrapper p))
        ++ frame_of (JSON_stringify
                       (response (increment (sequenceNumber (wrapper p)))
                                 (attachResponse attachMessage)))).
Proof.
  unfold onConnect, call. step. rewrite forwardBufferedMessages_eq. step.
  rewrite writeResponseMessage_eq. step. reflexivity.
Qed.

Lemma launchTarget_eq launchMessage cwd p :
  spawn_cwd (orEmpty (prop launchMessage "arguments")) = Some cwd ->
  spawn_stdio (orEmpty (prop launchMessage "arguments")) = 4 ->
  launchTarget launchMessage p =
  Ok tt
     (mkProcess (established (ChildStdinWriter (List.length (children p))) (wrapper p))
                (sockets p) (timers p) (children p ++ [4]))
     (Spawn (List.length (children p)) 4 cwd
        :: written (ChildStdinWriter (List.length (children p))) (JSON_stringify launchMessage)
        :: map (fun requestMsg =>
                  written (ChildStdinWriter (List.length (children p)))
                          (JSON_stringify requestMsg))
               (bufferedRequests (wrapper p))).
Proof.
  intros Hc Hs. unfold launchTarget, call. rewrite Hc, Hs.
  change (4 <=? 3)%nat with false. step.
  rewrite forwardBufferedMessages_eq. step. rewrite app_nil_r. reflexivity.
Qed.

Lemma launchTarget_noDebug launchMessage cwd p :
  spawn_cwd (orEmpty (prop launchMessage "arguments")) = Some cwd ->
  spawn_stdio (orEmpty (prop launchMessage "arguments")) = 3 ->
  launchTarget launchMessage p =
  Crashed TypeError [Spawn (List.length (children p)) 3 cwd].
Proof.
  intros Hc Hs. unfold launchTarget. rewrite Hc, Hs. reflexivity.
Qed.

Lemma spawn_stdio_cases args : spawn_stdio args = 3 \/ spawn_stdio args = 4.
Proof. unfold spawn_stdio. destruct (truthy_opt _); auto. Qed.

Lemma acts_eq p out out' p' : Acts p out p' -> out = out' -> Acts p out' p'.
Proof. now intros H <-. Qed.

Lemma acts_last p out p' q : Act p out p' -> p' = q -> Acts p out q.
Proof. intros H <-. now apply acts_one. Qed.

Lemma sound_launchTarget launchMessage : sound (launchTarget launchMessage).
Proof.
  intros p.
  destruct (spawn_cwd (orEmpty (prop launchMessage "arguments"))) as [cwd|] eqn:Hc.
  2:{ unfold launchTarget. rewrite Hc. apply sound_throw. }
  destruct (spawn_stdio_cases (orEmpty (prop launchMessage "arguments"))) as [Hs|Hs].
  - rewrite (launchTarget_noDebug _ _ Hc Hs). eexists. apply acts_one, act_spawn.
  - rewrite (launchTarget_eq _ _ Hc Hs).
    eapply acts_eq.
    + eapply acts_cons; [apply act_spawn|].
      eapply acts_cons;
        [apply (@act_launch_handshake _ _ (List.length (children p)) launchMessage)|].
      { cbn [children]. rewrite length_app. simpl. lia. }
      eapply acts_app; [apply acts_calls; reflexivity|].
      eapply acts_last; [apply act_debugging; discriminate | reflexivity].
    + simpl. now rewrite app_nil_r.
Qed.

Lemma bind_process {A} (k : Process -> M A) q : bind process k q = k q q.
Proof. unfold bind, process. now destruct (k q q). Qed.

Lemma bind_this {A} (k : Wrapper -> M A) q : bind this k q = k (wrapper q) q.
Proof. unfold bind, this. now destruct (k (wrapper q) q). Qed.

(** The connect handler as [handle] runs it. *)
Lemma connect_eq sock attachMessage p :
  (install (disarm sock) ;; onConnect sock attachMessage) p =
  Ok tt
     (with_wrapper
        (set_sequenceNumber (increment (sequenceNumber (wrapper p)))
                            (established (SocketWriter sock) (wrapper p)))
        (disarm sock p))
     (written (SocketWriter sock) (JSON_stringify attachMessage)
        :: map (fun requestMsg => written (SocketWriter sock) (JSON_stringify requestMsg))
               (bufferedRequests (wrapper p))
        ++ frame_of (JSON_stringify
                       (response (increment (sequenceNumber (wrapper p)))
                                 (attachResponse attachMessage)))).
Proof.
  rewrite (@bind_ok _ _ (install (disarm sock)) _ p tt (disarm sock p) []) by reflexivity.
  rewrite onConnect_eq, prepend_nil. reflexivity.
Qed.

Lemma sound_connect sock sk p :
  nth_error (sockets p) sock = Some sk ->
  sk_connect_armed sk = true ->
  Acts p (written (SocketWriter sock) (JSON_stringify (sk_attachMessage sk))
            :: map (fun requestMsg => written (SocketWriter sock) (JSON_stringify requestMsg))
                   (bufferedRequests (wrapper p))
            ++ frame_of (JSON_stringify
                           (response (increment (sequenceNumber (wrapper p)))
                                     (attachResponse (sk_attachMessage sk)))))
       (with_wrapper
          (set_sequenceNumber (increment (sequenceNumber (wrapper p)))
                              (established (SocketWriter sock) (wrapper p)))
          (disarm sock p)).
Proof.
  intros Hn Ha.
  eapply acts_eq.
  - eapply acts_cons; [apply (@act_attach_handshake _ p sock sk Hn Ha)|].
    eapply acts_app; [apply acts_calls; reflexivity|].
    eapply acts_cons; [apply act_debugging; discriminate|].
    eapply acts_last;
      [apply (@act_message _ _ (response (increment (sequenceNumber (wrapper p)))
                                         (attachResponse (sk_attachMessage sk))));
       reflexivity
      | reflexivity].
  - reflexivity.
Qed.

Lemma translateNuclideRequest_pure requestMsg p :
  (exists data, translateNuclideRequest requestMsg p = Ok data p []) \/
  translateNuclideRequest requestMsg p = Crashed TypeError [].
Proof.
  unfold translateNuclideRequest.
  destruct requestMsg as [| | | | |fields]; try (left; eexists; reflexivity);
    [right; reflexivity|].
  destruct (lookup (lit "command") fields) as [c|]; [|left; eexists; reflexivity].
  destruct c; try (left; eexists; reflexivity);
    try (destruct (truthy _); [right; reflexivity | left; eexists; reflexivity]).
  destruct (truthy (JStr s) && startsWith (lit "nuclide_") s); left; eexists; reflexivity.
Qed.

Lemma sound_buffers (f : Wrapper -> Wrapper) :
  (forall w, exists input len output,
      f w = set_currentInputData input
              (set_currentContentLength len (set_currentOutputData output w))) ->
  sound (update f).
Proof.
  intros H p. step. destruct (H (wrapper p)) as (i & l & o & ->).
  apply acts_one, act_buffers.
Qed.

Lemma sound_set_length n : sound (update (set_currentContentLength n)).
Proof.
  apply sound_buffers. intros w.
  exists (currentInputData w), n, (currentOutputData w). reflexivity.
Qed.

Lemma sound_set_input s : sound (update (set_currentInputData s)).
Proof.
  apply sound_buffers. intros w.
  exists s, (currentContentLength w), (currentOutputData w). reflexivity.
Qed.

Lemma sound_set_output s : sound (update (set_currentOutputData s)).
Proof.
  apply sound_buffers. intros w.
  exists (currentInputData w), (currentContentLength w), s. reflexivity.
Qed.

Lemma sound_handleWrapperRequest requestMsg : sound (handleWrapperRequest requestMsg).
Proof.
  assert (Ho : sound (w <- this ;;
                      if negb (debugging w) then
                        update (fun w => set_bufferedRequests
                                           (bufferedRequests w ++ [requestMsg]) w) ;;
                        ret true
                      else ret false)).
  { intros p. step. destruct (debugging (wrapper p)) eqn:E; cbn [negb]; step.
    - constructor.
    - apply acts_one. now apply act_push. }
  unfold handleWrapperRequest. cbv zeta.
  destruct requestMsg; try apply sound_throw;
    (destruct (prop _ "command") as [[| | |command| |]|]; try exact Ho).
  all: destruct (jseqb command (lit "disconnect")).
  all: try (apply sound_bind; [apply sound_writeResponseMessage | intros; apply sound_exit]).
  all: destruct (jseqb command (lit "launch")).
  all: try (apply sound_bind; [apply sound_launchTarget | intros; apply sound_ret]).
  all: destruct (jseqb command (lit "attach")).
  all: try (apply sound_bind; [apply sound_attachTarget | intros; apply sound_ret]).
  all: exact Ho.
Qed.

Lemma sound_dispatch requestMsg : sound (dispatch requestMsg).
Proof.
  unfold dispatch. apply sound_bind; [apply sound_handleWrapperRequest|].
  intros [|]; cbn [negb]; [apply sound_ret|].
  intros p. step.
  destruct (debuggerWriteCallback (wrapper p)) as [callback|] eqn:E; [|constructor].
  destruct (translateNuclideRequest_pure requestMsg p) as [[data ->] | ->].
  - unfold call. step. apply acts_one. now apply act_call.
  - exists p. constructor.
Qed.

Lemma sound_readContentHeader : sound readContentHeader.
Proof.
  unfold readContentHeader. apply sound_bind; [apply sound_this|]. intros w.
  destruct (indexOf TWO_CRLF (currentInputData w) <=? 0)%Z; [apply sound_ret|].
  destruct (match_CONTENT_LENGTH_PATTERN _); [|apply sound_throw].
  apply sound_bind; [apply sound_set_length|]. intros _.
  apply sound_bind; [apply sound_set_input|]. intros _.
  apply sound_bind; [apply sound_nextSequenceNumber|]. intros _.
  apply sound_ret.
Qed.

Lemma sound_clientLoop fuel : sound (clientLoop fuel).
Proof.
  induction fuel as [|fuel IH]; [apply sound_ret|].
  cbn [clientLoop].
  apply sound_bind; [apply sound_this|]. intros w.
  apply sound_bind.
  { destruct (currentContentLength w =? 0)%Z;
      [apply sound_readContentHeader | apply sound_ret]. }
  intros _. apply sound_bind; [apply sound_this|]. intros w'.
  destruct (_ || _)%bool; [apply sound_ret|].
  destruct (JSON_parse _); [apply sound_throw|].
  apply sound_bind; [apply sound_dispatch|]. intros _.
  apply sound_bind; [apply sound_set_length|]. intros _.
  apply sound_bind; [apply sound_this|]. intros w''.
  apply sound_bind; [apply sound_set_input|]. intros _.
  exact IH.
Qed.

Lemma sound_processClientMessage chunk : sound (processClientMessage chunk).
Proof.
  unfold processClientMessage. apply sound_bind.
  { apply sound_buffers. intros w.
    exists (currentInputData w ++ Buffer_toString chunk),
           (currentContentLength w), (currentOutputData w). reflexivity. }
  intros _. apply sound_bind; [apply sound_this|]. intros w.
  apply sound_clientLoop.
Qed.

Lemma carries_stamp n fields : carries (JObj (assign (lit "seq") (JNum n) fields)) n.
Proof. unfold carries, seq_of. now rewrite lookup_assign. Qed.

Lemma sound_deliver message : sound (deliver message).
Proof.
  unfold deliver. destruct (JSON_parse message) as [text|obj]; [apply sound_stderr|].
  destruct obj as [| | | |items|fields].
  1-4: apply sound_bind; [apply sound_nextSequenceNumber | intros; apply sound_stderr].
  - intros p. rewrite (bind_ok _ _ _ (nextSequenceNumber_eq p)).
    rewrite writeOutputWithHeader_eq. cbn [prepend app].
    apply acts_one. apply (@act_message _ p (JArr items)). exact I.
  - intros p. rewrite (bind_ok _ _ _ (nextSequenceNumber_eq p)).
    rewrite writeOutputWithHeader_eq. cbn [prepend app].
    apply acts_one.
    apply (@act_message _ p (JObj (assign (lit "seq")
                                          (JNum (increment (sequenceNumber (wrapper p))))
                                          fields))).
    apply carries_stamp.
Qed.

Lemma sound_debuggerLoop fuel : sound (debuggerLoop fuel).
Proof.
  induction fuel as [|fuel IH]; [apply sound_ret|].
  cbn [debuggerLoop].
  apply sound_bind; [apply sound_this|]. intros w.
  destruct (indexOf [NUL] (currentOutputData w) >? 0)%Z; [|apply sound_ret].
  apply sound_bind; [apply sound_deliver|]. intros _.
  apply sound_bind; [apply sound_set_output|]. intros _.
  exact IH.
Qed.

Lemma sound_processDebuggerMessage chunk : sound (processDebuggerMessage chunk).
Proof.
  unfold processDebuggerMessage. apply sound_bind.
  { apply sound_buffers. intros w.
    exists (currentInputData w), (currentContentLength w),
           (currentOutputData w ++ Buffer_toString chunk). reflexivity. }
  intros _. apply sound_bind; [apply sound_this|]. intros w.
  apply sound_debuggerLoop.
Qed.

Lemma sound_withSocket sock k :
  (forall sk, sound (k sk)) -> sound (withSocket sock k).
Proof.
  intros H. unfold withSocket. apply sound_bind; [apply sound_process|]. intros p.
  destruct (nth_error (sockets p) sock); [apply H | apply sound_ret].
Qed.

Lemma sound_withChild child k :
  (forall stdio, sound (k stdio)) -> sound (withChild child k).
Proof.
  intros H. unfold withChild. apply sound_bind; [apply sound_process|]. intros p.
  destruct (nth_error (children p) child); [apply H | apply sound_ret].
Qed.

Lemma sound_handle e : sound (handle e).
Proof.
  destruct e; cbn [handle].
  - apply sound_processClientMessage.
  - intros p. unfold withSocket. rewrite bind_process.
    destruct (nth_error (sockets p) sock) as [sk|] eqn:Hn; [|constructor].
    destruct (sk_connect_armed sk) eqn:Ha; [|constructor].
    rewrite connect_eq. now apply sound_connect.
  - apply sound_withSocket. intros _. apply sound_processDebuggerMessage.
  - apply sound_withSocket. intros _. apply sound_exit.
  - apply sound_withSocket. intros _.
    apply sound_bind; [apply sound_stderr | intros; apply sound_exit].
  - apply sound_withSocket. intros sk. apply sound_onError.
  - apply sound_bind; [apply sound_process|]. intros p.
    destruct (nth_error (timers p) timer) as [tm|]; [|apply sound_ret].
    destruct (tm_pending tm); [|apply sound_ret].
    apply sound_bind; [|intros; apply sound_attachTarget].
    apply sound_act. intros q. do 3 eexists. split; [reflexivity | apply act_expire].
  - apply sound_withChild. intros _. apply sound_exit.
  - apply sound_withChild. intros _. apply sound_stderr.
  - apply sound_withChild. intros _. apply sound_writeOutputEvent.
  - apply sound_withChild. intros _. apply sound_writeOutputEvent.
  - apply sound_withChild. intros stdio.
    destruct (4 <=? stdio)%nat; [apply sound_processDebuggerMessage | apply sound_ret].
Qed.

Lemma sound_run events : sound (run events).
Proof.
  induction events as [|e events IH]; [apply sound_ret|].
  cbn [run]. apply sound_bind; [apply sound_handle | intros; exact IH].
Qed.

End Handlers.

(** ** Invariants of every run *)

Section Invariants.

Context {R : Runtime}.

(** Once [debugging] is set, nothing touches the queue. *)
Lemma act_frozen p out p' :
  Act p out p' ->
  debugging (wrapper p) = true ->
  bufferedRequests (wrapper p') = bufferedRequests (wrapper p) /\
  debugging (wrapper p') = true.
Proof.
  intros H Hd. destruct H; cbn; auto. congruence.
Qed.

Lemma acts_frozen p out p' :
  Acts p out p' ->
  debugging (wrapper p) = true ->
  bufferedRequests (wrapper p') = bufferedRequests (wrapper p) /\
  debugging (wrapper p') = true.
Proof.
  induction 1 as [|p1 o1 p2 o2 p3 Ha Hs IH]; intros Hd; [auto|].
  destruct (act_frozen Ha Hd) as [Hb Hd2].
  destruct (IH Hd2) as [Hb3 Hd3]. split; congruence.
Qed.

(** The counter and the messages on stdout. *)
Lemma increment_le c : (c <= increment c)%Z.
Proof. unfold increment. destruct (c <? MAX_EXACT)%Z; lia. Qed.

Lemma increment_lt c : (c < MAX_EXACT)%Z -> (c < increment c)%Z.
Proof.
  intros H. unfold increment.
  destruct (c <? MAX_EXACT)%Z eqn:E; [lia|]. apply Z.ltb_ge in E. lia.
Qed.

Lemma Stamps_app a l1 b l2 c : Stamps a l1 b -> Stamps b l2 c -> Stamps a (l1 ++ l2) c.
Proof.
  induction 1; intros H2; simpl; auto.
  - apply stamps_gap. auto.
  - apply stamps_msg; auto.
Qed.

Lemma stdout_only_written callback data : stdout_only [written callback data] = [].
Proof. now destruct callback. Qed.

Lemma act_stamps p out p' :
  Act p out p' ->
  exists msgs,
    stdout_only out = flat_map (fun m => frame_of (JSON_stringify m)) msgs /\
    Stamps (sequenceNumber (wrapper p)) msgs (sequenceNumber (wrapper p')).
Proof.
  intros H. destruct H; cbn [wrapper with_wrapper sequenceNumber set_sequenceNumber
                             set_currentInputData set_currentContentLength
                             set_currentOutputData set_bufferedRequests
                             set_debuggerWriteCallback set_debugging disarm expire].
  3:{ exists [m]. split; [cbn [flat_map]; now rewrite app_nil_r|].
      apply stamps_msg; [assumption | constructor]. }
  2:{ exists []. split; [reflexivity|]. apply stamps_gap. constructor. }
  all: exists []; split; [try reflexivity | constructor].
  apply stdout_only_written.
Qed.

Lemma acts_stamps p out p' :
  Acts p out p' ->
  exists msgs,
    stdout_only out = flat_map (fun m => frame_of (JSON_stringify m)) msgs /\
    Stamps (sequenceNumber (wrapper p)) msgs (sequenceNumber (wrapper p')).
Proof.
  induction 1 as [p|p1 o1 p2 o2 p3 Ha Hs IH].
  - exists []. split; [reflexivity | constructor].
  - destruct (act_stamps Ha) as (m1 & E1 & S1). destruct IH as (m2 & E2 & S2).
    exists (m1 ++ m2). split.
    + unfold stdout_only in *. rewrite filter_app, flat_map_app. congruence.
    + eapply Stamps_app; eauto.
Qed.

Lemma carries_stamped m n : carries m n -> stamped m.
Proof. destruct m; simpl; auto. intros H. now exists n. Qed.

Lemma carries_seq_of m n k : carries m n -> seq_of m = Some k -> k = n.
Proof.
  destruct m; simpl; intros H E; try contradiction; try discriminate; congruence.
Qed.

Lemma Stamps_stamped c msgs c' : Stamps c msgs c' -> Forall stamped msgs.
Proof.
  induction 1; auto. constructor; auto. eapply carries_stamped; eauto.
Qed.

(** Every sequence number written from counter [c] on is at least
    [increment c]. *)
Lemma Stamps_bound c msgs c' :
  Stamps c msgs c' -> Forall (fun n => increment c <= n)%Z (seqs msgs).
Proof.
  induction 1 as [c | c msgs c' H IH | c m msgs c' Hm H IH]; [constructor | |].
  - eapply Forall_impl; [|exact IH]. cbv beta. intros n Hn.
    pose proof (increment_le (increment c)). lia.
  - unfold seqs. cbn [flat_map]. apply Forall_app. split.
    + destruct (seq_of m) as [k|] eqn:E; [|constructor].
      constructor; [|constructor]. rewrite (@carries_seq_of _ _ _ Hm E). lia.
    + eapply Forall_impl; [|exact IH]. cbv beta. intros n Hn.
      pose proof (increment_le (increment c)). lia.
Qed.

Lemma Stamps_increasing c msgs c' : Stamps c msgs c' -> increasing (seqs msgs).
Proof.
  induction 1 as [c | c msgs c' H IH | c m msgs c' Hm H IH]; [exact I | exact IH |].
  unfold seqs. cbn [flat_map].
  destruct (seq_of m) as [k|] eqn:E; [|exact IH].
  cbn [app increasing]. split; [|exact IH].
  rewrite (@carries_seq_of _ _ _ Hm E).
  eapply Forall_impl; [|exact (Stamps_bound H)]. cbv beta.
  intros n Hn Hlt. pose proof (increment_lt Hlt). lia.
Qed.

(** Sockets and the callback. *)
Lemma nth_error_alter {A} (f : A -> A) i (l : list A) j :
  nth_error (alter f i l) j =
  if Nat.eqb i j then option_map f (nth_error l j) else nth_error l j.
Proof.
  revert i j. induction l as [|x l IH]; intros [|i] [|j]; simpl; try reflexivity.
  - now destruct (Nat.eqb i j).
  - apply IH.
Qed.

Lemma disarmed_app p sock extra :
  disarmed p sock ->
  disarmed (mkProcess (wrapper p) (sockets p ++ extra) (timers p) (children p)) sock.
Proof.
  intros (sk & Hn & Ha). exists sk. split; [|exact Ha]. cbn [sockets].
  rewrite nth_error_app1; [exact Hn|]. apply nth_error_Some. congruence.
Qed.

Lemma disarmed_disarm p sock sock' :
  disarmed p sock -> disarmed (disarm sock' p) sock.
Proof.
  intros (sk & Hn & Ha). unfold disarmed, disarm. cbn [sockets].
  rewrite nth_error_alter, Hn.
  destruct (Nat.eqb sock' sock); cbn [option_map]; eexists; split; eauto.
Qed.

Lemma disarmed_at p sock sk :
  nth_error (sockets p) sock = Some sk -> disarmed (disarm sock p) sock.
Proof.
  intros Hn. unfold disarmed, disarm. cbn [sockets].
  rewrite nth_error_alter, Hn, Nat.eqb_refl. cbn [option_map].
  eexists; split; reflexivity.
Qed.

Lemma disarmed_wrapper p w sock : disarmed p sock -> disarmed (with_wrapper w p) sock.
Proof. exact (fun H => H). Qed.

Lemma act_disarmed p out p' sock : Act p out p' -> disarmed p sock -> disarmed p' sock.
Proof.
  intros H Hd. destruct H; try exact Hd.
  - now apply disarmed_app.
  - now apply disarmed_disarm.
Qed.

Lemma act_connected_only p out p' pre :
  Act p out p' -> connected_only p pre -> connected_only p' (pre ++ out).
Proof.
  intros H [Hw Hc].
  assert (Hmono : forall sock, disarmed p sock -> disarmed p' sock).
  { intros sock Hs. eapply act_disarmed; eauto. }
  split.
  - intros sock' data' Hin. apply in_app_or in Hin.
    destruct Hin as [Hin|Hin]; [eauto|].
    destruct H; cbn [In frame_of] in Hin;
      repeat (destruct Hin as [Hin|Hin]; try discriminate); try contradiction.
    + injection Hin as <- _. apply disarmed_wrapper. eapply disarmed_at; eauto.
    + destruct callback; cbn [written] in Hin; [|discriminate].
      injection Hin as <- _. apply Hc. assumption.
  - intros sock' Hcb. destruct H;
      try (apply Hmono, Hc; exact Hcb).
    + cbn in Hcb. injection Hcb as <-. apply disarmed_wrapper. eapply disarmed_at; eauto.
    + cbn in Hcb. discriminate.
Qed.

Lemma acts_connected_only p out p' pre :
  Acts p out p' -> connected_only p pre -> connected_only p' (pre ++ out).
Proof.
  intros H. revert pre. induction H as [p|p1 o1 p2 o2 p3 Ha Hs IH]; intros pre Hk.
  - now rewrite app_nil_r.
  - rewrite app_assoc. apply IH. eapply act_connected_only; eauto.
Qed.

Lemma connected_only_boot : connected_only boot [].
Proof. split; [intros ? ? [] | discriminate]. Qed.

End Invariants.

(** ** The loop of [processClientMessage] ends *)

Section ClientLoop.

Context {R : Runtime}.

Lemma bind_inv_ok {A B} (m : M A) (f : A -> M B) p b p2 out :
  bind m f p = Ok b p2 out ->
  exists a p1 o1 o2, m p = Ok a p1 o1 /\ f a p1 = Ok b p2 o2 /\ out = o1 ++ o2.
Proof.
  unfold bind. destruct (m p) as [a p1 o1| |]; try discriminate.
  destruct (f a p1) as [b' p2' o2| |] eqn:E; try discriminate.
  intros H. injection H as <- <- <-. now exists a, p1, o1, o2.
Qed.

Lemma launchTarget_framing launchMessage p a p' out :
  launchTarget launchMessage p = Ok a p' out -> framing p' = framing p.
Proof.
  intros H.
  destruct (spawn_cwd (orEmpty (prop launchMessage "arguments"))) as [cwd|] eqn:Hc.
  2:{ unfold launchTarget in H. rewrite Hc in H. discriminate. }
  destruct (spawn_stdio_cases (orEmpty (prop launchMessage "arguments"))) as [Hs|Hs].
  - rewrite (launchTarget_noDebug _ _ Hc Hs) in H. discriminate.
  - rewrite (launchTarget_eq _ _ Hc Hs) in H. injection H as _ <- _. reflexivity.
Qed.

Lemma attachTarget_framing attachMessage retries p a p' out :
  attachTarget attachMessage retries p = Ok a p' out -> framing p' = framing p.
Proof.
  unfold attachTarget. destruct (attachPort attachMessage) as [port|]; [|discriminate].
  destruct ((0 <=? port) && (port <? 65536))%Z; [|discriminate].
  intros H. injection H as _ <- _. reflexivity.
Qed.

Lemma handleWrapperRequest_framing requestMsg p a p' out :
  handleWrapperRequest requestMsg p = Ok a p' out -> framing p' = framing p.
Proof.
  assert (Ho : forall a p' out,
             (w <- this ;;
              if negb (debugging w) then
                update (fun w => set_bufferedRequests
                                   (bufferedRequests w ++ [requestMsg]) w) ;;
                ret true
              else ret false) p = Ok a p' out -> framing p' = framing p).
  { intros a0 p0 out0. rewrite bind_this.
    destruct (debugging (wrapper p)); cbn; intros H; injection H as _ <- _; reflexivity. }
  unfold handleWrapperRequest. cbv zeta.
  destruct requestMsg; try discriminate;
    (destruct (prop _ "command") as [[| | |command| |]|]; try apply Ho).
  all: destruct (jseqb command (lit "disconnect")).
  all: try (intros H; apply bind_inv_ok in H; destruct H as (? & ? & ? & ? & _ & H & _);
            discriminate).
  all: destruct (jseqb command (lit "launch")).
  all: try (intros H; apply bind_inv_ok in H; destruct H as (? & ? & ? & ? & H1 & H2 & _);
            injection H2 as _ <- _; now apply launchTarget_framing in H1).
  all: destruct (jseqb command (lit "attach")).
  all: try (intros H; apply bind_inv_ok in H; destruct H as (? & ? & ? & ? & H1 & H2 & _);
            injection H2 as _ <- _; now apply attachTarget_framing in H1).
  all: apply Ho.
Qed.

Lemma dispatch_framing requestMsg p a p' out :
  dispatch requestMsg p = Ok a p' out -> framing p' = framing p.
Proof.
  unfold dispatch. intros H. apply bind_inv_ok in H.
  destruct H as (handled & p1 & o1 & o2 & H1 & H2 & _).
  apply handleWrapperRequest_framing in H1. rewrite <- H1.
  destruct handled; cbn [negb] in H2.
  - injection H2 as _ <- _. reflexivity.
  - rewrite bind_this in H2.
    destruct (debuggerWriteCallback (wrapper p1)); [|injection H2 as _ <- _; reflexivity].
    apply bind_inv_ok in H2. destruct H2 as (data & p2 & ? & ? & H2 & H3 & _).
    destruct (translateNuclideRequest_pure requestMsg p1) as [[d Hd]|Hd];
      rewrite Hd in H2; [|discriminate].
    injection H2 as _ <- _. injection H3 as _ <- _. reflexivity.
Qed.

Lemma take_digits_digits s : Forall (fun u => is_digit u = true) (take_digits s).
Proof.
  induction s as [|u s IH]; cbn; [constructor|].
  destruct (is_digit u) eqn:E; constructor; assumption.
Qed.

Lemma match_digits s ds :
  match_CONTENT_LENGTH_PATTERN s = Some ds -> Forall (fun u => is_digit u = true) ds.
Proof.
  induction s as [|u s IH]; cbn [match_CONTENT_LENGTH_PATTERN]; unfold match_here.
  - destruct (startsWith _ _); [|discriminate].
    destruct (take_digits _) eqn:E; [discriminate|].
    intros H. injection H as <-. rewrite <- E. apply take_digits_digits.
  - destruct (startsWith _ _).
    + destruct (take_digits _) eqn:E; [exact IH|].
      intros H. injection H as <-. rewrite <- E. apply take_digits_digits.
    + exact IH.
Qed.

Lemma parseDigits_nonneg ds :
  Forall (fun u => is_digit u = true) ds -> (0 <= parseDigits ds)%Z.
Proof.
  intros H. unfold parseDigits.
  assert (G : forall acc, (0 <= acc)%Z ->
                          (0 <= fold_left (fun acc u => acc * 10 + (Z.of_N u - 48)) ds acc)%Z).
  { induction H as [|u ds Hu Hds IH]; intros acc Hacc; cbn [fold_left]; [exact Hacc|].
    apply IH. unfold is_digit in Hu. apply andb_true_iff in Hu. destruct Hu as [Hu _].
    apply N.leb_le in Hu. lia. }
  apply G. lia.
Qed.

Lemma readContentHeader_framing p a p' out :
  (0 <= currentContentLength (wrapper p))%Z ->
  readContentHeader p = Ok a p' out ->
  List.length (currentInputData (wrapper p')) <= List.length (currentInputData (wrapper p)) /\
  (0 <= currentContentLength (wrapper p'))%Z.
Proof.
  intros Hlen. unfold readContentHeader. rewrite bind_this.
  destruct (indexOf TWO_CRLF (currentInputData (wrapper p)) <=? 0)%Z.
  - intros H. injection H as _ <- _. split; [lia | exact Hlen].
  - destruct (match_CONTENT_LENGTH_PATTERN _) as [ds|] eqn:E; [|discriminate].
    intros H. injection H as _ <- _.
    cbn [wrapper currentInputData currentContentLength set_sequenceNumber
         set_currentInputData set_currentContentLength].
    split.
    + unfold substrFrom. rewrite length_skipn. lia.
    + apply parseDigits_nonneg. eapply match_digits; eauto.
Qed.

(** The fuel [processClientMessage] starts the loop with is never used
    up: more fuel changes nothing. *)
Lemma clientLoop_fuel fuel p :
  (0 <= currentContentLength (wrapper p))%Z ->
  List.length (currentInputData (wrapper p)) < fuel ->
  clientLoop (S fuel) p = clientLoop fuel p.
Proof.
  revert p. induction fuel as [|fuel IH]; intros p Hlen Hfuel; [lia|].
  remember (S fuel) as fuel1. cbn [clientLoop]. subst fuel1. cbn [clientLoop].
  rewrite !bind_this.
  set (header := if (currentContentLength (wrapper p) =? 0)%Z
                 then readContentHeader else ret tt).
  assert (Hh : forall a p1 o1, header p = Ok a p1 o1 ->
               List.length (currentInputData (wrapper p1))
               <= List.length (currentInputData (wrapper p)) /\
               (0 <= currentContentLength (wrapper p1))%Z).
  { intros a p1 o1. unfold header.
    destruct (currentContentLength (wrapper p) =? 0)%Z.
    - now apply readContentHeader_framing.
    - intros H. injection H as _ <- _. split; [lia | exact Hlen]. }
  destruct (header p) as [[] p1 o1| |] eqn:Eh;
    [|now erewrite !(@bind_exited _ _ _ _ _ _ _ Eh) | now erewrite !(@bind_crashed _ _ _ _ _ _ _ Eh)].
  rewrite !(bind_ok _ _ _ Eh). f_equal. rewrite !bind_this.
  destruct (Hh _ _ _ eq_refl) as [Hin1 Hlen1].
  destruct ((currentContentLength (wrapper p1) =? 0)
            || (jslength (currentInputData (wrapper p1)) <? currentContentLength (wrapper p1)))%Z
           eqn:Etest; [reflexivity|].
  apply orb_false_iff in Etest. destruct Etest as [Ez Elt].
  apply Z.eqb_neq in Ez. apply Z.ltb_ge in Elt. unfold jslength in Elt.
  destruct (JSON_parse _) as [text|requestMsg]; [reflexivity|].
  destruct (dispatch requestMsg p1) as [[] p2 o2| |] eqn:Ed;
    [|now erewrite !(@bind_exited _ _ _ _ _ _ _ Ed) | now erewrite !(@bind_crashed _ _ _ _ _ _ _ Ed)].
  rewrite !(bind_ok _ _ _ Ed). f_equal.
  pose proof (dispatch_framing _ _ Ed) as Hf. unfold framing in Hf.
  injection Hf as Hf1 Hf2.
  match goal with
  | |- bind (update ?f) ?k p2 = bind (update ?f) ?k' p2 =>
    rewrite (@bind_ok _ _ (update f) k p2 tt (with_wrapper (f (wrapper p2)) p2) [])
      by reflexivity;
    rewrite (@bind_ok _ _ (update f) k' p2 tt (with_wrapper (f (wrapper p2)) p2) [])
      by reflexivity
  end.
  f_equal. rewrite !bind_this.
  match goal with
  | |- bind (update ?f) ?k ?q = bind (update ?f) ?k' ?q =>
    rewrite (@bind_ok _ _ (update f) k q tt (with_wrapper (f (wrapper q)) q) [])
      by reflexivity;
    rewrite (@bind_ok _ _ (update f) k' q tt (with_wrapper (f (wrapper q)) q) [])
      by reflexivity
  end.
  f_equal. apply IH.
  - cbn. lia.
  - cbn [wrapper with_wrapper currentInputData set_currentInputData
         set_currentContentLength]. rewrite Hf1.
    unfold substrFrom. rewrite length_skipn. lia.
Qed.

Lemma clientLoop_enough fuel p :
  (0 <= currentContentLength (wrapper p))%Z ->
  List.length (currentInputData (wrapper p)) < fuel ->
  clientLoop fuel p = clientLoop (S (List.length (currentInputData (wrapper p)))) p.
Proof.
  intros Hlen H. induction fuel as [|fuel IH]; [lia|].
  destruct (Nat.eq_dec fuel (List.length (currentInputData (wrapper p)))) as [->|Hne];
    [reflexivity|].
  rewrite clientLoop_fuel by (assumption || lia). apply IH. lia.
Qed.

End ClientLoop.

(** ** The sequence counter (C2) *)

Lemma increasing_sorted (l : list Z) :
  increasing l -> Forall (fun n => n < MAX_EXACT)%Z l ->
  Forall (fun n => n < MAX_EXACT)%Z l /\ ForallOrdPairs Z.lt l.
Proof.
  intros Hi Hb. split; [exact Hb|].
  induction l as [|a l IH]; [constructor|].
  destruct Hi as [Ha Hi]. inversion Hb as [|? ? Hab Hbl]; subst.
  constructor; [|now apply IH].
  eapply Forall_impl; [|exact Ha]. cbv beta. intros b Hasc. now apply Hasc.
Qed.

Lemma ordered_NoDup (l : list Z) : ForallOrdPairs Z.lt l -> NoDup l.
Proof.
  induction 1 as [|a l Ha Hl IH]; constructor; [|exact IH].
  intros Hin. rewrite Forall_forall in Ha. specialize (Ha a Hin). lia.
Qed.

Lemma readContentHeader_eq {R : Runtime} p digits :
  (0 < indexOf TWO_CRLF (currentInputData (wrapper p)))%Z ->
  match_CONTENT_LENGTH_PATTERN
    (substr0 (currentInputData (wrapper p))
             (indexOf TWO_CRLF (currentInputData (wrapper p)))) = Some digits ->
  readContentHeader p =
  Ok tt
     (with_wrapper
        (set_sequenceNumber
           (increment (sequenceNumber (wrapper p)))
           (set_currentInputData
              (substrFrom (currentInputData (wrapper p))
                          (indexOf TWO_CRLF (currentInputData (wrapper p)) + 4))
              (set_currentContentLength (parseDigits digits) (wrapper p)))) p)
     [].
Proof.
  intros Hidx Hm. unfold readContentHeader. rewrite bind_this.
  replace (indexOf TWO_CRLF (currentInputData (wrapper p)) <=? 0)%Z with false
    by (symmetry; apply Z.leb_gt; exact Hidx).
  rewrite Hm. reflexivity.
Qed.

(** The claim fails on a message of the target that is a JSON array:
    the assignment sets a property that [JSON.stringify] leaves out, and
    the text goes to the client without a [seq]. *)
Lemma C2_counterexample :
  let array := JArr [JNum 1] in
  stdout_only
    (effects (@run Mini.runtime
                   [StdinData (frame (request "attach" 1));
                    SocketConnected 0;
                    SocketData 0 (terminated (Mini.stringify array))]
                   boot)) =
  frame_of (Mini.stringify
              (JObj [(lit "seq", JNum 2); (lit "type", JStr (lit "response"));
                     (lit "request_seq", JNum 1); (lit "success", JBool true);
                     (lit "command", JStr (lit "attach"))]))
    ++ frame_of (Mini.stringify array) /\
  JSON_parse (Runtime := Mini.runtime) (Mini.stringify array) = Value array /\
  seq_of array = None.
Proof. vm_compute. repeat split. Qed.

(** C2, amended.  The counter of a new adapter is 0.  Whatever events
    arrive, the writes on stdout are the framed serialisations of a list
    of messages; each of them is an object carrying a [seq], or an array
    of the target passed through without one; the numbers carried are
    positive and, in the order of writing, each is smaller than all
    later ones as long as it is below 2^53, where a double stops
    counting - so below 2^53 they are strictly increasing and pairwise
    distinct.  Parsing a client header moves the same counter on by one
    without writing anything. *)
Theorem C2_outbound_seq_strictly_increasing {R : Runtime} (events : list Event) :
  sequenceNumber constructor = 0%Z /\
  (exists msgs,
      stdout_only (effects (run events boot)) =
      flat_map (fun m => frame_of (JSON_stringify m)) msgs /\
      Forall stamped msgs /\
      Forall (fun n => 0 < n)%Z (seqs msgs) /\
      increasing (seqs msgs) /\
      (Forall (fun n => n < MAX_EXACT)%Z (seqs msgs) ->
       ForallOrdPairs Z.lt (seqs msgs) /\ NoDup (seqs msgs))) /\
  (forall p digits,
      (0 < indexOf TWO_CRLF (currentInputData (wrapper p)))%Z ->
      match_CONTENT_LENGTH_PATTERN
        (substr0 (currentInputData (wrapper p))
                 (indexOf TWO_CRLF (currentInputData (wrapper p)))) = Some digits ->
      exists p',
        readContentHeader p = Ok tt p' [] /\
        sequenceNumber (wrapper p') = increment (sequenceNumber (wrapper p)) /\
        (sequenceNumber (wrapper p) < MAX_EXACT ->
         sequenceNumber (wrapper p') = sequenceNumber (wrapper p) + 1)%Z).
Proof.
  split; [reflexivity|]. split.
  - assert (H : exists p', Acts boot (effects (run events boot)) p').
    { pose proof (sound_run events boot) as Hs.
      destruct (run events boot); cbn [effects]; eauto. }
    destruct H as [p' Hacts].
    destruct (acts_stamps Hacts) as (msgs & Hout & Hst).
    exists msgs. split; [exact Hout|].
    split; [eapply Stamps_stamped; eauto|].
    split.
    { eapply Forall_impl; [|exact (Stamps_bound Hst)]. cbv beta. intros n.
      change (increment (sequenceNumber (wrapper boot))) with 1%Z. lia. }
    split; [eapply Stamps_increasing; eauto|].
    intros Hb. pose proof (Stamps_increasing Hst) as Hi.
    destruct (@increasing_sorted _ Hi Hb) as [_ Hs].
    split; [exact Hs | now apply ordered_NoDup].
  - intros p digits Hidx Hm. eexists. split; [apply (@readContentHeader_eq _ p digits Hidx Hm)|].
    cbn [wrapper with_wrapper sequenceNumber set_sequenceNumber]. split; [reflexivity|].
    intros Hlt. unfold increment.
    replace (sequenceNumber (wrapper p) <? MAX_EXACT)%Z with true; [reflexivity|].
    symmetry. now apply Z.ltb_lt.
Qed.

(** ** The attach handshake (C3) *)

Lemma response_request_seq n attachMessage :
  prop (response n (attachResponse attachMessage)) "request_seq" = prop attachMessage "seq" /\
  prop (response n (attachResponse attachMessage)) "success" = Some (JBool true) /\
  prop (response n (attachResponse attachMessage)) "command" = prop attachMessage "command".
Proof.
  unfold response, attachResponse, defined. cbn [flat_map fst snd app].
  destruct (prop attachMessage "seq"), (prop attachMessage "command"); repeat split.
Qed.

Lemma handle_connect {R : Runtime} p sock sk :
  nth_error (sockets p) sock = Some sk ->
  sk_connect_armed sk = true ->
  handle (SocketConnected sock) p =
  prepend (SocketWrite sock (JSON_stringify (sk_attachMessage sk) ++ [NUL])
             :: map (fun requestMsg => SocketWrite sock (JSON_stringify requestMsg ++ [NUL]))
                    (bufferedRequests (wrapper p)))
          (writeResponseMessage
             (attachResponse (sk_attachMessage sk))
             (with_wrapper (established (SocketWriter sock) (wrapper p)) (disarm sock p))).
Proof.
  intros Hn Ha. cbn [handle]. unfold withSocket. rewrite bind_process, Hn, Ha.
  rewrite connect_eq, writeResponseMessage_eq. cbn [prepend]. reflexivity.
Qed.

(** C3.  Take any run of the adapter and a socket of it whose connect
    handler has not run yet; [attachMessage] is the attach request the
    socket was created for.  Nothing has been written to the socket so
    far.  When it connects, the handler (1) writes the attach request to
    it, (2) then the queued requests in their order, (3) has
    [debugging] set in the state in which (4) the response is written
    to the client; that response is a success and answers the attach
    request ([request_seq] is its [seq]). *)
Theorem C3_attach_connect_order {R : Runtime} events p out sock sk :
  run events boot = Ok tt p out ->
  nth_error (sockets p) sock = Some sk ->
  sk_connect_armed sk = true ->
  let attachMessage := sk_attachMessage sk in
  let ready := with_wrapper (established (SocketWriter sock) (wrapper p)) (disarm sock p) in
  let answer := response (increment (sequenceNumber (wrapper p))) (attachResponse attachMessage) in
  (forall e, In e out -> is_socket_write sock e = false) /\
  handle (SocketConnected sock) p =
  prepend (SocketWrite sock (JSON_stringify attachMessage ++ [NUL])
             :: map (fun requestMsg => SocketWrite sock (JSON_stringify requestMsg ++ [NUL]))
                    (bufferedRequests (wrapper p)))
          (writeResponseMessage (attachResponse attachMessage) ready) /\
  debugging (wrapper ready) = true /\
  debuggerWriteCallback (wrapper ready) = Some (SocketWriter sock) /\
  effects (writeResponseMessage (attachResponse attachMessage) ready) =
  frame_of (JSON_stringify answer) /\
  prop answer "request_seq" = prop attachMessage "seq" /\
  prop answer "success" = Some (JBool true) /\
  prop answer "type" = Some (JStr (lit "response")).
Proof.
  intros Hrun Hn Ha attachMessage ready answer.
  split.
  { pose proof (sound_run events boot) as Hs. rewrite Hrun in Hs.
    pose proof (acts_connected_only Hs connected_only_boot) as [Hw _].
    cbn [app] in Hw. intros e Hin.
    destruct e; try reflexivity. cbn [is_socket_write].
    destruct (Nat.eqb sock0 sock) eqn:E; [|reflexivity].
    apply Nat.eqb_eq in E. subst sock0.
    destruct (Hw _ _ Hin) as (sk' & Hn' & Ha'). congruence. }
  split; [now apply handle_connect|].
  split; [reflexivity|]. split; [reflexivity|]. split; [reflexivity|].
  destruct (response_request_seq (increment (sequenceNumber (wrapper p))) attachMessage)
    as (H1 & H2 & _).
  repeat split; assumption.
Qed.

(** A run on which C3 applies: a request, then an attach request. *)
Lemma C3_attach_connect_order_witness :
  let events := [StdinData (frame (request "initialize" 1));
                 StdinData (frame (request "attach" 2))] in
  exists p out sk,
    @run Mini.runtime events boot = Ok tt p out /\
    nth_error (sockets p) 0 = Some sk /\
    sk_connect_armed sk = true /\
    effects (@handle Mini.runtime (SocketConnected 0) p) =
    [SocketWrite 0 (Mini.stringify (request "attach" 2) ++ [NUL]);
     SocketWrite 0 (Mini.stringify (request "initialize" 1) ++ [NUL])]
      ++ frame_of (Mini.stringify
                     (JObj [(lit "seq", JNum 3); (lit "type", JStr (lit "response"));
                            (lit "request_seq", JNum 2); (lit "success", JBool true);
                            (lit "command", JStr (lit "attach"))])).
Proof.
  intros events.
  destruct (@run Mini.runtime events boot) as [[] p out| |] eqn:Hrun;
    [|vm_compute in Hrun; discriminate..].
  destruct (nth_error (sockets p) 0) as [sk|] eqn:Hn.
  2:{ vm_compute in Hrun. injection Hrun as <- _. discriminate. }
  destruct (sk_connect_armed sk) eqn:Ha.
  2:{ vm_compute in Hrun. injection Hrun as <- _. vm_compute in Hn.
      injection Hn as <-. discriminate. }
  exists p, out, sk. repeat split; try assumption.
  destruct (@C3_attach_connect_order Mini.runtime events p out 0 sk Hrun Hn Ha)
    as (_ & Hh & _).
  rewrite Hh, effects_prepend.
  vm_compute in Hrun. injection Hrun as <- _. vm_compute in Hn. injection Hn as <-.
  vm_compute. reflexivity.
Defined.

(** ** The queue of early requests (C1) *)

Section Queue.

Context {R : Runtime}.

Lemma handleWrapperRequest_ordinary requestMsg p :
  ordinary requestMsg ->
  handleWrapperRequest requestMsg p =
  if debugging (wrapper p) then Ok false p [] else Ok true (push requestMsg p) [].
Proof.
  intros [Hnull Hcmd].
  assert (Ho : (w <- this ;;
                if negb (debugging w) then
                  update (fun w => set_bufferedRequests
                                     (bufferedRequests w ++ [requestMsg]) w) ;;
                  ret true
                else ret false) p =
               if debugging (wrapper p) then Ok false p [] else Ok true (push requestMsg p) []).
  { rewrite bind_this. now destruct (debugging (wrapper p)). }
  unfold handleWrapperRequest. cbv zeta.
  destruct requestMsg; try congruence;
    (destruct (prop _ "command") as [[| | |command| |]|] eqn:E; try exact Ho).
  all: destruct (Hcmd command eq_refl) as (H1 & H2 & H3); rewrite H1, H2, H3; exact Ho.
Qed.

Lemma dispatch_buffers requestMsg p :
  debugging (wrapper p) = false ->
  ordinary requestMsg ->
  dispatch requestMsg p = Ok tt (push requestMsg p) [].
Proof.
  intros Hd Ho. unfold dispatch.
  assert (H : handleWrapperRequest requestMsg p = Ok true (push requestMsg p) []).
  { rewrite (handleWrapperRequest_ordinary p Ho), Hd. reflexivity. }
  rewrite (bind_ok _ _ _ H). reflexivity.
Qed.

Lemma forEach_dispatch_buffers requests p :
  debugging (wrapper p) = false ->
  Forall ordinary requests ->
  forEach requests dispatch p =
  Ok tt
     (with_wrapper (set_bufferedRequests (bufferedRequests (wrapper p) ++ requests)
                                         (wrapper p)) p)
     [].
Proof.
  intros Hd Hall. revert p Hd.
  induction Hall as [|r requests Hr Hall IH]; intros p Hd.
  - cbn [forEach]. rewrite app_nil_r. now destruct p as [[] ? ? ?].
  - cbn [forEach]. rewrite (bind_ok _ _ _ (dispatch_buffers p Hd Hr)), prepend_nil.
    rewrite IH by exact Hd. cbn. now rewrite <- app_assoc.
Qed.

Lemma run_frozen events p p' out :
  debugging (wrapper p) = true ->
  run events p = Ok tt p' out ->
  bufferedRequests (wrapper p') = bufferedRequests (wrapper p) /\
  debugging (wrapper p') = true.
Proof.
  intros Hd Hrun. pose proof (sound_run events p) as Hs. rewrite Hrun in Hs.
  now apply (acts_frozen Hs).
Qed.

End Queue.

(** The claim fails: a request that waited in the queue is written again
    at every later [launch], and the queue still holds it. *)
Lemma C1_counterexample :
  let early := request "initialize" 1 in
  let launch := request "launch" 2 in
  let again := request "launch" 3 in
  let result := @run Mini.runtime
                     [StdinData (frame early); StdinData (frame launch);
                      StdinData (frame again)] boot in
  effects result =
  [Spawn 0 4 None;
   ChildWrite 0 0 (Mini.stringify launch ++ [NUL]);
   ChildWrite 0 0 (Mini.stringify early ++ [NUL]);
   Spawn 1 4 None;
   ChildWrite 1 0 (Mini.stringify again ++ [NUL]);
   ChildWrite 1 0 (Mini.stringify early ++ [NUL])] /\
  option_map (fun p => bufferedRequests (wrapper p)) (final result) = Some [early].
Proof. vm_compute. split; reflexivity. Qed.

(** C1, amended.  Requests that arrive before [debugging] is set and
    that are not disconnect, launch or attach are only queued, in their
    order, and nothing is written.  From any state holding that queue,
    a launch in debug mode or the connect of an attach socket writes the
    handshake and then the whole queue, each request once and in the
    order of arrival.  After either, [debugging] is set and no event
    changes the queue any more: it is never emptied, so every later
    launch or connect writes it again. *)
Theorem C1_queue_flushed_in_order_at_each_connection
        {R : Runtime} (p : Process) (requests : list json) :
  debugging (wrapper p) = false ->
  Forall ordinary requests ->
  let queue := bufferedRequests (wrapper p) ++ requests in
  let settled (r' : Process) :=
      debugging (wrapper r') = true /\
      forall events r'' out,
        run events r' = Ok tt r'' out ->
        bufferedRequests (wrapper r'') = queue /\ debugging (wrapper r'') = true in
  exists q,
    forEach requests dispatch p = Ok tt q [] /\
    bufferedRequests (wrapper q) = queue /\
    debugging (wrapper q) = false /\
    forall r,
      bufferedRequests (wrapper r) = queue ->
      (forall launchMessage cwd,
          spawn_cwd (orEmpty (prop launchMessage "arguments")) = Some cwd ->
          spawn_stdio (orEmpty (prop launchMessage "arguments")) = 4 ->
          let callback := ChildStdinWriter (List.length (children r)) in
          exists r',
            launchTarget launchMessage r =
            Ok tt r'
               (Spawn (List.length (children r)) 4 cwd
                  :: written callback (JSON_stringify launchMessage)
                  :: map (fun requestMsg => written callback (JSON_stringify requestMsg))
                         queue) /\
            settled r') /\
      (forall sock attachMessage,
          let callback := SocketWriter sock in
          exists r',
            onConnect sock attachMessage r =
            Ok tt r'
               (written callback (JSON_stringify attachMessage)
                  :: map (fun requestMsg => written callback (JSON_stringify requestMsg))
                         queue
                  ++ frame_of (JSON_stringify
                                 (response (increment (sequenceNumber (wrapper r)))
                                           (attachResponse attachMessage)))) /\
            settled r').
Proof.
  intros Hd Hall queue settled.
  eexists. split; [apply forEach_dispatch_buffers; assumption|].
  split; [reflexivity|]. split; [exact Hd|].
  intros r Hq. split.
  - intros launchMessage cwd Hc Hs callback.
    eexists. split; [rewrite (@launchTarget_eq _ _ _ _ Hc Hs), Hq; reflexivity|].
    split; [reflexivity|].
    intros events r'' out Hrun.
    eapply run_frozen in Hrun; [|reflexivity]. destruct Hrun as [Hb Hdb].
    split; [rewrite Hb; exact Hq | exact Hdb].
  - intros sock attachMessage callback.
    eexists. split; [rewrite onConnect_eq, Hq; reflexivity|].
    split; [reflexivity|].
    intros events r'' out Hrun.
    eapply run_frozen in Hrun; [|reflexivity]. destruct Hrun as [Hb Hdb].
    split; [rewrite Hb; exact Hq | exact Hdb].
Qed.

(** ** Messages of the target (C6, C10) *)

Section Target.

Context {R : Runtime}.

Lemma find_nul_head rest : find [NUL] (NUL :: rest) = Some 0.
Proof. reflexivity. Qed.

Lemma find_nul_after message rest :
  Forall (fun u => u <> NUL) message ->
  find [NUL] (message ++ NUL :: rest) = Some (List.length message).
Proof.
  induction 1 as [|u message Hu Hm IH]; [reflexivity|].
  cbn [app find startsWith List.length].
  replace (N.eqb NUL u) with false
    by (symmetry; apply N.eqb_neq; congruence).
  cbn [andb]. now rewrite IH.
Qed.

Lemma deliver_ok message p : exists p' out, deliver message p = Ok tt p' out.
Proof.
  unfold deliver. destruct (JSON_parse message) as [text|obj]; [do 2 eexists; reflexivity|].
  destruct obj; do 2 eexists; reflexivity.
Qed.


Lemma deliver_object message fields p :
  JSON_parse message = Value (JObj fields) ->
  deliver message p =
  Ok tt
     (with_wrapper (set_sequenceNumber (increment (sequenceNumber (wrapper p))) (wrapper p)) p)
     (frame_of (JSON_stringify
                  (JObj (assign (lit "seq")
                                (JNum (increment (sequenceNumber (wrapper p)))) fields)))).
Proof. intros H. unfold deliver. now rewrite H. Qed.

Lemma debuggerLoop_ok fuel p : exists p' out, debuggerLoop fuel p = Ok tt p' out.
Proof.
  revert p. induction fuel as [|fuel IH]; intros p; [do 2 eexists; reflexivity|].
  cbn [debuggerLoop]. rewrite bind_this.
  destruct (indexOf [NUL] (currentOutputData (wrapper p)) >? 0)%Z;
    [|do 2 eexists; reflexivity].
  destruct (deliver_ok (substr0 (currentOutputData (wrapper p))
                                (indexOf [NUL] (currentOutputData (wrapper p)))) p)
    as (p1 & o1 & H1).
  rewrite (bind_ok _ _ _ H1).
  match goal with
  | |- context [prepend o1 (bind (update ?f) ?k p1)] =>
    rewrite (@bind_ok _ _ (update f) k p1 tt
                      (with_wrapper (f (wrapper p1)) p1) []) by reflexivity
  end.
  rewrite prepend_nil.
  match goal with |- context [debuggerLoop fuel ?q] => destruct (IH q) as (p2 & o2 & H2) end.
  rewrite H2. do 2 eexists. reflexivity.
Qed.

(** A buffer that starts with NUL stops the loop at once. *)
Lemma debuggerLoop_stuck fuel p rest :
  currentOutputData (wrapper p) = NUL :: rest ->
  debuggerLoop fuel p = Ok tt p [].
Proof.
  intros H. destruct fuel; [reflexivity|].
  cbn [debuggerLoop]. rewrite bind_this. unfold indexOf. rewrite H, find_nul_head.
  reflexivity.
Qed.

(** One turn of the loop on a buffer that starts with a message. *)
Lemma debuggerLoop_message fuel p message rest :
  currentOutputData (wrapper p) = message ++ NUL :: rest ->
  message <> [] ->
  Forall (fun u => u <> NUL) message ->
  debuggerLoop (S fuel) p =
  (deliver message ;; update (set_currentOutputData rest) ;; debuggerLoop fuel) p.
Proof.
  intros H Hne Hnul. cbn [debuggerLoop]. rewrite bind_this.
  unfold indexOf, substr0, substrFrom. rewrite H, (find_nul_after rest Hnul).
  replace (Z.of_nat (List.length message) >? 0)%Z with true.
  2:{ symmetry. apply Z.gtb_lt. destruct message; [congruence | cbn; lia]. }
  rewrite Nat2Z.id.
  replace (Z.to_nat (Z.of_nat (List.length message) + 1)) with (S (List.length message)) by lia.
  rewrite firstn_app, firstn_all, Nat.sub_diag. cbn [firstn]. rewrite app_nil_r.
  replace (skipn (S (List.length message)) (message ++ NUL :: rest)) with rest; [reflexivity|].
  rewrite skipn_app, skipn_all2 by lia.
  replace (S (List.length message) - List.length message) with 1 by lia. reflexivity.
Qed.

Lemma processDebuggerMessage_eq chunk p :
  processDebuggerMessage chunk p =
  debuggerLoop
    (S (List.length (currentOutputData (wrapper p) ++ Buffer_toString chunk)))
    (with_wrapper (set_currentOutputData (currentOutputData (wrapper p) ++ Buffer_toString chunk)
                                         (wrapper p)) p).
Proof.
  unfold processDebuggerMessage.
  match goal with
  | |- bind (update ?f) ?k p = _ =>
    rewrite (@bind_ok _ _ (update f) k p tt (with_wrapper (f (wrapper p)) p) []) by reflexivity
  end.
  rewrite prepend_nil, bind_this. reflexivity.
Qed.

Lemma startsWith_length (q s : JSString) :
  startsWith q s = true -> List.length q <= List.length s.
Proof.
  revert s. induction q as [|x q IH]; intros s H; cbn in *; [lia|].
  destruct s as [|y s]; [discriminate|]. apply andb_true_iff in H.
  destruct H as [_ H]. apply IH in H. cbn. lia.
Qed.

Lemma find_length (q s : JSString) i :
  find q s = Some i -> i + List.length q <= List.length s.
Proof.
  revert i. induction s as [|y s IH]; intros i H.
  - cbn in H. destruct (startsWith q []) eqn:E; [|discriminate].
    injection H as <-. now apply startsWith_length in E.
  - cbn [find] in H. destruct (startsWith q (y :: s)) eqn:E.
    + injection H as <-. now apply startsWith_length in E.
    + destruct (find q s) as [j|]; [|discriminate]. injection H as <-.
      specialize (IH j eq_refl). cbn. lia.
Qed.

(** The fuel [processDebuggerMessage] starts the loop with is never
    used up: more fuel changes nothing. *)
Lemma debuggerLoop_fuel fuel p :
  List.length (currentOutputData (wrapper p)) < fuel ->
  debuggerLoop (S fuel) p = debuggerLoop fuel p.
Proof.
  revert p. induction fuel as [|fuel IH]; intros p Hlen; [lia|].
  remember (S fuel) as fuel1. cbn [debuggerLoop]. subst fuel1.
  cbn [debuggerLoop]. rewrite !bind_this.
  destruct (indexOf [NUL] (currentOutputData (wrapper p)) >? 0)%Z eqn:Hidx; [|reflexivity].
  destruct (deliver_ok (substr0 (currentOutputData (wrapper p))
                                (indexOf [NUL] (currentOutputData (wrapper p)))) p)
    as (p1 & o1 & H1).
  rewrite !(bind_ok _ _ _ H1). f_equal.
  match goal with
  | |- bind (update ?f) ?k p1 = bind (update ?f) ?k' p1 =>
    rewrite (@bind_ok _ _ (update f) k p1 tt (with_wrapper (f (wrapper p1)) p1) [])
      by reflexivity;
    rewrite (@bind_ok _ _ (update f) k' p1 tt (with_wrapper (f (wrapper p1)) p1) [])
      by reflexivity
  end.
  f_equal. apply IH. cbn [wrapper with_wrapper currentOutputData set_currentOutputData].
  unfold substrFrom, indexOf in *.
  destruct (find [NUL] (currentOutputData (wrapper p))) as [i|] eqn:Hf; [|discriminate].
  apply find_length in Hf. cbn [List.length] in Hf.
  apply Z.gtb_lt in Hidx. rewrite length_skipn. lia.
Qed.

Lemma debuggerLoop_enough fuel p :
  List.length (currentOutputData (wrapper p)) < fuel ->
  debuggerLoop fuel p = debuggerLoop (S (List.length (currentOutputData (wrapper p)))) p.
Proof.
  intros H. induction fuel as [|fuel IH]; [lia|].
  destruct (Nat.eq_dec fuel (List.length (currentOutputData (wrapper p)))) as [->|Hne];
    [reflexivity|].
  rewrite debuggerLoop_fuel by lia. apply IH. lia.
Qed.

End Target.

Lemma stuck_forever {R : Runtime} (more : list Buffer) p :
  hd_error (currentOutputData (wrapper p)) = Some NUL ->
  forEach more processDebuggerMessage p =
  Ok tt
     (with_wrapper (set_currentOutputData
                      (currentOutputData (wrapper p) ++ List.concat (map Buffer_toString more))
                      (wrapper p)) p)
     [].
Proof.
  revert p. induction more as [|chunk more IH]; intros p Hhd.
  - cbn. rewrite app_nil_r. now destruct p as [[] ? ? ?].
  - destruct (currentOutputData (wrapper p)) as [|u rest] eqn:Hbuf; [discriminate|].
    injection Hhd as ->.
    cbn [forEach]. rewrite (@bind_ok _ _ _ _ p tt
      (with_wrapper (set_currentOutputData ((NUL :: rest) ++ Buffer_toString chunk)
                                           (wrapper p)) p) []).
    2:{ rewrite processDebuggerMessage_eq, Hbuf.
        now apply debuggerLoop_stuck with (rest := rest ++ Buffer_toString chunk). }
    rewrite prepend_nil, IH by reflexivity.
    cbn. now rewrite <- app_assoc.
Qed.

(** C10.  When the buffer of target output, with the new chunk added,
    starts with NUL, [processDebuggerMessage] returns with the buffer
    only grown by the chunk, the counter unchanged and nothing written;
    and so it goes for every chunk that follows: the buffer keeps its
    leading NUL and no message in it reaches the client. *)
Theorem C10_leading_nul_blocks_target_messages
        {R : Runtime} (p : Process) (chunk : Buffer) (more : list Buffer) :
  hd_error (currentOutputData (wrapper p) ++ Buffer_toString chunk) = Some NUL ->
  forEach (chunk :: more) processDebuggerMessage p =
  Ok tt
     (with_wrapper
        (set_currentOutputData
           (currentOutputData (wrapper p) ++ List.concat (map Buffer_toString (chunk :: more)))
           (wrapper p)) p)
     [].
Proof.
  intros Hhd.
  destruct (currentOutputData (wrapper p) ++ Buffer_toString chunk) as [|u rest] eqn:Hbuf;
    [discriminate|].
  injection Hhd as ->.
  cbn [forEach]. rewrite (@bind_ok _ _ _ _ p tt
    (with_wrapper (set_currentOutputData (NUL :: rest) (wrapper p)) p) []).
  2:{ rewrite processDebuggerMessage_eq, Hbuf.
      now apply debuggerLoop_stuck with (rest := rest). }
  rewrite prepend_nil, stuck_forever by reflexivity.
  cbn [wrapper with_wrapper currentOutputData set_currentOutputData map List.concat].
  rewrite app_assoc, Hbuf. reflexivity.
Qed.

(** An empty message followed by two good ones, in two chunks. *)
Lemma C10_leading_nul_blocks_target_messages_witness :
  let chunk := terminated [] ++ terminated (Mini.stringify (event "stopped")) in
  let more := [terminated (Mini.stringify (event "exited"))] in
  hd_error (currentOutputData (wrapper boot) ++ Buffer_toString chunk) = Some NUL /\
  effects (forEach (chunk :: more) (@processDebuggerMessage Mini.runtime) boot) = [].
Proof.
  intros chunk more. split; [reflexivity|].
  exact (f_equal effects
                 (@C10_leading_nul_blocks_target_messages Mini.runtime boot chunk more
                                                          eq_refl)).
Defined.

(** ** Retrying the attach (C4) *)

Section Retry.

Context {R : Runtime}.




Lemma bind_assoc {A B C} (m : M A) (f : A -> M B) (g : B -> M C) p :
  bind (bind m f) g p = bind m (fun x => bind (f x) g) p.
Proof.
  unfold bind. destruct (m p) as [a p1 o1| |]; try reflexivity.
  destruct (f a p1) as [b p2 o2| |]; try reflexivity.
  destruct (g b p2); now rewrite app_assoc.
Qed.

Lemma bind_ext {A B} (m : M A) (f g : A -> M B) p :
  (forall a q, f a q = g a q) -> bind m f p = bind m g p.
Proof.
  intros H. unfold bind. destruct (m p) as [a p1 o1| |]; try reflexivity.
  now rewrite H.
Qed.





End Retry.




Lemma C1_queue_flushed_in_order_at_each_connection_witness :
  let requests := [JObj [(lit "command", JStr (lit "initialize")); (lit "seq", JNum 1)];
                   JObj [(lit "command", JStr (lit "setBreakpoints")); (lit "seq", JNum 2)]] in
  debugging (wrapper boot) = false /\
  Forall ordinary requests /\
  exists q,
    forEach requests (@dispatch Mini.runtime) boot = Ok tt q [] /\
    bufferedRequests (wrapper q) = requests.
Proof.
  intros requests.
  assert (Hd : debugging (wrapper boot) = false) by reflexivity.
  assert (Hall : Forall ordinary requests).
  { repeat constructor; try discriminate;
      cbn in H; injection H as <-; reflexivity. }
  split; [exact Hd|]. split; [exact Hall|].
  destruct (@C1_queue_flushed_in_order_at_each_connection Mini.runtime boot requests Hd Hall)
    as (q & Hq & Hb & _).
  exists q. split; [exact Hq | exact Hb].
Defined.

(** C4, on the code.  Node emits [close] on a socket right after
    [error].  The error handler has set the timer of the first retry
    when the close handler ends the process with status 0: the timer
    never fires, no second attempt is made, and the status is not the
    error's code. *)
Theorem C4_close_after_error_ends_the_process :
  let error := mkError (lit "Error: connect ECONNREFUSED 127.0.0.1:9999")
                       (Some (JStr (lit "ECONNREFUSED"))) in
  @run Mini.runtime
       [StdinData (frame (request_with "attach" 1 [(lit "port", JStr (lit "9999"))]));
        SocketFailed 0 error;
        SocketClosed 0;
        TimerFired 0]
       boot =
  Exited (Some (JNum 0)) [SocketConnect 0 9999; SetTimeout 0 1000].
Proof. vm_compute. reflexivity. Qed.

(** ** Command names (C5) *)

Section Translation.

Context {R : Runtime}.

(** On the path of [processClientMessage], a command with the prefix
    goes out with [fb_] in its place. *)
Lemma translateNuclideRequest_prefix fields rest p :
  lookup (lit "command") fields = Some (JStr (lit "nuclide_" ++ rest)) ->
  translateNuclideRequest (JObj fields) p =
  Ok (JSON_stringify (JObj (assign (lit "command") (JStr (lit "fb_" ++ rest)) fields))) p [].
Proof.
  intros H. unfold translateNuclideRequest. rewrite H.
  rewrite startsWith_app. reflexivity.
Qed.

(** A command without the prefix goes out as it came. *)
Lemma translateNuclideRequest_other fields command p :
  lookup (lit "command") fields = Some (JStr command) ->
  startsWith (lit "nuclide_") command = false ->
  translateNuclideRequest (JObj fields) p = Ok (JSON_stringify (JObj fields)) p [].
Proof.
  intros H Hs. unfold translateNuclideRequest. rewrite H, Hs, andb_false_r. reflexivity.
Qed.

(** Translating what has been translated changes nothing. *)
Lemma translateNuclideRequest_idempotent fields rest p :
  lookup (lit "command") fields = Some (JStr (lit "nuclide_" ++ rest)) ->
  let translated := JObj (assign (lit "command") (JStr (lit "fb_" ++ rest)) fields) in
  translateNuclideRequest translated p = Ok (JSON_stringify translated) p [].
Proof.
  intros H translated. unfold translated.
  apply translateNuclideRequest_other with (command := lit "fb_" ++ rest).
  - apply lookup_assign.
  - reflexivity.
Qed.

End Translation.

(** C5, on the code.  A request with the legacy prefix that arrives
    before the launch waits in the queue and is written to the target
    with [nuclide_] still in its command; the same request after the
    launch is written with [fb_]. *)
Theorem C5_buffered_request_keeps_legacy_prefix :
  effects (@run Mini.runtime
                [StdinData (frame (request "nuclide_continue" 1));
                 StdinData (frame (request "launch" 2));
                 StdinData (frame (request "nuclide_continue" 3))]
                boot) =
  [Spawn 0 4 None;
   ChildWrite 0 0 (Mini.stringify (request "launch" 2) ++ [NUL]);
   ChildWrite 0 0 (Mini.stringify (request "nuclide_continue" 1) ++ [NUL]);
   ChildWrite 0 0 (Mini.stringify (request "fb_continue" 3) ++ [NUL])].
Proof. vm_compute. reflexivity. Qed.

(** ** Frames that are not ASCII (C7) *)

(** C7, on the code.  A frame whose payload holds the two bytes of an
    e with acute accent announces 16 bytes.  Read at once, the payload
    decodes to 15 code units, fewer than 16, and no request is
    dispatched although the frame is complete.  Read in two chunks cut
    between the two bytes, each half decodes to U+FFFD, the payload has
    16 code units, and a request is dispatched - with another command. *)
Theorem C7_chunking_changes_requests :
  let head := ascii_bytes (lit "Content-Length: 16" ++ TWO_CRLF
                               ++ lit "{" ++ [QUOTE] ++ lit "command" ++ [QUOTE]
                               ++ lit ":" ++ [QUOTE]) in
  let tail := ascii_bytes ([QUOTE] ++ lit "}") in
  let queued (events : list Event) :=
      option_map (fun p => bufferedRequests (wrapper p))
                 (final (@run Mini.runtime events boot)) in
  queued [StdinData (head ++ [xc3; xa9] ++ tail)] = Some [] /\
  queued [StdinData (head ++ [xc3]); StdinData ([xa9] ++ tail)] =
  Some [JObj [(lit "command", JStr [REPLACEMENT; REPLACEMENT])]].
Proof. vm_compute. split; reflexivity. Qed.

(** ** Launching (C8, C9) *)

(** X16.  For every launch request that asks for no debugging, in
    any state: the child is spawned with three pipes, and the handler
    then ends in a TypeError at [targetProcess.stdio[3].on]; nothing is
    written to the child. *)
Lemma launchTarget_noDebug_crashes {R : Runtime} launchMessage cwd p :
  truthy_opt (prop (orEmpty (prop launchMessage "arguments")) "noDebug") = true ->
  spawn_cwd (orEmpty (prop launchMessage "arguments")) = Some cwd ->
  launchTarget launchMessage p = Crashed TypeError [Spawn (List.length (children p)) 3 cwd].
Proof.
  intros Hn Hc. apply launchTarget_noDebug; [exact Hc|].
  unfold spawn_stdio. now rewrite Hn.
Qed.

(** C8, on the code.  A launch request with [noDebug] set: the child is
    spawned with three pipes, nothing is written to it, and the adapter
    ends in a TypeError instead of letting the child run. *)
Theorem C8_noDebug_launch_crashes :
  @run Mini.runtime
       [StdinData (frame (request_with "launch" 1 [(lit "noDebug", JBool true)]))]
       boot =
  Crashed TypeError [Spawn 0 3 None].
Proof. vm_compute. reflexivity. Qed.

(** C9, on the code: after a launch in debug mode, the handshake, the
    queued request and the later request are all written to stream 0 of
    the child, its stdin, not to stream 3. *)
Theorem C9_launch_writes_to_child_stdin :
  effects (@run Mini.runtime
                [StdinData (frame (request "initialize" 1));
                 StdinData (frame (request "launch" 2));
                 StdinData (frame (request "threads" 3))]
                boot) =
  [Spawn 0 4 None;
   ChildWrite 0 0 (Mini.stringify (request "launch" 2) ++ [NUL]);
   ChildWrite 0 0 (Mini.stringify (request "initialize" 1) ++ [NUL]);
   ChildWrite 0 0 (Mini.stringify (request "threads" 3) ++ [NUL])].
Proof. vm_compute. reflexivity. Qed.

(** ** The deframer and the chunks *)

Section Deframer.

Context {R : Runtime}.

Lemma readContentHeader_readHeader p :
  readContentHeader p =
  match readHeader (currentInputData (wrapper p)) with
  | NoHeader => Ok tt p []
  | Malformed => Crashed (Error (lit "Unable to parse message from debugger client")) []
  | Announced len rest =>
    Ok tt
       (with_wrapper
          (set_sequenceNumber (increment (sequenceNumber (wrapper p)))
                              (set_currentInputData rest
                                                    (set_currentContentLength len (wrapper p))))
          p)
       []
  end.
Proof.
  unfold readContentHeader, readHeader. rewrite bind_this.
  destruct (indexOf TWO_CRLF (currentInputData (wrapper p)) <=? 0)%Z; [reflexivity|].
  destruct (match_CONTENT_LENGTH_PATTERN _); reflexivity.
Qed.

(** The second half of a turn of the loop. *)
Lemma payload_exec fuel p :
  (forall q, clientLoop fuel q =
             exec (deframe fuel (currentInputData (wrapper q)) (currentContentLength (wrapper q)))
                  q) ->
  (w <- this ;;
   let length := currentContentLength w in
   if ((length =? 0) || (jslength (currentInputData w) <? length))%Z then ret tt
   else
     let message := substr0 (currentInputData w) length in
     match JSON_parse message with
     | SyntaxError text => throw (JSONError text)
     | Value requestMsg =>
       dispatch requestMsg ;;
       update (set_currentContentLength 0) ;;
       w <- this ;;
       update (set_currentInputData (substrFrom (currentInputData w) length)) ;;
       clientLoop fuel
     end) p =
  exec (payloadOrWait (fun rest => deframe fuel rest 0%Z)
                      (currentInputData (wrapper p)) (currentContentLength (wrapper p))) p.
Proof.
  intros IH. rewrite bind_this. cbv zeta. unfold payloadOrWait.
  destruct (_ || _)%bool; [reflexivity|]. cbn [exec].
  destruct (JSON_parse _) as [text|requestMsg]; [reflexivity|].
  destruct (dispatch requestMsg p) as [[] p2 o2| |] eqn:Ed;
    [|now erewrite !(@bind_exited _ _ _ _ _ _ _ Ed)
     |now erewrite !(@bind_crashed _ _ _ _ _ _ _ Ed)].
  rewrite !(bind_ok _ _ _ Ed). f_equal.
  pose proof (dispatch_framing _ _ Ed) as Hf. unfold framing in Hf. injection Hf as Hf1 Hf2.
  match goal with
  | |- bind (update ?f) ?k p2 = bind (update ?f) ?k' p2 =>
    rewrite (@bind_ok _ _ (update f) k p2 tt (with_wrapper (f (wrapper p2)) p2) [])
      by reflexivity;
    rewrite (@bind_ok _ _ (update f) k' p2 tt (with_wrapper (f (wrapper p2)) p2) [])
      by reflexivity
  end.
  f_equal. rewrite bind_this.
  cbn [wrapper with_wrapper currentInputData set_currentContentLength]. rewrite Hf1.
  match goal with
  | |- bind (update ?f) ?k ?q = bind (update ?f) ?k' ?q =>
    rewrite (@bind_ok _ _ (update f) k q tt (with_wrapper (f (wrapper q)) q) [])
      by reflexivity;
    rewrite (@bind_ok _ _ (update f) k' q tt (with_wrapper (f (wrapper q)) q) [])
      by reflexivity
  end.
  f_equal. apply IH.
Qed.

(** The loop of [processClientMessage] runs what [deframe] finds. *)
Lemma clientLoop_exec fuel : forall p,
  clientLoop fuel p =
  exec (deframe fuel (currentInputData (wrapper p)) (currentContentLength (wrapper p))) p.
Proof.
  induction fuel as [|fuel IH]; intros p; [reflexivity|].
  cbn [clientLoop deframe]. rewrite bind_this.
  destruct (currentContentLength (wrapper p) =? 0)%Z eqn:Hz.
  - pose proof (readContentHeader_readHeader p) as Hh.
    destruct (readHeader (currentInputData (wrapper p))) as [| |len rest] eqn:Er.
    + rewrite (bind_ok _ _ _ Hh), prepend_nil. now apply payload_exec.
    + now erewrite (@bind_crashed _ _ _ _ _ _ _ Hh).
    + rewrite (bind_ok _ _ _ Hh), prepend_nil. cbn [exec].
      rewrite (@bind_ok _ _ (update (set_currentContentLength len)) _ p tt
                        (with_wrapper (set_currentContentLength len (wrapper p)) p) [])
        by reflexivity.
      rewrite prepend_nil.
      match goal with
      | |- _ = bind (update ?f) ?k ?q =>
        rewrite (@bind_ok _ _ (update f) k q tt (with_wrapper (f (wrapper q)) q) [])
          by reflexivity
      end.
      rewrite prepend_nil.
      match goal with
      | |- _ = bind nextSequenceNumber ?k ?q =>
        rewrite (bind_ok _ _ _ (nextSequenceNumber_eq q))
      end.
      rewrite prepend_nil.
      etransitivity; [apply payload_exec; exact IH|]. reflexivity.
  - rewrite (@bind_ok _ _ (ret tt) _ p tt p []) by reflexivity.
    rewrite prepend_nil. now apply payload_exec.
Qed.

(** [processClientMessage] is the deframing of the buffer with the
    chunk added. *)
Lemma processClientMessage_exec chunk p :
  processClientMessage chunk p =
  exec (deframing (currentInputData (wrapper p) ++ Buffer_toString chunk)
                  (currentContentLength (wrapper p)))
       (with_wrapper (set_currentInputData (currentInputData (wrapper p) ++ Buffer_toString chunk)
                                           (wrapper p)) p).
Proof.
  unfold processClientMessage.
  match goal with
  | |- bind (update ?f) ?k p = _ =>
    rewrite (@bind_ok _ _ (update f) k p tt (with_wrapper (f (wrapper p)) p) []) by reflexivity
  end.
  rewrite prepend_nil, bind_this, clientLoop_exec. reflexivity.
Qed.

End Deframer.

Lemma startsWith_app_l (q b t : JSString) :
  startsWith q b = true -> startsWith q (b ++ t) = true.
Proof.
  revert b. induction q as [|x q IH]; intros b H; [reflexivity|].
  destruct b as [|y b]; [discriminate|]. cbn in *.
  apply andb_true_iff in H. destruct H as [Hx Hq]. rewrite Hx. cbn. now apply IH.
Qed.

Lemma startsWith_app_false (q b t : JSString) :
  startsWith q b = false -> List.length q <= List.length b ->
  startsWith q (b ++ t) = false.
Proof.
  revert b. induction q as [|x q IH]; intros b H Hlen; [discriminate|].
  destruct b as [|y b]; [cbn in Hlen; lia|]. cbn in *.
  destruct (N.eqb x y); [|reflexivity]. cbn in *. apply IH; [exact H | lia].
Qed.

Lemma find_app (q b t : JSString) i : find q b = Some i -> find q (b ++ t) = Some i.
Proof.
  revert i. induction b as [|y b IH]; intros i H.
  - cbn in H. destruct (startsWith q []) eqn:E; [|discriminate].
    injection H as <-. cbn [app]. destruct q; [|discriminate]. now destruct t.
  - cbn [find] in H. cbn [app find].
    change (y :: b ++ t) with ((y :: b) ++ t).
    destruct (startsWith q (y :: b)) eqn:E.
    + injection H as <-.
      now rewrite (startsWith_app_l q (y :: b) t E).
    + destruct (find q b) as [j|] eqn:Ef; [|discriminate]. injection H as <-.
      pose proof (find_length _ _ Ef) as Hlen.
      rewrite (startsWith_app_false q (y :: b) t E) by (cbn; lia).
      now rewrite (IH j eq_refl).
Qed.

Lemma readHeader_shorter input len rest :
  readHeader input = Announced len rest ->
  List.length rest < List.length input /\ (0 <= len)%Z.
Proof.
  unfold readHeader.
  destruct (indexOf TWO_CRLF input <=? 0)%Z eqn:Ei; [discriminate|].
  destruct (match_CONTENT_LENGTH_PATTERN _) as [ds|] eqn:Em; [|discriminate].
  intros H. injection H as <- <-. apply Z.leb_gt in Ei. split.
  - unfold substrFrom. rewrite length_skipn. unfold indexOf in *.
    destruct (find TWO_CRLF input) as [i|] eqn:Ef; [|lia].
    apply find_length in Ef. change (List.length TWO_CRLF) with 4 in Ef.
    change (jslength TWO_CRLF) with 4%Z. lia.
  - apply parseDigits_nonneg. eapply match_digits; eauto.
Qed.

Lemma readHeader_app input t :
  match readHeader input with
  | Announced len rest => readHeader (input ++ t) = Announced len (rest ++ t)
  | Malformed => readHeader (input ++ t) = Malformed
  | NoHeader => True
  end.
Proof.
  unfold readHeader, indexOf.
  destruct (find TWO_CRLF input) as [i|] eqn:Ef; [|exact I].
  rewrite (find_app _ _ t Ef).
  destruct (Z.of_nat i <=? 0)%Z; [exact I|].
  apply find_length in Ef. change (List.length TWO_CRLF) with 4 in Ef.
  change (jslength TWO_CRLF) with 4%Z.
  unfold substr0, substrFrom. rewrite Nat2Z.id.
  rewrite firstn_app. replace (i - List.length input) with 0 by lia.
  cbn [firstn]. rewrite app_nil_r.
  destruct (match_CONTENT_LENGTH_PATTERN (firstn i input)); [|reflexivity].
  f_equal. rewrite skipn_app.
  replace (Z.to_nat (Z.of_nat i + 4) - List.length input) with 0 by lia.
  reflexivity.
Qed.

(** More fuel than the buffer is long changes nothing. *)
Lemma payloadOrWait_ext (c1 c2 : JSString -> Deframing) input len :
  (0 <= len)%Z ->
  (forall rest, List.length rest < List.length input -> c1 rest = c2 rest) ->
  payloadOrWait c1 input len = payloadOrWait c2 input len.
Proof.
  intros Hlen H. unfold payloadOrWait.
  destruct ((len =? 0) || (jslength input <? len))%Z eqn:E; [reflexivity|].
  apply orb_false_iff in E. destruct E as [Ez El].
  apply Z.eqb_neq in Ez. apply Z.ltb_ge in El. unfold jslength in El.
  f_equal. apply H. unfold substrFrom. rewrite length_skipn. lia.
Qed.

Lemma deframe_fuel fuel : forall input len,
  (0 <= len)%Z ->
  List.length input < fuel ->
  deframe (S fuel) input len = deframe fuel input len.
Proof.
  induction fuel as [|fuel IH]; intros input len Hlen Hfuel; [lia|].
  remember (S fuel) as fuel1. cbn [deframe]. subst fuel1. cbn [deframe].
  assert (Hc : forall input' len', (0 <= len')%Z -> List.length input' <= List.length input ->
               payloadOrWait (fun rest => deframe (S fuel) rest 0%Z) input' len'
               = payloadOrWait (fun rest => deframe fuel rest 0%Z) input' len').
  { intros input' len' Hlen' Hle. apply payloadOrWait_ext; [exact Hlen'|].
    intros rest Hrest. apply IH; lia. }
  destruct (len =? 0)%Z.
  - destruct (readHeader input) as [| |len' rest] eqn:Er.
    + apply Hc; [exact Hlen | lia].
    + reflexivity.
    + apply readHeader_shorter in Er. destruct Er as [Hr Hl]. f_equal. apply Hc; [exact Hl | lia].
  - apply Hc; [exact Hlen | lia].
Qed.

Lemma deframe_enough fuel input len :
  (0 <= len)%Z ->
  List.length input < fuel ->
  deframe fuel input len = deframing input len.
Proof.
  intros Hlen H. unfold deframing. induction fuel as [|fuel IH]; [lia|].
  destruct (Nat.eq_dec fuel (List.length input)) as [->|Hne]; [reflexivity|].
  rewrite deframe_fuel by (assumption || lia). apply IH. lia.
Qed.

(** [deframing] unfolds like the loop. *)
Lemma deframing_eq input len :
  (0 <= len)%Z ->
  deframing input len =
  if (len =? 0)%Z then
    match readHeader input with
    | NoHeader => Wait input len
    | Malformed => Bad
    | Announced len' rest =>
      Header len' rest (payloadOrWait (fun rest' => deframing rest' 0%Z) rest len')
    end
  else payloadOrWait (fun rest' => deframing rest' 0%Z) input len.
Proof.
  intros Hlen. unfold deframing at 1. cbn [deframe].
  assert (Hc : forall input' len', (0 <= len')%Z -> List.length input' <= List.length input ->
               payloadOrWait (fun rest => deframe (List.length input) rest 0%Z) input' len'
               = payloadOrWait (fun rest => deframing rest 0%Z) input' len').
  { intros input' len' Hlen' Hle. apply payloadOrWait_ext; [exact Hlen'|].
    intros rest Hrest. apply deframe_enough; lia. }
  destruct (len =? 0)%Z eqn:Ez.
  - destruct (readHeader input) as [| |len' rest] eqn:Er.
    + unfold payloadOrWait. now rewrite Ez.
    + reflexivity.
    + apply readHeader_shorter in Er. destruct Er as [Hr Hl]. f_equal.
      apply Hc; [exact Hl | lia].
  - apply Hc; [exact Hlen | lia].
Qed.

Lemma continues_header t len rest1 rest d1 d :
  (0 < len)%Z -> continues t d1 d ->
  continues t (Header len rest1 d1) (Header len rest d).
Proof.
  intros Hlen [Hp H]. split; [split; assumption|]. cbn [ending payloads]. exact H.
Qed.

Lemma continues_payload t message rest1 rest d1 d :
  continues t d1 d ->
  continues t (Payload message rest1 d1) (Payload message rest d).
Proof.
  intros [Hp H]. split; [exact Hp|]. cbn [ending payloads].
  destruct (ending d1) as [[input len]|].
  - destruct H as (H1 & H2 & H3 & H4 & H5). repeat split; try assumption.
    now rewrite H4.
  - destruct H as [H1 H2]. split; [now rewrite H1 | exact H2].
Qed.

(** Cutting the input anywhere: the first piece is deframed as far as it
    goes, and the rest continues from what is left. *)
Lemma deframing_app (t : JSString) (n : nat) : forall input len,
  List.length input <= n ->
  (0 <= len)%Z ->
  positive (deframing (input ++ t) len) ->
  continues t (deframing input len) (deframing (input ++ t) len).
Proof.
  induction n as [|n IH]; intros input len Hn Hlen Hpos.
  - (* the empty buffer *)
    destruct input; [|cbn in Hn; lia]. cbn [app] in *.
    assert (He : deframing [] len = Wait [] len).
    { rewrite deframing_eq by exact Hlen. unfold payloadOrWait, jslength. cbn [List.length].
      destruct (len =? 0)%Z eqn:Ez; [reflexivity|].
      apply Z.eqb_neq in Ez. replace (Z.of_nat 0 <? len)%Z with true; [reflexivity|].
      symmetry. apply Z.ltb_lt. lia. }
    rewrite He. split; [exact I|]. cbn [ending payloads app].
    repeat split; try assumption.
  - assert (Hpw : forall rest L,
               List.length rest <= S n -> (0 < L)%Z ->
               positive (payloadOrWait (fun r => deframing r 0%Z) (rest ++ t) L) ->
               continues t (payloadOrWait (fun r => deframing r 0%Z) rest L)
                         (payloadOrWait (fun r => deframing r 0%Z) (rest ++ t) L)).
    { intros rest L Hrest HL Hp.
      assert (HLz : (L =? 0)%Z = false) by (apply Z.eqb_neq; lia).
      unfold payloadOrWait in *. rewrite HLz in *. cbn [orb] in *.
      destruct (jslength rest <? L)%Z eqn:Eshort.
      - split; [exact I|]. cbn [ending payloads app].
        assert (Hd : forall x, deframing x L
                               = if (jslength x <? L)%Z then Wait x L
                                 else Payload (substr0 x L) (substrFrom x L)
                                              (deframing (substrFrom x L) 0%Z)).
        { intros x. rewrite deframing_eq by lia. unfold payloadOrWait. now rewrite HLz. }
        rewrite (Hd rest), Eshort, (Hd (rest ++ t)).
        repeat split; try assumption; lia.
      - apply Z.ltb_ge in Eshort. unfold jslength in *.
        replace (Z.of_nat (List.length (rest ++ t)) <? L)%Z with false in *
          by (symmetry; apply Z.ltb_ge; rewrite length_app; lia).
        unfold substr0, substrFrom in *.
        rewrite firstn_app, skipn_app in *.
        replace (Z.to_nat L - List.length rest) with 0 in * by lia.
        cbn [firstn skipn] in *. rewrite app_nil_r in *.
        apply continues_payload. apply IH; [|lia|exact Hp].
        rewrite length_skipn. lia. }
    rewrite (deframing_eq input Hlen). rewrite (deframing_eq (input ++ t) Hlen) in *.
    destruct (len =? 0)%Z eqn:Ez.
    + pose proof (readHeader_app input t) as Happ.
      destruct (readHeader input) as [| |L rest] eqn:Er.
      * split; [exact I|]. cbn [ending payloads app].
        assert (Hd : deframing input len = Wait input len).
        { rewrite deframing_eq by exact Hlen. now rewrite Ez, Er. }
        rewrite (deframing_eq (input ++ t) Hlen), Ez.
        repeat split; try assumption.
      * rewrite Happ. split; [exact I|]. split; reflexivity.
      * rewrite Happ in *. destruct Hpos as [HL Hpos].
        apply readHeader_shorter in Er. destruct Er as [Hr _].
        apply continues_header; [exact HL|]. apply Hpw; [lia | exact HL | exact Hpos].
    + apply Z.eqb_neq in Ez. apply Hpw; [exact Hn | lia | exact Hpos].
Qed.

(** Any cutting of the text into chunks gives the payloads, and leaves
    the fields, of the text read at once - as long as no header
    announces an empty payload. *)
Lemma feeding_chunks (chunks : list JSString) : forall input len,
  (0 <= len)%Z ->
  deframing input len = Wait input len ->
  positive (deframing (input ++ List.concat chunks) len) ->
  feeding chunks input len =
  (payloads (deframing (input ++ List.concat chunks) len),
   ending (deframing (input ++ List.concat chunks) len)).
Proof.
  induction chunks as [|chunk more IH]; intros input len Hlen Hset Hpos.
  - cbn [feeding List.concat]. rewrite app_nil_r, Hset. reflexivity.
  - cbn [feeding List.concat] in *. rewrite app_assoc in *.
    destruct (@deframing_app (List.concat more) (List.length (input ++ chunk))
                             (input ++ chunk) len (le_n _) Hlen Hpos) as [Hp H].
    destruct (ending (deframing (input ++ chunk) len)) as [[input' len']|].
    + destruct H as (H1 & H2 & H3 & H4 & H5).
      rewrite (IH input' len' H1 H2 H3), H4, H5. reflexivity.
    + destruct H as [H1 H2]. now rewrite H1, H2.
Qed.

Lemma Buffer_toString_ascii (chunk : Buffer) :
  is_ascii chunk -> Buffer_toString chunk = map Byte.to_N chunk.
Proof.
  unfold Buffer_toString.
  induction 1 as [|b chunk Hb Hc IH]; [reflexivity|].
  cbn [map utf8_decode]. unfold utf8_lead.
  replace (Byte.to_N b <? 128)%N with true by (symmetry; now apply N.ltb_lt).
  cbn [app flat_map]. rewrite IH. unfold utf16_units.
  replace (Byte.to_N b <? 65536)%N with true by (symmetry; apply N.ltb_lt; lia).
  reflexivity.
Qed.

Lemma Buffer_toString_concat (chunks : list Buffer) :
  Forall is_ascii chunks ->
  Buffer_toString (List.concat chunks) = List.concat (map Buffer_toString chunks).
Proof.
  intros H. rewrite Buffer_toString_ascii.
  - rewrite concat_map. f_equal. apply map_ext_Forall.
    eapply Forall_impl; [|exact H]. intros c Hc. symmetry. now apply Buffer_toString_ascii.
  - unfold is_ascii. now apply Forall_concat.
Qed.

(** Chunks of ASCII bytes: however the bytes are cut, the client loop
    finds the payloads of the single read and leaves the same fields,
    as long as no header announces an empty payload. *)
Theorem ascii_chunks_independent (chunks : list Buffer) :
  Forall is_ascii chunks ->
  positive (deframing (Buffer_toString (List.concat chunks)) 0) ->
  feeding (map Buffer_toString chunks) [] 0 = feeding [Buffer_toString (List.concat chunks)] [] 0.
Proof.
  intros Hascii Hpos.
  rewrite (@feeding_chunks (map Buffer_toString chunks) [] 0%Z); try reflexivity; try lia.
  - rewrite (@feeding_chunks [Buffer_toString (List.concat chunks)] [] 0%Z);
      try reflexivity; try lia.
    + cbn [List.concat app]. rewrite app_nil_r.
      now rewrite Buffer_toString_concat.
    + cbn [List.concat app]. now rewrite app_nil_r.
  - cbn [app]. now rewrite <- Buffer_toString_concat.
Qed.

Section Ending.

Context {R : Runtime}.

(** When the loop returns, the two fields are the ones [deframe] ends
    with. *)
Lemma clientLoop_ending fuel : forall p p' out,
  clientLoop fuel p = Ok tt p' out ->
  ending (deframe fuel (currentInputData (wrapper p)) (currentContentLength (wrapper p)))
  = Some (framing p').
Proof.
  induction fuel as [|fuel IH]; intros p p' out H.
  - cbv [clientLoop ret] in H. injection H as <- _. reflexivity.
  - rewrite clientLoop_exec in H. cbn [deframe] in *.
    assert (Hpw : forall q q' o,
               exec (payloadOrWait (fun rest => deframe fuel rest 0%Z)
                                   (currentInputData (wrapper q))
                                   (currentContentLength (wrapper q))) q = Ok tt q' o ->
               ending (payloadOrWait (fun rest => deframe fuel rest 0%Z)
                                     (currentInputData (wrapper q))
                                     (currentContentLength (wrapper q)))
               = Some (framing q')).
    { intros q q' o Hq. unfold payloadOrWait in Hq |- *.
      destruct ((currentContentLength (wrapper q) =? 0)
                || (jslength (currentInputData (wrapper q)) <? currentContentLength (wrapper q)))%Z.
      - cbv [exec ret] in Hq. injection Hq as <- _. reflexivity.
      - cbn [exec ending] in Hq |- *.
        destruct (JSON_parse _) as [text|requestMsg]; [discriminate|].
        apply bind_inv_ok in Hq. destruct Hq as ([] & q2 & o1 & o2 & Hd & Hq & _).
        apply bind_inv_ok in Hq. destruct Hq as ([] & q3 & o3 & o4 & Hu1 & Hq & _).
        apply bind_inv_ok in Hq. destruct Hq as ([] & q4 & o5 & o6 & Hu2 & Hq & _).
        cbv [update] in Hu1, Hu2. injection Hu1 as <- _. injection Hu2 as <- _.
        pose proof (dispatch_framing _ _ Hd) as Hf. unfold framing in Hf.
        injection Hf as Hf1 Hf2.
        match type of Hq with
        | exec _ ?Q = Ok _ _ ?o' =>
          pose proof (IH Q q' o') as IHq; rewrite clientLoop_exec in IHq;
            specialize (IHq Hq)
        end.
        cbn [wrapper with_wrapper currentInputData currentContentLength
             set_currentInputData set_currentContentLength] in IHq.
        exact IHq. }
    destruct (currentContentLength (wrapper p) =? 0)%Z.
    + destruct (readHeader (currentInputData (wrapper p))) as [| |len rest] eqn:Er.
      * now apply Hpw in H.
      * discriminate.
      * cbn [exec ending] in *.
        apply bind_inv_ok in H. destruct H as ([] & q1 & o1 & o2 & Hu1 & H & _).
        apply bind_inv_ok in H. destruct H as ([] & q2 & o3 & o4 & Hu2 & H & _).
        apply bind_inv_ok in H. destruct H as (n & q3 & o5 & o6 & Hu3 & H & _).
        cbv [update] in Hu1, Hu2. rewrite nextSequenceNumber_eq in Hu3.
        injection Hu1 as <- _. injection Hu2 as <- _. injection Hu3 as _ <- _.
        match type of H with
        | exec _ ?Q = Ok _ _ ?o' => exact (Hpw Q p' o' H)
        end.
    + now apply Hpw in H.
Qed.

Lemma processClientMessage_ending chunk p p' out :
  processClientMessage chunk p = Ok tt p' out ->
  ending (deframing (currentInputData (wrapper p) ++ Buffer_toString chunk)
                    (currentContentLength (wrapper p)))
  = Some (framing p').
Proof.
  unfold processClientMessage. intros H.
  apply bind_inv_ok in H. destruct H as ([] & q1 & o1 & o2 & Hu & H & _).
  injection Hu as <- _. rewrite bind_this in H.
  apply clientLoop_ending in H. exact H.
Qed.

End Ending.

(** Two frames cut into three chunks. *)
Example ascii_chunks_independent_example :
  let whole := frame (request "initialize" 1) ++ frame (request "threads" 2) in
  let chunks := [firstn 10 whole; firstn 40 (skipn 10 whole); skipn 50 whole] in
  Forall is_ascii chunks /\
  positive (deframing (Buffer_toString (List.concat chunks)) 0) /\
  feeding (map Buffer_toString chunks) [] 0 =
  ([Mini.stringify (request "initialize" 1); Mini.stringify (request "threads" 2)],
   Some ([], 0%Z)).
Proof.
  intros whole chunks.
  assert (Ha : Forall is_ascii chunks).
  { repeat constructor; vm_compute; reflexivity. }
  assert (Hp : positive (deframing (Buffer_toString (List.concat chunks)) 0)).
  { vm_compute. repeat split. }
  split; [exact Ha|]. split; [exact Hp|].
  rewrite (ascii_chunks_independent Ha Hp). vm_compute. reflexivity.
Qed.

(** * Frames and chunks, routing, settings

    What follows goes beyond single handlers: how
    [processClientMessage] and [processDebuggerMessage] treat a stream
    that arrives in pieces, what they do at the edges of their input,
    where requests go, and how src/Config.ts splits the client
    command. *)

(** ** Decimal numerals *)

Lemma parse_uint (d : Decimal.uint) : forall acc,
  fold_left (fun a u => (a * 10 + (Z.of_N u - 48))%Z)
            (lit (NilEmpty.string_of_uint d)) (Z.of_nat acc)
  = Z.of_nat (Nat.of_uint_acc d acc).
Proof.
  induction d; intros acc; cbn [NilEmpty.string_of_uint lit fold_left Nat.of_uint_acc];
    [reflexivity|..];
    rewrite <- IHd; f_equal; rewrite Nat.tail_mul_spec;
    cbn [N_of_ascii N_of_digits]; lia.
Qed.

Lemma parseDigits_decimal (n : nat) : parseDigits (decimal n) = Z.of_nat n.
Proof.
  unfold parseDigits, decimal.
  rewrite <- (Unsigned.of_to n) at 2. unfold Nat.of_uint.
  generalize (Nat.to_uint n). intros d.
  destruct d; try apply (parse_uint _ 0). reflexivity.
Qed.

Lemma uint_digits (d : Decimal.uint) :
  Forall (fun u => is_digit u = true) (lit (NilEmpty.string_of_uint d)).
Proof. induction d; cbn [NilEmpty.string_of_uint lit]; constructor; auto. Qed.

Lemma decimal_digits (n : nat) : Forall (fun u => is_digit u = true) (decimal n).
Proof.
  unfold decimal. destruct (Nat.to_uint n); try apply uint_digits.
  repeat constructor.
Qed.

Lemma decimal_nonempty (n : nat) : decimal n <> [].
Proof. unfold decimal. destruct (Nat.to_uint n); discriminate. Qed.

Lemma take_digits_all (ds : JSString) :
  Forall (fun u => is_digit u = true) ds -> take_digits ds = ds.
Proof. induction 1 as [|u ds Hu _ IH]; cbn; [reflexivity|]. now rewrite Hu, IH. Qed.

(** ** Finding the end of the header *)

Lemma find_here (q s : JSString) : startsWith q s = true -> find q s = Some 0.
Proof. intros H. destruct s; cbn [find]; now rewrite H. Qed.

Lemma find_first (q pre rest : JSString) x :
  hd_error q = Some x ->
  Forall (fun u => u <> x) pre ->
  find q (pre ++ q ++ rest) = Some (List.length pre).
Proof.
  intros Hq H. induction H as [|u pre Hu _ IH].
  - cbn [app List.length]. apply find_here, startsWith_app.
  - destruct q as [|y q]; [discriminate|]. injection Hq as ->.
    cbn [app find startsWith List.length].
    replace (N.eqb x u) with false by (symmetry; apply N.eqb_neq; congruence).
    cbn [andb]. cbn [app] in IH. now rewrite IH.
Qed.

Lemma match_here_found (s ds : JSString) :
  match_here s = Some ds -> match_CONTENT_LENGTH_PATTERN s = Some ds.
Proof. intros H. destruct s; cbn [match_CONTENT_LENGTH_PATTERN]; now rewrite H. Qed.

Lemma digits_no_CR (ds : JSString) :
  Forall (fun u => is_digit u = true) ds -> Forall (fun u => u <> CR) ds.
Proof.
  intros H. eapply Forall_impl; [|exact H]. cbv beta. intros u Hu ->. discriminate.
Qed.

(** The header that [framed] writes is the header [readHeader] reads. *)
Lemma readHeader_framed (payload rest : JSString) :
  readHeader (framed payload ++ rest)
  = Announced (jslength payload) (payload ++ rest).
Proof.
  unfold framed, readHeader, indexOf.
  set (ds := decimal (List.length payload)).
  set (pre := lit "Content-Length: " ++ ds).
  assert (Hin : (lit "Content-Length: " ++ ds ++ TWO_CRLF ++ payload) ++ rest
                = pre ++ TWO_CRLF ++ payload ++ rest).
  { unfold pre. now rewrite <- !app_assoc. }
  rewrite Hin.
  assert (Hpre : Forall (fun u => u <> CR) pre).
  { unfold pre. apply Forall_app. split.
    - repeat constructor; discriminate.
    - apply digits_no_CR, decimal_digits. }
  rewrite (@find_first TWO_CRLF pre (payload ++ rest) CR eq_refl Hpre).
  assert (Hlen : List.length pre = 16 + List.length ds).
  { unfold pre. now rewrite length_app. }
  replace (Z.of_nat (List.length pre) <=? 0)%Z with false
    by (symmetry; apply Z.leb_gt; lia).
  unfold substr0, substrFrom. rewrite Nat2Z.id.
  rewrite firstn_app, firstn_all, Nat.sub_diag. cbn [firstn]. rewrite app_nil_r.
  assert (Hm : match_CONTENT_LENGTH_PATTERN pre = Some ds).
  { apply match_here_found. unfold match_here, pre.
    rewrite startsWith_app.
    change (skipn 16 (lit "Content-Length: " ++ ds)) with ds.
    rewrite take_digits_all by apply decimal_digits.
    destruct ds eqn:E; [now apply decimal_nonempty in E | reflexivity]. }
  rewrite Hm. unfold ds at 1. rewrite parseDigits_decimal. f_equal.
  change (jslength TWO_CRLF) with 4%Z.
  replace (Z.to_nat (Z.of_nat (List.length pre) + 4)) with (List.length pre + 4) by lia.
  rewrite skipn_app, skipn_all2 by lia.
  replace (List.length pre + 4 - List.length pre) with 4 by lia. reflexivity.
Qed.

(** ** The handlers of requests do not look at the framing fields *)

Section Oblivious.

Context {R : Runtime}.

Lemma refit_framing p : refit (framing p) p = p.
Proof. now destruct p as [[] ? ? ?]. Qed.

Lemma oblivious_bind {A B} (m : M A) (k : A -> M B) :
  oblivious m -> (forall a, oblivious (k a)) -> oblivious (bind m k).
Proof.
  intros Hm Hk f p. unfold bind. rewrite Hm.
  destruct (m p) as [a p1 o1| |]; cbn [refitted]; try reflexivity.
  rewrite Hk. now destruct (k a p1).
Qed.

Lemma oblivious_ret {A} (a : A) : oblivious (ret a).
Proof. intros f p. reflexivity. Qed.

Lemma oblivious_throw {A} e : oblivious (@throw A e).
Proof. intros f p. reflexivity. Qed.

Lemma oblivious_exit {A} c : oblivious (@exit A c).
Proof. intros f p. reflexivity. Qed.

Lemma oblivious_emit out : oblivious (emit out).
Proof. intros f p. reflexivity. Qed.

Lemma oblivious_writeResponseMessage message : oblivious (writeResponseMessage message).
Proof. intros f p. reflexivity. Qed.

Lemma oblivious_launchTarget launchMessage : oblivious (launchTarget launchMessage).
Proof.
  intros f p.
  destruct (spawn_cwd (orEmpty (prop launchMessage "arguments"))) as [cwd|] eqn:Hc.
  2:{ unfold launchTarget. rewrite Hc. reflexivity. }
  destruct (spawn_stdio_cases (orEmpty (prop launchMessage "arguments"))) as [Hs|Hs].
  - rewrite !(launchTarget_noDebug _ _ Hc Hs). reflexivity.
  - rewrite !(launchTarget_eq _ _ Hc Hs). reflexivity.
Qed.

Lemma oblivious_attachTarget attachMessage retries : oblivious (attachTarget attachMessage retries).
Proof.
  intros f p. unfold attachTarget.
  destruct (attachPort attachMessage) as [port|]; [|reflexivity].
  destruct ((0 <=? port) && (port <? 65536))%Z; reflexivity.
Qed.

Lemma oblivious_handleWrapperRequest requestMsg : oblivious (handleWrapperRequest requestMsg).
Proof.
  assert (Ho : oblivious (w <- this ;;
                          if negb (debugging w) then
                            update (fun w => set_bufferedRequests
                                               (bufferedRequests w ++ [requestMsg]) w) ;;
                            ret true
                          else ret false)).
  { intros f p. rewrite !bind_this. cbn [refit with_wrapper wrapper debugging
                                          set_currentInputData set_currentContentLength].
    destruct (debugging (wrapper p)); reflexivity. }
  unfold handleWrapperRequest. cbv zeta.
  destruct requestMsg; try apply oblivious_throw;
    (destruct (prop _ "command") as [[| | |command| |]|]; try exact Ho).
  all: destruct (jseqb command (lit "disconnect")).
  all: try (apply oblivious_bind;
            [apply oblivious_writeResponseMessage | intros; apply oblivious_exit]).
  all: destruct (jseqb command (lit "launch")).
  all: try (apply oblivious_bind; [apply oblivious_launchTarget | intros; apply oblivious_ret]).
  all: destruct (jseqb command (lit "attach")).
  all: try (apply oblivious_bind; [apply oblivious_attachTarget | intros; apply oblivious_ret]).
  all: exact Ho.
Qed.

Lemma oblivious_translateNuclideRequest requestMsg :
  oblivious (translateNuclideRequest requestMsg).
Proof.
  intros f p. unfold translateNuclideRequest.
  destruct requestMsg as [| | | | |fields]; try reflexivity.
  destruct (lookup (lit "command") fields) as [c|]; [|reflexivity].
  destruct c; try reflexivity; try (destruct (truthy _); reflexivity).
  destruct (truthy (JStr s) && startsWith (lit "nuclide_") s); reflexivity.
Qed.

Lemma oblivious_dispatch requestMsg : oblivious (dispatch requestMsg).
Proof.
  unfold dispatch. apply oblivious_bind; [apply oblivious_handleWrapperRequest|].
  intros [|]; cbn [negb]; [apply oblivious_ret|].
  intros f p. rewrite !bind_this.
  cbn [refit with_wrapper wrapper debuggerWriteCallback
       set_currentInputData set_currentContentLength].
  destruct (debuggerWriteCallback (wrapper p)) as [callback|]; [|reflexivity].
  apply (@oblivious_bind _ _ (translateNuclideRequest requestMsg) (call callback)).
  - apply oblivious_translateNuclideRequest.
  - intros data. apply oblivious_emit.
Qed.

End Oblivious.

(** ** Complete frames *)

Section Frames.

Context {R : Runtime}.

Lemma bind_update {A} g (k : unit -> M A) q :
  bind (update g) k q = k tt (with_wrapper (g (wrapper q)) q).
Proof.
  rewrite (@bind_ok _ _ (update g) k q tt (with_wrapper (g (wrapper q)) q) []) by reflexivity.
  apply prepend_nil.
Qed.

Lemma bind_next {A} (k : Z -> M A) q :
  bind nextSequenceNumber k q = k (increment (sequenceNumber (wrapper q))) (bump q).
Proof. rewrite (bind_ok _ _ _ (nextSequenceNumber_eq q)). apply prepend_nil. Qed.

Lemma bind_congr {A B} (m m' : M A) (k : A -> M B) p p' :
  m p = m' p' -> bind m k p = bind m' k p'.
Proof. intros H. unfold bind. now rewrite H. Qed.

Lemma bind_ext_ok {A B} (m : M A) (f g : A -> M B) p :
  (forall a q out, m p = Ok a q out -> f a q = g a q) -> bind m f p = bind m g p.
Proof.
  intros H. unfold bind. destruct (m p) as [a p1 o1| |]; try reflexivity.
  now rewrite (H a p1 o1 eq_refl).
Qed.

Lemma bind_ret_r (m : M unit) p : bind m (fun _ => ret tt) p = m p.
Proof.
  unfold bind, ret. destruct (m p) as [[] p1 o1| |]; try reflexivity.
  now rewrite app_nil_r.
Qed.

Lemma bind_oblivious {A B} (m : M A) (k : A -> M B) f p :
  oblivious m -> bind m k (refit f p) = bind m (fun a q => k a (refit f q)) p.
Proof. intros Hm. unfold bind. rewrite Hm. now destruct (m p). Qed.

Lemma bind_refitted {A B} (m : M A) (k : A -> M B) f p :
  bind m (fun a q => refitted f (k a q)) p = refitted f (bind m k p).
Proof.
  unfold bind. destruct (m p) as [a p1 o1| |]; try reflexivity.
  now destruct (k a p1).
Qed.

Lemma exec_header L rest next f p :
  resume (Header L rest next) f p = resume next (rest, L) (bump p).
Proof.
  unfold resume. cbn [exec]. rewrite !bind_update, bind_next. reflexivity.
Qed.

Lemma exec_payload message rest next f p requestMsg :
  JSON_parse message = Value requestMsg ->
  resume (Payload message rest next) f p
  = bind (dispatch requestMsg) (fun _ => resume next (rest, 0%Z)) p.
Proof.
  intros H. unfold resume at 1. cbn [exec]. rewrite H.
  rewrite bind_oblivious by apply oblivious_dispatch.
  apply bind_ext. intros _ q. rewrite !bind_update. reflexivity.
Qed.

Lemma exec_payload_bad message rest next f p text :
  JSON_parse message = SyntaxError text ->
  resume (Payload message rest next) f p = Crashed (JSONError text) [].
Proof. intros H. unfold resume. cbn [exec]. now rewrite H. Qed.

Lemma processClientMessage_feed chunk p :
  processClientMessage chunk p = feed (Buffer_toString chunk) p.
Proof.
  rewrite processClientMessage_exec. unfold feed, resume. f_equal.
Qed.

Lemma deframing_framed (payload rest : JSString) :
  payload <> [] ->
  deframing (framed payload ++ rest) 0
  = Header (jslength payload) (payload ++ rest) (Payload payload rest (deframing rest 0)).
Proof.
  intros Hne. rewrite deframing_eq by lia. cbn [Z.eqb]. rewrite readHeader_framed.
  f_equal. unfold payloadOrWait, jslength.
  replace (Z.of_nat (List.length payload) =? 0)%Z with false
    by (symmetry; apply Z.eqb_neq; destruct payload; [congruence | cbn; lia]).
  replace (Z.of_nat (List.length (payload ++ rest)) <? Z.of_nat (List.length payload))%Z
    with false by (symmetry; apply Z.ltb_ge; rewrite length_app; lia).
  cbn [orb]. unfold substr0, substrFrom. rewrite Nat2Z.id.
  rewrite firstn_app, firstn_all, Nat.sub_diag, skipn_app, skipn_all, Nat.sub_diag.
  cbn [firstn skipn app]. now rewrite app_nil_r.
Qed.

(** One frame at the head of the buffer. *)
Lemma exec_framed payload rest f p :
  payload <> [] ->
  resume (deframing (framed payload ++ rest) 0) f p
  = bind (handleFrame payload) (fun _ => resume (deframing rest 0) (rest, 0%Z)) p.
Proof.
  intros Hne. rewrite deframing_framed by exact Hne. rewrite exec_header.
  unfold handleFrame. rewrite bind_assoc, bind_next.
  destruct (JSON_parse payload) as [text|requestMsg] eqn:Hp.
  - erewrite exec_payload_bad by exact Hp. reflexivity.
  - erewrite exec_payload by exact Hp. reflexivity.
Qed.

Lemma frames_exec payloads :
  Forall (fun payload => payload <> []) payloads ->
  forall p,
    resume (deframing (flat_map framed payloads) 0) (flat_map framed payloads, 0%Z) p
    = refitted ([], 0%Z) (forEach payloads handleFrame p).
Proof.
  induction 1 as [|payload payloads Hne _ IH]; intros p; [reflexivity|].
  cbn [flat_map forEach]. rewrite exec_framed by exact Hne.
  rewrite <- bind_refitted. apply bind_ext. intros _ q. apply IH.
Qed.

Lemma handleFrame_framing payload p a p' out :
  handleFrame payload p = Ok a p' out -> framing p' = framing p.
Proof.
  unfold handleFrame. rewrite bind_next.
  destruct (JSON_parse payload); [discriminate|].
  intros H. now apply dispatch_framing in H.
Qed.

Lemma forEach_framing {A} (l : list A) (h : A -> M unit) :
  (forall x p a p' out, h x p = Ok a p' out -> framing p' = framing p) ->
  forall p a p' out, forEach l h p = Ok a p' out -> framing p' = framing p.
Proof.
  intros Hh. induction l as [|x l IH]; intros p a p' out H.
  - injection H as _ <- _. reflexivity.
  - cbn [forEach] in H. apply bind_inv_ok in H.
    destruct H as (a1 & p1 & o1 & o2 & H1 & H2 & _).
    apply Hh in H1. apply IH in H2. congruence.
Qed.

Lemma refitted_same {A} (o : Outcome A) f :
  (forall a p out, o = Ok a p out -> framing p = f) -> refitted f o = o.
Proof.
  intros H. destruct o as [a p out| |]; try reflexivity.
  cbn [refitted]. rewrite <- (H a p out eq_refl). now rewrite refit_framing.
Qed.

(** Complete frames in one chunk. *)
Lemma frames_in_one_chunk (chunk : Buffer) (payloads : list JSString) (p : Process) :
  Buffer_toString chunk = flat_map framed payloads ->
  Forall (fun payload => payload <> []) payloads ->
  framing p = ([], 0%Z) ->
  processClientMessage chunk p = forEach payloads handleFrame p.
Proof.
  intros Hchunk Hne Hp. rewrite processClientMessage_feed. unfold feed.
  unfold framing in Hp. injection Hp as Hin Hlen. rewrite Hin, Hlen, Hchunk. cbn [app].
  rewrite frames_exec by exact Hne. apply refitted_same.
  intros a q out H. apply (@forEach_framing _ payloads handleFrame handleFrame_framing) in H.
  rewrite H. unfold framing. now rewrite Hin, Hlen.
Qed.

(** X3.  A chunk that holds complete frames and nothing else, read by
    an adapter whose input buffer is empty: [processClientMessage]
    does for each frame, in the order of the chunk, what [handleFrame]
    does - it takes one value of the counter for the header, parses the
    payload, dispatches the request - and it stops where that stops
    (an exit, an exception); the buffer is empty again afterwards.  The
    length in the header is the length of the payload in code units, as
    the loop counts it, and a payload is not empty. *)
Theorem frames_are_requests (chunk : Buffer) (payloads : list JSString) (p : Process) :
  Buffer_toString chunk = flat_map framed payloads ->
  Forall (fun payload => payload <> []) payloads ->
  framing p = ([], 0%Z) ->
  processClientMessage chunk p = forEach payloads handleFrame p.
Proof. apply frames_in_one_chunk. Qed.

End Frames.

(** Two requests in one chunk. *)
Lemma frames_are_requests_witness :
  let payloads := [Mini.stringify (request "initialize" 1);
                   Mini.stringify (request "threads" 2)] in
  let chunk := ascii_bytes (flat_map framed payloads) in
  Buffer_toString chunk = flat_map framed payloads /\
  Forall (fun payload => payload <> []) payloads /\
  framing boot = ([], 0%Z) /\
  @processClientMessage Mini.runtime chunk boot
  = forEach payloads (@handleFrame Mini.runtime) boot.
Proof.
  intros payloads chunk.
  assert (H1 : Buffer_toString chunk = flat_map framed payloads) by (vm_compute; reflexivity).
  assert (H2 : Forall (fun payload => payload <> []) payloads)
    by (repeat constructor; discriminate).
  split; [exact H1|]. split; [exact H2|]. split; [reflexivity|].
  exact (@frames_are_requests Mini.runtime chunk payloads boot H1 H2 eq_refl).
Defined.

(** ** Chunks of the client *)

Section Chunks.

Context {R : Runtime}.

Lemma resume_wait input len t p :
  deframing input len = Wait input len ->
  bind (resume (deframing input len) (input, len)) (fun _ => feed t) p
  = resume (deframing (input ++ t) len) (input ++ t, len) p.
Proof.
  intros H. rewrite H.
  rewrite (@bind_ok _ _ (resume (Wait input len) (input, len)) _ p tt
                    (refit (input, len) p) []) by reflexivity.
  rewrite prepend_nil. reflexivity.
Qed.

Lemma resume_app (t : JSString) (n : nat) : forall input len p,
  List.length input <= n ->
  (0 <= len)%Z ->
  positive (deframing (input ++ t) len) ->
  resume (deframing (input ++ t) len) (input ++ t, len) p
  = bind (resume (deframing input len) (input, len)) (fun _ => feed t) p.
Proof.
  induction n as [|n IH]; intros input len p Hn Hlen Hpos.
  - destruct input; [|cbn in Hn; lia].
    assert (He : deframing [] len = Wait [] len).
    { rewrite deframing_eq by exact Hlen. unfold payloadOrWait, jslength. cbn [List.length].
      destruct (len =? 0)%Z eqn:Ez; [reflexivity|].
      apply Z.eqb_neq in Ez. replace (Z.of_nat 0 <? len)%Z with true; [reflexivity|].
      symmetry. apply Z.ltb_lt. lia. }
    symmetry. now apply resume_wait.
  - assert (Hpw : forall rest L q,
               List.length rest <= S n -> (0 < L)%Z ->
               positive (payloadOrWait (fun r => deframing r 0%Z) (rest ++ t) L) ->
               resume (payloadOrWait (fun r => deframing r 0%Z) (rest ++ t) L) (rest ++ t, L) q
               = bind (resume (payloadOrWait (fun r => deframing r 0%Z) rest L) (rest, L))
                      (fun _ => feed t) q).
    { intros rest L q Hrest HL Hp.
      assert (HLz : (L =? 0)%Z = false) by (apply Z.eqb_neq; lia).
      assert (Hd : forall x, deframing x L = payloadOrWait (fun r => deframing r 0%Z) x L).
      { intros x. rewrite deframing_eq by lia. now rewrite HLz. }
      destruct (jslength rest <? L)%Z eqn:Eshort.
      - rewrite <- !Hd. symmetry. apply resume_wait.
        rewrite Hd. unfold payloadOrWait. now rewrite HLz, Eshort.
      - unfold payloadOrWait in *. rewrite HLz in *. rewrite Eshort. cbn [orb] in *.
        apply Z.ltb_ge in Eshort. unfold jslength in *.
        replace (Z.of_nat (List.length (rest ++ t)) <? L)%Z with false in *
          by (symmetry; apply Z.ltb_ge; rewrite length_app; lia).
        unfold substr0, substrFrom in *.
        rewrite firstn_app, skipn_app in *.
        replace (Z.to_nat L - List.length rest) with 0 in * by lia.
        cbn [firstn skipn] in *. rewrite app_nil_r in *.
        destruct (JSON_parse (firstn (Z.to_nat L) rest)) as [text|requestMsg] eqn:Hparse.
        + erewrite exec_payload_bad by exact Hparse.
          erewrite bind_crashed; [reflexivity|].
          erewrite exec_payload_bad by exact Hparse. reflexivity.
        + erewrite exec_payload by exact Hparse.
          rewrite (@bind_congr _ _ _ _ _ _ _ (@exec_payload _ _ _ _ (rest, L) q _ Hparse)).
          rewrite bind_assoc. apply bind_ext. intros _ q'.
          apply IH; [rewrite length_skipn; lia | lia | exact Hp]. }
    destruct (len =? 0)%Z eqn:Ez.
    + pose proof (readHeader_app input t) as Happ.
      destruct (readHeader input) as [| |L rest] eqn:Er.
      * symmetry. apply resume_wait. rewrite deframing_eq by exact Hlen. now rewrite Ez, Er.
      * rewrite (deframing_eq input Hlen), (deframing_eq (input ++ t) Hlen), Ez, Er, Happ.
        reflexivity.
      * rewrite (deframing_eq (input ++ t) Hlen), Ez, Happ in Hpos |- *.
        rewrite (deframing_eq input Hlen), Ez, Er.
        destruct Hpos as [HL Hpos].
        apply readHeader_shorter in Er. destruct Er as [Hr _].
        rewrite exec_header.
        rewrite (@bind_congr _ _ _ _ _ _ _ (@exec_header _ L rest _ (input, len) p)).
        apply Hpw; [lia | exact HL | exact Hpos].
    + apply Z.eqb_neq in Ez.
      rewrite (deframing_eq (input ++ t) Hlen) in Hpos |- *.
      rewrite (deframing_eq input Hlen).
      replace (len =? 0)%Z with false in * by (symmetry; apply Z.eqb_neq; exact Ez).
      apply Hpw; [exact Hn | lia | exact Hpos].
Qed.

Lemma feed_app t1 t2 p :
  (0 <= currentContentLength (wrapper p))%Z ->
  positive (deframing (currentInputData (wrapper p) ++ t1 ++ t2)
                      (currentContentLength (wrapper p))) ->
  feed (t1 ++ t2) p = bind (feed t1) (fun _ => feed t2) p.
Proof.
  intros Hlen Hpos. unfold feed at 1. rewrite app_assoc in *.
  rewrite (@resume_app t2 _ _ _ p (le_n _) Hlen Hpos). reflexivity.
Qed.

Lemma feed_nil p :
  deframing (currentInputData (wrapper p)) (currentContentLength (wrapper p))
  = Wait (currentInputData (wrapper p)) (currentContentLength (wrapper p)) ->
  feed [] p = Ok tt p [].
Proof.
  intros H. unfold feed. rewrite app_nil_r, H. unfold resume. cbn [exec]. unfold ret.
  f_equal. apply (refit_framing p).
Qed.

Lemma feed_ending t p p' out :
  feed t p = Ok tt p' out ->
  ending (deframing (currentInputData (wrapper p) ++ t) (currentContentLength (wrapper p)))
  = Some (framing p').
Proof.
  unfold feed, resume, deframing. intros H.
  set (input := currentInputData (wrapper p) ++ t) in *.
  set (len := currentContentLength (wrapper p)) in *.
  pose proof (clientLoop_exec (S (List.length input)) (refit (input, len) p)) as E.
  change (currentInputData (wrapper (refit (input, len) p))) with input in E.
  change (currentContentLength (wrapper (refit (input, len) p))) with len in E.
  rewrite <- E in H. apply clientLoop_ending in H. exact H.
Qed.

Lemma feed_chunks (chunks : list JSString) : forall p,
  (0 <= currentContentLength (wrapper p))%Z ->
  deframing (currentInputData (wrapper p)) (currentContentLength (wrapper p))
  = Wait (currentInputData (wrapper p)) (currentContentLength (wrapper p)) ->
  positive (deframing (currentInputData (wrapper p) ++ List.concat chunks)
                      (currentContentLength (wrapper p))) ->
  forEach chunks feed p = feed (List.concat chunks) p.
Proof.
  induction chunks as [|chunk more IH]; intros p Hlen Hset Hpos.
  - cbn [forEach List.concat]. now rewrite feed_nil.
  - cbn [forEach List.concat] in *. rewrite feed_app by assumption.
    apply bind_ext_ok. intros [] q out Hq.
    apply feed_ending in Hq. rewrite app_assoc in Hpos.
    destruct (@deframing_app (List.concat more) _ _ _ (le_n _) Hlen Hpos) as [_ H].
    rewrite Hq in H. unfold framing in H. destruct H as (H1 & H2 & H3 & _).
    now apply IH.
Qed.

Lemma forEach_map {A B} (g : A -> B) (h : B -> M unit) (l : list A) p :
  forEach (map g l) h p = forEach l (fun x => h (g x)) p.
Proof.
  revert p. induction l as [|x l IH]; intros p; [reflexivity|].
  cbn [map forEach]. apply bind_ext. intros _ q. apply IH.
Qed.

Lemma forEach_ext {A} (h h' : A -> M unit) (l : list A) p :
  (forall x q, h x q = h' x q) -> forEach l h p = forEach l h' p.
Proof.
  intros H. revert p. induction l as [|x l IH]; intros p; [reflexivity|].
  cbn [forEach]. unfold bind. rewrite H. destruct (h' x p); try reflexivity. now rewrite IH.
Qed.

(** Chunks, and their concatenation read at once. *)
Lemma chunks_as_one_read (chunks : list Buffer) (p : Process) :
  Forall is_ascii chunks ->
  framing p = ([], 0%Z) ->
  positive (deframing (Buffer_toString (List.concat chunks)) 0) ->
  forEach chunks processClientMessage p = processClientMessage (List.concat chunks) p.
Proof.
  intros Hascii Hp Hpos. unfold framing in Hp. injection Hp as Hin Hlen.
  rewrite processClientMessage_feed, Buffer_toString_concat by exact Hascii.
  rewrite <- feed_chunks.
  - rewrite forEach_map. apply forEach_ext. intros c q. apply processClientMessage_feed.
  - rewrite Hlen. lia.
  - now rewrite Hin, Hlen.
  - rewrite Hin, Hlen. cbn [app]. now rewrite <- Buffer_toString_concat.
Qed.

(** X2.  The bytes of the client may arrive cut anywhere.  For chunks
    of ASCII bytes, read by an adapter whose input buffer is empty,
    handling the chunks one after the other is the same computation as
    handling their concatenation in one call: the same writes, the same
    exit or exception, the same final state.  The condition is that no
    header met on the way announces a length of 0 ([positive]); after
    such a header the loop stops until the next chunk comes, whatever
    the buffer holds. *)
Theorem processClientMessage_chunks (chunks : list Buffer) (p : Process) :
  Forall is_ascii chunks ->
  framing p = ([], 0%Z) ->
  positive (deframing (Buffer_toString (List.concat chunks)) 0) ->
  forEach chunks processClientMessage p = processClientMessage (List.concat chunks) p.
Proof. apply chunks_as_one_read. Qed.

End Chunks.

(** Two frames cut into three chunks. *)
Lemma processClientMessage_chunks_witness :
  let whole := frame (request "initialize" 1) ++ frame (request "threads" 2) in
  let chunks := [firstn 10 whole; firstn 40 (skipn 10 whole); skipn 50 whole] in
  Forall is_ascii chunks /\
  framing boot = ([], 0%Z) /\
  positive (deframing (Buffer_toString (List.concat chunks)) 0) /\
  forEach chunks (@processClientMessage Mini.runtime) boot
  = @processClientMessage Mini.runtime (List.concat chunks) boot.
Proof.
  intros whole chunks.
  assert (Ha : Forall is_ascii chunks) by (repeat constructor; vm_compute; reflexivity).
  assert (Hp : positive (deframing (Buffer_toString (List.concat chunks)) 0))
    by (vm_compute; repeat split).
  split; [exact Ha|]. split; [reflexivity|]. split; [exact Hp|].
  exact (@processClientMessage_chunks Mini.runtime chunks boot Ha eq_refl Hp).
Defined.

(** ** Chunks of the target *)

Section TargetChunks.

Context {R : Runtime}.

Lemma deliver_rebuffer message s p :
  deliver message (rebuffer s p)
  = match deliver message p with
    | Ok a q out => Ok a (rebuffer s q) out
    | Exited c out => Exited c out
    | Crashed e out => Crashed e out
    end.
Proof.
  unfold deliver. destruct (JSON_parse message) as [text|obj]; [reflexivity|].
  destruct obj; reflexivity.
Qed.

Lemma processDebuggerMessage_rebuffer chunk p :
  processDebuggerMessage chunk p
  = debuggerLoop (S (List.length (currentOutputData (wrapper p) ++ Buffer_toString chunk)))
                 (rebuffer (currentOutputData (wrapper p) ++ Buffer_toString chunk) p).
Proof. apply processDebuggerMessage_eq. Qed.

Lemma debuggerLoop_stop fuel b p :
  find [NUL] b = None \/ find [NUL] b = Some 0 ->
  debuggerLoop fuel (rebuffer b p) = Ok tt (rebuffer b p) [].
Proof.
  intros H. destruct fuel; [reflexivity|].
  cbn [debuggerLoop]. rewrite bind_this. unfold indexOf.
  cbn [rebuffer with_wrapper wrapper currentOutputData set_currentOutputData].
  destruct H as [-> | ->]; reflexivity.
Qed.

Lemma debuggerLoop_step fuel b p i :
  find [NUL] b = Some (S i) ->
  debuggerLoop (S fuel) (rebuffer b p)
  = bind (deliver (firstn (S i) b))
         (fun _ q => debuggerLoop fuel (rebuffer (skipn (S (S i)) b) q)) p.
Proof.
  intros Ef. cbn [debuggerLoop]. rewrite bind_this. unfold indexOf.
  cbn [rebuffer with_wrapper wrapper currentOutputData set_currentOutputData].
  rewrite Ef. change (Z.of_nat (S i) >? 0)%Z with true. cbv iota.
  unfold substr0, substrFrom. rewrite Nat2Z.id.
  replace (Z.to_nat (Z.of_nat (S i) + 1)) with (S (S i)) by lia.
  fold (rebuffer b p).
  unfold bind at 1. rewrite deliver_rebuffer. unfold bind at 2.
  destruct (deliver (firstn (S i) b) p) as [a q out| |]; try reflexivity.
  rewrite bind_update. reflexivity.
Qed.

(** The loop on a buffer followed by [t] is the loop on the buffer,
    and then the loop on what it left followed by [t]. *)
Lemma debuggerLoop_app (t : JSString) (n : nat) : forall b p,
  List.length b <= n ->
  debuggerLoop (S (List.length (b ++ t))) (rebuffer (b ++ t) p)
  = bind (debuggerLoop (S (List.length b)))
         (fun _ q => debuggerLoop (S (List.length (currentOutputData (wrapper q) ++ t)))
                                  (rebuffer (currentOutputData (wrapper q) ++ t) q))
         (rebuffer b p).
Proof.
  induction n as [|n IH]; intros b p Hn.
  - destruct b; [|cbn in Hn; lia].
    rewrite (@bind_ok _ _ _ _ (rebuffer [] p) tt (rebuffer [] p) []) by reflexivity.
    rewrite prepend_nil. reflexivity.
  - destruct (find [NUL] b) as [[|i]|] eqn:Ef.
    + rewrite (@bind_ok _ _ _ _ (rebuffer b p) tt (rebuffer b p) [])
        by (apply debuggerLoop_stop; now right).
      rewrite prepend_nil. reflexivity.
    + pose proof (find_length _ _ Ef) as Hlen. cbn [List.length] in Hlen.
      pose proof (find_app _ _ t Ef) as Eft.
      rewrite (@debuggerLoop_step (List.length (b ++ t)) (b ++ t) p i Eft).
      rewrite (@bind_congr _ _ _ _ _ _ _ (@debuggerLoop_step (List.length b) b p i Ef)).
      rewrite firstn_app, skipn_app.
      replace (S i - List.length b) with 0 by lia.
      replace (S (S i) - List.length b) with 0 by lia.
      cbn [firstn skipn]. rewrite app_nil_r.
      rewrite bind_assoc. apply bind_ext. intros _ q.
      set (rest := skipn (S (S i)) b).
      assert (Hrest : List.length rest < List.length b).
      { unfold rest. rewrite length_skipn. lia. }
      rewrite (@debuggerLoop_enough _ (List.length (b ++ t)) (rebuffer (rest ++ t) q)).
      2:{ cbn [rebuffer with_wrapper wrapper currentOutputData set_currentOutputData].
          rewrite !length_app. lia. }
      cbn [rebuffer with_wrapper wrapper currentOutputData set_currentOutputData].
      fold (rebuffer (rest ++ t) q).
      rewrite (IH rest q) by lia.
      apply bind_congr.
      symmetry. apply (@debuggerLoop_enough _ (List.length b) (rebuffer rest q)).
      cbn [rebuffer with_wrapper wrapper currentOutputData set_currentOutputData]. lia.
    + rewrite (@bind_ok _ _ _ _ (rebuffer b p) tt (rebuffer b p) [])
        by (apply debuggerLoop_stop; now left).
      rewrite prepend_nil. reflexivity.
Qed.

Lemma processDebuggerMessage_app c1 c2 p :
  Buffer_toString (c1 ++ c2) = Buffer_toString c1 ++ Buffer_toString c2 ->
  processDebuggerMessage (c1 ++ c2) p
  = bind (processDebuggerMessage c1) (fun _ => processDebuggerMessage c2) p.
Proof.
  intros H. rewrite processDebuggerMessage_rebuffer, H, app_assoc.
  rewrite (@debuggerLoop_app (Buffer_toString c2) _ _ p (le_n _)).
  symmetry.
  rewrite (@bind_congr _ _ _ _ _ _ _ (processDebuggerMessage_rebuffer c1 p)).
  apply bind_ext. intros _ q. apply processDebuggerMessage_rebuffer.
Qed.

Lemma Buffer_toString_app c1 c2 :
  is_ascii c1 -> is_ascii c2 ->
  Buffer_toString (c1 ++ c2) = Buffer_toString c1 ++ Buffer_toString c2.
Proof.
  intros H1 H2. rewrite !Buffer_toString_ascii; try assumption.
  - apply map_app.
  - apply Forall_app. now split.
Qed.

(** X4.  The bytes of the target may arrive cut anywhere.  For chunks
    of ASCII bytes and any state of the adapter, handling the chunks one
    after the other is the same computation as handling their
    concatenation in one call: the same messages go to the client with
    the same sequence numbers, the same lines go to stderr, and the
    same text is left in the buffer. *)
Theorem processDebuggerMessage_chunks (chunk : Buffer) (more : list Buffer) (p : Process) :
  Forall is_ascii (chunk :: more) ->
  forEach (chunk :: more) processDebuggerMessage p
  = processDebuggerMessage (List.concat (chunk :: more)) p.
Proof.
  revert chunk p. induction more as [|next more IH]; intros chunk p Hascii.
  - cbn [forEach List.concat]. rewrite app_nil_r. apply bind_ret_r.
  - inversion Hascii as [|? ? Hc Hmore]; subst.
    change (List.concat (chunk :: next :: more)) with (chunk ++ List.concat (next :: more)).
    rewrite processDebuggerMessage_app.
    + change (forEach (chunk :: next :: more) processDebuggerMessage)
        with (processDebuggerMessage chunk ;; forEach (next :: more) processDebuggerMessage).
      apply bind_ext. intros _ q. now apply IH.
    + apply Buffer_toString_app; [exact Hc|]. unfold is_ascii. now apply Forall_concat.
Qed.

Lemma debuggerLoopWithin_eq turns : forall p,
  List.length (currentOutputData (wrapper p)) < turns ->
  debuggerLoopWithin turns p = bind (debuggerLoop turns) (fun _ => ret true) p.
Proof.
  induction turns as [|turns IH]; intros p Hlen; [lia|].
  cbn [debuggerLoopWithin debuggerLoop]. rewrite bind_assoc, !bind_this.
  destruct (indexOf [NUL] (currentOutputData (wrapper p)) >? 0)%Z eqn:Hidx.
  - rewrite !bind_assoc. apply bind_ext. intros _ q.
    rewrite !bind_assoc, !bind_update. apply IH.
    cbn [wrapper with_wrapper currentOutputData set_currentOutputData].
    unfold substrFrom, indexOf in *.
    destruct (find [NUL] (currentOutputData (wrapper p))) as [i|] eqn:Hf; [|discriminate].
    apply find_length in Hf. cbn [List.length] in Hf.
    apply Z.gtb_lt in Hidx. rewrite length_skipn. lia.
  - reflexivity.
Qed.

(** X6.  Whatever the target sends and whatever the state, the loop
    of [processDebuggerMessage] is left through its condition: within
    one turn per code unit of the buffer, plus one, [idx > 0] fails, and
    nothing was thrown and the process has not exited before that.  The
    state and the writes at that point are those of
    [processDebuggerMessage]. *)
Theorem processDebuggerMessage_returns (chunk : Buffer) (p : Process) :
  exists p' out,
    processDebuggerMessage chunk p = Ok tt p' out /\
    forall turns,
      List.length (currentOutputData (wrapper p) ++ Buffer_toString chunk) < turns ->
      debuggerLoopWithin
        turns (rebuffer (currentOutputData (wrapper p) ++ Buffer_toString chunk) p)
      = Ok true p' out.
Proof.
  rewrite processDebuggerMessage_rebuffer.
  destruct (debuggerLoop_ok
              (S (List.length (currentOutputData (wrapper p) ++ Buffer_toString chunk)))
              (rebuffer (currentOutputData (wrapper p) ++ Buffer_toString chunk) p))
    as (p' & out & H).
  exists p', out. split; [exact H|]. intros turns Hturns.
  rewrite debuggerLoopWithin_eq by exact Hturns.
  assert (He : debuggerLoop
                 turns (rebuffer (currentOutputData (wrapper p) ++ Buffer_toString chunk) p)
               = Ok tt p' out).
  { rewrite <- H. now apply debuggerLoop_enough. }
  rewrite (bind_ok _ _ _ He). cbn [ret prepend]. now rewrite app_nil_r.
Qed.

End TargetChunks.

(** Two messages cut into three chunks. *)
Lemma processDebuggerMessage_chunks_witness :
  let whole := terminated (Mini.stringify (event "stopped"))
                 ++ terminated (Mini.stringify (event "exited")) in
  let chunk := firstn 5 whole in
  let more := [firstn 20 (skipn 5 whole); skipn 25 whole] in
  Forall is_ascii (chunk :: more) /\
  forEach (chunk :: more) (@processDebuggerMessage Mini.runtime) boot
  = @processDebuggerMessage Mini.runtime (List.concat (chunk :: more)) boot.
Proof.
  intros whole chunk more.
  assert (Ha : Forall is_ascii (chunk :: more))
    by (repeat constructor; vm_compute; reflexivity).
  split; [exact Ha|].
  exact (@processDebuggerMessage_chunks Mini.runtime chunk more boot Ha).
Defined.

Section TargetMessages.

Context {R : Runtime}.

Lemma bind_rebuffered {A B} (m : M A) (k : A -> M B) s p :
  bind m (fun a q => rebuffered s (k a q)) p = rebuffered s (bind m k p).
Proof.
  unfold bind. destruct (m p) as [a p1 o1| |]; try reflexivity.
  now destruct (k a p1).
Qed.

Lemma deliver_output message p a q out :
  deliver message p = Ok a q out ->
  currentOutputData (wrapper q) = currentOutputData (wrapper p).
Proof.
  unfold deliver. destruct (JSON_parse message) as [text|obj].
  - intros H. injection H as _ <- _. reflexivity.
  - destruct obj; intros H; injection H as _ <- _; reflexivity.
Qed.

Lemma loop_messages (messages : list JSString) :
  Forall (fun message => message <> [] /\ Forall (fun u => u <> NUL) message) messages ->
  forall fuel p,
    List.length (flat_map ended messages) < fuel ->
    debuggerLoop fuel (rebuffer (flat_map ended messages) p)
    = rebuffered [] (forEach messages deliver p).
Proof.
  induction 1 as [|message messages [Hne Hnul] _ IH]; intros fuel p Hfuel.
  - cbn [flat_map forEach]. apply debuggerLoop_stop. now left.
  - cbn [flat_map forEach] in *. unfold ended at 1 in Hfuel. unfold ended at 1.
    rewrite <- app_assoc in *. cbn [app] in *.
    destruct fuel as [|fuel]; [lia|].
    destruct message as [|u message]; [congruence|].
    pose proof (find_nul_after (flat_map ended messages) Hnul) as Ef.
    cbn [List.length] in Ef.
    rewrite (@debuggerLoop_step _ fuel _ p (List.length message) Ef).
    rewrite <- bind_rebuffered.
    replace (firstn (S (List.length message)) ((u :: message) ++ NUL :: flat_map ended messages))
      with (u :: message).
    2:{ change (S (List.length message)) with (List.length (u :: message)).
        rewrite firstn_app, firstn_all, Nat.sub_diag. cbn [firstn]. now rewrite app_nil_r. }
    replace (skipn (S (S (List.length message)))
                   ((u :: message) ++ NUL :: flat_map ended messages))
      with (flat_map ended messages).
    2:{ change (S (S (List.length message))) with (S (List.length (u :: message))).
        rewrite skipn_app, skipn_all2 by (cbn; lia).
        replace (S (List.length (u :: message)) - List.length (u :: message)) with 1 by lia.
        reflexivity. }
    apply bind_ext. intros _ q. apply IH.
    rewrite length_app in Hfuel. cbn [List.length] in Hfuel. lia.
Qed.

Lemma rebuffer_same s p : currentOutputData (wrapper p) = s -> rebuffer s p = p.
Proof. intros <-. now destruct p as [[] ? ? ?]. Qed.

Lemma forEach_output {A} (l : list A) (h : A -> M unit) :
  (forall x p a q out, h x p = Ok a q out ->
                       currentOutputData (wrapper q) = currentOutputData (wrapper p)) ->
  forall p a q out, forEach l h p = Ok a q out ->
                    currentOutputData (wrapper q) = currentOutputData (wrapper p).
Proof.
  intros Hh. induction l as [|x l IH]; intros p a q out H.
  - injection H as _ <- _. reflexivity.
  - cbn [forEach] in H. apply bind_inv_ok in H.
    destruct H as (a1 & p1 & o1 & o2 & H1 & H2 & _).
    apply Hh in H1. apply IH in H2. congruence.
Qed.

(** X5.  A chunk that holds complete messages of the target, each not
    empty and ended by NUL, read with an empty buffer:
    [processDebuggerMessage] does for each message, in the order of the
    chunk, what [deliver] does, and the buffer is empty again
    afterwards.  [deliver] reports a message that is not valid JSON on
    stderr and leaves the counter as it is; every message that parses
    takes the next value of the counter: an object goes to the client
    with that value in [seq], an array goes to the client as it is, and
    for any other value (a number, a string, a boolean, [null]) the
    failed assignment is reported on stderr and nothing goes to the
    client. *)
Theorem target_messages_are_delivered
        (chunk : Buffer) (messages : list JSString) (p : Process) :
  currentOutputData (wrapper p) = [] ->
  Buffer_toString chunk = flat_map ended messages ->
  Forall (fun message => message <> [] /\ Forall (fun u => u <> NUL) message) messages ->
  processDebuggerMessage chunk p = forEach messages deliver p /\
  forall message q,
    let n := increment (sequenceNumber (wrapper q)) in
    deliver message q =
    match JSON_parse message with
    | SyntaxError text => Ok tt q [report text message]
    | Value (JObj fields) =>
      Ok tt (bump q) (frame_of (JSON_stringify (JObj (assign (lit "seq") (JNum n) fields))))
    | Value (JArr items) => Ok tt (bump q) (frame_of (JSON_stringify (JArr items)))
    | Value v => Ok tt (bump q) [report (assignErrorText v) message]
    end.
Proof.
  intros Hbuf Hchunk Hall. split.
  - rewrite processDebuggerMessage_rebuffer, Hbuf, Hchunk. cbn [app].
    rewrite (loop_messages Hall) by lia.
    destruct (forEach messages deliver p) as [a q out| |] eqn:E; try reflexivity.
    cbn [rebuffered]. f_equal. apply rebuffer_same.
    apply (@forEach_output _ messages deliver deliver_output) in E. congruence.
  - intros message q n. unfold deliver.
    destruct (JSON_parse message) as [text|v]; [reflexivity|].
    rewrite bind_next. destruct v; reflexivity.
Qed.

End TargetMessages.

(** A message that is not JSON between two that are. *)
Lemma target_messages_are_delivered_witness :
  let messages := [Mini.stringify (event "stopped"); lit "not-json";
                   Mini.stringify (event "exited")] in
  let chunk := ascii_bytes (flat_map ended messages) in
  currentOutputData (wrapper boot) = [] /\
  Buffer_toString chunk = flat_map ended messages /\
  Forall (fun message => message <> [] /\ Forall (fun u => u <> NUL) message) messages /\
  @processDebuggerMessage Mini.runtime chunk boot
  = forEach messages (@deliver Mini.runtime) boot.
Proof.
  intros messages chunk.
  assert (Ht : Buffer_toString chunk = flat_map ended messages) by (vm_compute; reflexivity).
  assert (Hm : Forall (fun message => message <> [] /\ Forall (fun u => u <> NUL) message)
                      messages).
  { repeat constructor; discriminate. }
  split; [reflexivity|]. split; [exact Ht|]. split; [exact Hm|].
  exact (proj1 (@target_messages_are_delivered Mini.runtime chunk messages boot eq_refl Ht Hm)).
Defined.

(** ** Messages of the target that do not parse (C6) *)

Section Malformed.

Context {R : Runtime}.







End Malformed.




(** ** The edges of the client input *)

Section ClientEdges.

Context {R : Runtime}.

Lemma refit_reinput s p : refit (s, currentContentLength (wrapper p)) p = reinput s p.
Proof. now destruct p as [[] ? ? ?]. Qed.

Lemma readHeader_blank input : startsWith TWO_CRLF input = true -> readHeader input = NoHeader.
Proof. intros H. unfold readHeader, indexOf. now rewrite (find_here _ _ H). Qed.

Lemma feed_blocked t p :
  currentContentLength (wrapper p) = 0%Z ->
  startsWith TWO_CRLF (currentInputData (wrapper p) ++ t) = true ->
  feed t p = Ok tt (reinput (currentInputData (wrapper p) ++ t) p) [].
Proof.
  intros Hlen Hs. unfold feed. rewrite <- refit_reinput, Hlen.
  rewrite deframing_eq by lia. cbn [Z.eqb]. now rewrite (readHeader_blank _ Hs).
Qed.

Lemma blocked_forever (more : list Buffer) : forall p,
  currentContentLength (wrapper p) = 0%Z ->
  startsWith TWO_CRLF (currentInputData (wrapper p)) = true ->
  forEach more processClientMessage p
  = Ok tt (reinput (currentInputData (wrapper p) ++ List.concat (map Buffer_toString more)) p) [].
Proof.
  induction more as [|chunk more IH]; intros p Hlen Hs.
  - cbn [forEach map List.concat]. rewrite app_nil_r. now destruct p as [[] ? ? ?].
  - cbn [forEach map List.concat].
    erewrite bind_ok.
    2:{ rewrite processClientMessage_feed. apply feed_blocked; [exact Hlen|].
        now apply startsWith_app_l. }
    rewrite prepend_nil, IH.
    + cbn [reinput with_wrapper wrapper currentInputData set_currentInputData].
      now rewrite app_assoc.
    + exact Hlen.
    + cbn [reinput with_wrapper wrapper currentInputData set_currentInputData].
      now apply startsWith_app_l.
Qed.

(** X7.  [readContentHeader] returns without a word when the end of
    a header is found at index 0.  So when no payload is expected and
    the input buffer, with the new chunk added, starts with an empty
    line (CR LF CR LF), [processClientMessage] only appends the chunk -
    nothing is parsed, dispatched or written, the counter stays - and
    the same holds for every chunk that follows: no request of the
    client is handled any more. *)
Theorem leading_blank_line_blocks_client (p : Process) (chunk : Buffer) (more : list Buffer) :
  currentContentLength (wrapper p) = 0%Z ->
  startsWith TWO_CRLF (currentInputData (wrapper p) ++ Buffer_toString chunk) = true ->
  forEach (chunk :: more) processClientMessage p
  = Ok tt
       (reinput (currentInputData (wrapper p)
                   ++ List.concat (map Buffer_toString (chunk :: more))) p)
       [].
Proof.
  intros Hlen Hs. cbn [forEach].
  erewrite bind_ok
    by (rewrite processClientMessage_feed; apply feed_blocked; assumption).
  rewrite prepend_nil, blocked_forever; [|exact Hlen|exact Hs].
  cbn [reinput with_wrapper wrapper currentInputData set_currentInputData map List.concat].
  now rewrite app_assoc.
Qed.

Lemma frames_forEach payloads p :
  Forall (fun payload => payload <> []) payloads ->
  framing p = ([], 0%Z) ->
  resume (deframing (flat_map framed payloads) 0) (flat_map framed payloads, 0%Z) p
  = forEach payloads handleFrame p.
Proof.
  intros Hne Hp. rewrite frames_exec by exact Hne. apply refitted_same.
  intros a q out H. apply (@forEach_framing _ payloads handleFrame handleFrame_framing) in H.
  congruence.
Qed.

(** X8.  A frame of length 0 is not a request.  Its header takes one
    value of the counter, nothing is parsed (no exception for the empty
    payload) and nothing is written - but the loop stops there: the
    complete frames behind it in the same chunk stay in the buffer, and
    are handled, in their order and before the frames of the next
    chunk, only when the next chunk arrives. *)
Theorem empty_frame_postpones
        (chunk next : Buffer) (payloads later : list JSString) (p : Process) :
  Buffer_toString chunk = framed [] ++ flat_map framed payloads ->
  Buffer_toString next = flat_map framed later ->
  Forall (fun payload => payload <> []) (payloads ++ later) ->
  framing p = ([], 0%Z) ->
  let waiting := refit (flat_map framed payloads, 0%Z) (bump p) in
  processClientMessage chunk p = Ok tt waiting [] /\
  processClientMessage next waiting = forEach (payloads ++ later) handleFrame (bump p).
Proof.
  intros Hchunk Hnext Hne Hp waiting. unfold framing in Hp. injection Hp as Hin Hlen.
  split.
  - rewrite processClientMessage_feed. unfold feed. rewrite Hin, Hlen, Hchunk. cbn [app].
    rewrite deframing_eq by lia. cbn [Z.eqb].
    rewrite (readHeader_framed [] (flat_map framed payloads)). cbn [app].
    rewrite exec_header. change (jslength []) with 0%Z.
    unfold payloadOrWait. cbn [Z.eqb orb]. reflexivity.
  - rewrite processClientMessage_feed. unfold feed, waiting.
    change (currentInputData (wrapper (refit (flat_map framed payloads, 0%Z) (bump p))))
      with (flat_map framed payloads).
    change (currentContentLength (wrapper (refit (flat_map framed payloads, 0%Z) (bump p))))
      with 0%Z.
    rewrite Hnext, <- flat_map_app.
    change (resume ?d ?f (refit _ ?q)) with (resume d f q).
    apply frames_forEach; [exact Hne|].
    unfold framing. cbn. now rewrite Hin, Hlen.
Qed.

Lemma dispatch_disconnect requestMsg p :
  prop requestMsg "command" = Some (JStr (lit "disconnect")) ->
  dispatch requestMsg p
  = Exited (Some (JNum 0))
           (frame_of (JSON_stringify
                        (response (increment (sequenceNumber (wrapper p)))
                                  (acknowledgement requestMsg)))).
Proof.
  intros H. unfold dispatch, handleWrapperRequest. cbv zeta.
  destruct requestMsg; try discriminate. unfold acknowledgement.
  rewrite H, jseqb_refl. reflexivity.
Qed.

(** X11.  A frame with a disconnect request, at the head of a chunk
    read with an empty buffer, in any state of the adapter (connected
    or not): one response goes to the client - a success that answers
    the request, with the second next value of the counter, the header
    having taken the first - and the process exits with status 0.
    Nothing is written to a target, and what follows the frame in the
    chunk is never looked at. *)
Theorem disconnect_answers_and_exits
        (chunk : Buffer) (payload rest : JSString) (requestMsg : json) (p : Process) :
  Buffer_toString chunk = framed payload ++ rest ->
  payload <> [] ->
  JSON_parse payload = Value requestMsg ->
  prop requestMsg "command" = Some (JStr (lit "disconnect")) ->
  framing p = ([], 0%Z) ->
  processClientMessage chunk p
  = Exited (Some (JNum 0))
           (frame_of (JSON_stringify
                        (response (increment (increment (sequenceNumber (wrapper p))))
                                  (acknowledgement requestMsg)))).
Proof.
  intros Hchunk Hne Hparse Hcmd Hp. unfold framing in Hp. injection Hp as Hin Hlen.
  rewrite processClientMessage_feed. unfold feed. rewrite Hin, Hlen, Hchunk. cbn [app].
  rewrite exec_framed by exact Hne.
  apply bind_exited. unfold handleFrame. rewrite bind_next, Hparse.
  now rewrite dispatch_disconnect.
Qed.

(** X9.  [JSON.parse] of a client payload is not guarded: a complete
    frame whose payload is not valid JSON ends the handler in the
    SyntaxError, with nothing written; what follows in the chunk is not
    handled. *)
Theorem invalid_payload_ends_the_adapter
        (chunk : Buffer) (payload rest text : JSString) (p : Process) :
  Buffer_toString chunk = framed payload ++ rest ->
  payload <> [] ->
  JSON_parse payload = SyntaxError text ->
  framing p = ([], 0%Z) ->
  processClientMessage chunk p = Crashed (JSONError text) [].
Proof.
  intros Hchunk Hne Hparse Hp. unfold framing in Hp. injection Hp as Hin Hlen.
  rewrite processClientMessage_feed. unfold feed. rewrite Hin, Hlen, Hchunk. cbn [app].
  rewrite exec_framed by exact Hne.
  apply bind_crashed. unfold handleFrame. now rewrite bind_next, Hparse.
Qed.

(** X10.  When no payload is expected and the buffer, with the new
    chunk added, holds the end of a header (CR LF CR LF, not at index
    0) before which [Content-Length: ] and a digit do not occur,
    [processClientMessage] throws the error "Unable to parse message
    from debugger client", with nothing written. *)
Theorem header_without_length_ends_the_adapter (chunk : Buffer) (p : Process) :
  currentContentLength (wrapper p) = 0%Z ->
  let input := currentInputData (wrapper p) ++ Buffer_toString chunk in
  (0 < indexOf TWO_CRLF input)%Z ->
  match_CONTENT_LENGTH_PATTERN (substr0 input (indexOf TWO_CRLF input)) = None ->
  processClientMessage chunk p
  = Crashed (Error (lit "Unable to parse message from debugger client")) [].
Proof.
  intros Hlen input Hidx Hm.
  rewrite processClientMessage_feed. unfold feed. fold input. rewrite Hlen.
  rewrite deframing_eq by lia. cbn [Z.eqb]. unfold readHeader.
  replace (indexOf TWO_CRLF input <=? 0)%Z with false by (symmetry; apply Z.leb_gt; exact Hidx).
  rewrite Hm. reflexivity.
Qed.

End ClientEdges.

(** An empty line before the first frame. *)
Lemma leading_blank_line_blocks_client_witness :
  let chunk := ascii_bytes TWO_CRLF ++ frame (request "initialize" 1) in
  let more := [frame (request "threads" 2)] in
  currentContentLength (wrapper boot) = 0%Z /\
  startsWith TWO_CRLF (currentInputData (wrapper boot) ++ Buffer_toString chunk) = true /\
  effects (forEach (chunk :: more) (@processClientMessage Mini.runtime) boot) = [].
Proof.
  intros chunk more.
  assert (Hs : startsWith TWO_CRLF (currentInputData (wrapper boot) ++ Buffer_toString chunk)
               = true) by (vm_compute; reflexivity).
  split; [reflexivity|]. split; [exact Hs|].
  exact (f_equal effects
                 (@leading_blank_line_blocks_client Mini.runtime boot chunk more eq_refl Hs)).
Defined.

(** An empty frame followed by a request. *)
Lemma empty_frame_postpones_witness :
  let payloads := [Mini.stringify (request "initialize" 1)] in
  let later := [Mini.stringify (request "threads" 2)] in
  let chunk := ascii_bytes (framed [] ++ flat_map framed payloads) in
  let next := ascii_bytes (flat_map framed later) in
  Buffer_toString chunk = framed [] ++ flat_map framed payloads /\
  Buffer_toString next = flat_map framed later /\
  Forall (fun payload => payload <> []) (payloads ++ later) /\
  framing boot = ([], 0%Z) /\
  effects (@processClientMessage Mini.runtime chunk boot) = [] /\
  option_map (fun q => bufferedRequests (wrapper q))
             (final (@processClientMessage Mini.runtime chunk boot)) = Some [].
Proof.
  intros payloads later chunk next.
  assert (H1 : Buffer_toString chunk = framed [] ++ flat_map framed payloads)
    by (vm_compute; reflexivity).
  assert (H2 : Buffer_toString next = flat_map framed later) by (vm_compute; reflexivity).
  assert (H3 : Forall (fun payload => payload <> []) (payloads ++ later))
    by (repeat constructor; discriminate).
  split; [exact H1|]. split; [exact H2|]. split; [exact H3|]. split; [reflexivity|].
  destruct (@empty_frame_postpones Mini.runtime chunk next payloads later boot H1 H2 H3 eq_refl)
    as [Hfirst _].
  rewrite Hfirst. split; reflexivity.
Defined.

(** A disconnect request followed by another frame. *)
Lemma disconnect_answers_and_exits_witness :
  let requestMsg := request "disconnect" 5 in
  let payload := Mini.stringify requestMsg in
  let rest := Buffer_toString (frame (request "threads" 6)) in
  let chunk := ascii_bytes (framed payload ++ rest) in
  Buffer_toString chunk = framed payload ++ rest /\
  payload <> [] /\
  JSON_parse (Runtime := Mini.runtime) payload = Value requestMsg /\
  prop requestMsg "command" = Some (JStr (lit "disconnect")) /\
  framing boot = ([], 0%Z) /\
  @processClientMessage Mini.runtime chunk boot
  = Exited (Some (JNum 0))
           (frame_of (Mini.stringify
                        (JObj [(lit "seq", JNum 2); (lit "type", JStr (lit "response"));
                               (lit "request_seq", JNum 5); (lit "success", JBool true);
                               (lit "command", JStr (lit "disconnect"))]))).
Proof.
  intros requestMsg payload rest chunk.
  assert (H1 : Buffer_toString chunk = framed payload ++ rest) by (vm_compute; reflexivity).
  assert (H2 : payload <> []) by discriminate.
  assert (H3 : JSON_parse (Runtime := Mini.runtime) payload = Value requestMsg) by reflexivity.
  assert (H4 : prop requestMsg "command" = Some (JStr (lit "disconnect"))) by reflexivity.
  split; [exact H1|]. split; [exact H2|]. split; [exact H3|]. split; [exact H4|].
  split; [reflexivity|].
  exact (@disconnect_answers_and_exits Mini.runtime chunk payload rest requestMsg boot
                                      H1 H2 H3 H4 eq_refl).
Defined.

(** A payload that is not JSON. *)
Lemma invalid_payload_ends_the_adapter_witness :
  let payload := lit "not-json" in
  let rest := Buffer_toString (frame (request "threads" 2)) in
  let text := lit "SyntaxError: Unexpected token" in
  let chunk := ascii_bytes (framed payload ++ rest) in
  Buffer_toString chunk = framed payload ++ rest /\
  payload <> [] /\
  JSON_parse (Runtime := Mini.runtime) payload = SyntaxError text /\
  framing boot = ([], 0%Z) /\
  @processClientMessage Mini.runtime chunk boot = Crashed (JSONError text) [].
Proof.
  intros payload rest text chunk.
  assert (H1 : Buffer_toString chunk = framed payload ++ rest) by (vm_compute; reflexivity).
  assert (H2 : payload <> []) by discriminate.
  assert (H3 : JSON_parse (Runtime := Mini.runtime) payload = SyntaxError text) by reflexivity.
  split; [exact H1|]. split; [exact H2|]. split; [exact H3|]. split; [reflexivity|].
  exact (@invalid_payload_ends_the_adapter Mini.runtime chunk payload rest text boot
                                          H1 H2 H3 eq_refl).
Defined.

(** A header block with another field only. *)
Lemma header_without_length_ends_the_adapter_witness :
  let chunk := ascii_bytes (lit "Content-Type: json" ++ TWO_CRLF ++ lit "{}") in
  let input := currentInputData (wrapper boot) ++ Buffer_toString chunk in
  currentContentLength (wrapper boot) = 0%Z /\
  (0 < indexOf TWO_CRLF input)%Z /\
  match_CONTENT_LENGTH_PATTERN (substr0 input (indexOf TWO_CRLF input)) = None /\
  @processClientMessage Mini.runtime chunk boot
  = Crashed (Error (lit "Unable to parse message from debugger client")) [].
Proof.
  intros chunk input.
  assert (H1 : (0 < indexOf TWO_CRLF input)%Z) by (vm_compute; reflexivity).
  assert (H2 : match_CONTENT_LENGTH_PATTERN (substr0 input (indexOf TWO_CRLF input)) = None)
    by (vm_compute; reflexivity).
  split; [reflexivity|]. split; [exact H1|]. split; [exact H2|].
  exact (@header_without_length_ends_the_adapter Mini.runtime chunk boot eq_refl H1 H2).
Defined.

(** ** Where requests go *)

Section Routing.

Context {R : Runtime}.

Lemma act_routed p out p' : Act p out p' -> routed p -> routed p'.
Proof.
  intros H Hr. destruct H; try exact Hr; unfold routed in *; cbn; try discriminate.
  intros _. assumption.
Qed.

Lemma acts_routed p out p' : Acts p out p' -> routed p -> routed p'.
Proof.
  induction 1 as [|p1 o1 p2 o2 p3 Ha _ IH]; intros Hr; [exact Hr|].
  apply IH. eapply act_routed; eauto.
Qed.

Lemma translateNuclideRequest_command fields command p :
  lookup (lit "command") fields = Some (JStr command) ->
  translateNuclideRequest (JObj fields) p
  = Ok (JSON_stringify
          (JObj (if startsWith (lit "nuclide_") command
                 then assign (lit "command") (JStr (translated command)) fields
                 else fields)))
       p [].
Proof.
  intros H. unfold translateNuclideRequest, translated. rewrite H.
  destruct (startsWith (lit "nuclide_") command) eqn:Es.
  - assert (Ht : truthy (JStr command) = true) by (now destruct command).
    rewrite Ht. cbn [andb]. unfold replace.
    rewrite (find_here _ _ Es). reflexivity.
  - now rewrite andb_false_r.
Qed.

(** What goes to the callback is a serialisation. *)
Lemma translateNuclideRequest_forwarded requestMsg p :
  translateNuclideRequest requestMsg p
  = match requestMsg with
    | JNull => Crashed TypeError []
    | _ => if unforwardable requestMsg then Crashed TypeError []
           else Ok (JSON_stringify (forwarded requestMsg)) p []
    end.
Proof.
  destruct requestMsg as [| | | |fields|]; try reflexivity.
  unfold unforwardable, forwarded, prop.
  destruct (lookup (lit "command") fields) as [command|] eqn:Hl; [|
    unfold translateNuclideRequest; now rewrite Hl].
  destruct command as [| | |command| |];
    try (unfold translateNuclideRequest; rewrite Hl;
         match goal with |- context [truthy ?c] => now destruct (truthy c) end).
  rewrite (@translateNuclideRequest_command fields command p Hl).
  now destruct (startsWith (lit "nuclide_") command).
Qed.

(** X13.  In every state that a run of a new adapter reaches between
    two events, a request that is not disconnect, launch or attach is
    either queued - [debugging] is not set, and nothing is written - or
    meets a callback: [debugging] is never set without one in place, so
    the [if (callback)] of the loop never skips a request.  With the
    callback, a request whose command is truthy and not a string ends
    the handler in a TypeError, with nothing written and nothing queued;
    every other request gives exactly one write to the current target,
    of the request as [translateNuclideRequest] serialises it, and
    leaves the adapter as it was. *)
Theorem request_is_queued_or_forwarded
        (events : list Event) (p : Process) (out : list Effect) (requestMsg : json) :
  run events boot = Ok tt p out ->
  ordinary requestMsg ->
  (debugging (wrapper p) = false /\
   dispatch requestMsg p = Ok tt (push requestMsg p) []) \/
  (exists callback,
      debugging (wrapper p) = true /\
      debuggerWriteCallback (wrapper p) = Some callback /\
      dispatch requestMsg p
      = if unforwardable requestMsg then Crashed TypeError []
        else Ok tt p [written callback (JSON_stringify (forwarded requestMsg))]).
Proof.
  intros Hrun Ho.
  destruct (debugging (wrapper p)) eqn:Hd.
  - right. pose proof (sound_run events boot) as Hs. rewrite Hrun in Hs.
    assert (Hr : routed p).
    { eapply acts_routed; [exact Hs|]. intros H. discriminate. }
    destruct (debuggerWriteCallback (wrapper p)) as [callback|] eqn:Hc;
      [|exfalso; now apply (Hr Hd)].
    exists callback. split; [reflexivity|]. split; [reflexivity|].
    unfold dispatch.
    rewrite (@bind_ok _ _ (handleWrapperRequest requestMsg) _ p false p [])
      by (rewrite (handleWrapperRequest_ordinary p Ho), Hd; reflexivity).
    rewrite prepend_nil. cbn [negb]. rewrite bind_this, Hc.
    unfold bind. rewrite translateNuclideRequest_forwarded.
    destruct Ho as [Hnull _].
    destruct requestMsg; try congruence; now destruct (unforwardable _).
  - left. split; [reflexivity|]. now apply dispatch_buffers.
Qed.

(** X14.  Once a target is connected, a request with a string command
    other than disconnect, launch and attach gives exactly one write,
    to the current target, and leaves the adapter as it was.  The text
    is the request serialised again; a command that starts with
    [nuclide_] goes out with [fb_] in place of that prefix - the first
    occurrence only, what follows the prefix is kept as it is - and at
    the place the command had among the properties. *)
Theorem connected_request_is_translated
        (p : Process) (callback : Callback) (fields : list (JSString * json))
        (command : JSString) :
  debugging (wrapper p) = true ->
  debuggerWriteCallback (wrapper p) = Some callback ->
  ordinary (JObj fields) ->
  lookup (lit "command") fields = Some (JStr command) ->
  dispatch (JObj fields) p
  = Ok tt p
       [written callback
                (JSON_stringify
                   (JObj (if startsWith (lit "nuclide_") command
                          then assign (lit "command") (JStr (translated command)) fields
                          else fields)))].
Proof.
  intros Hd Hc Ho Hl. unfold dispatch.
  rewrite (@bind_ok _ _ (handleWrapperRequest (JObj fields)) _ p false p [])
    by (rewrite (handleWrapperRequest_ordinary p Ho), Hd; reflexivity).
  rewrite prepend_nil. cbn [negb]. rewrite bind_this, Hc.
  rewrite (bind_ok _ _ _ (@translateNuclideRequest_command fields command p Hl)). reflexivity.
Qed.

(** X12.  The port of an attach request.  Without arguments, without
    a [port] or with a falsy one (0, the empty string, null, false) the
    adapter opens a socket to the default port 8999; with a port that
    [parseInt] reads as a number of 0..65535, to that port.  In both
    cases the socket is new, holds the request with 0 retries, nothing
    is written or queued and [debugging] stays as it is.  A port that
    [parseInt] cannot read ends the handler in the error "Invalid HHVM
    debug port specified." before any socket is made. *)
Theorem attach_request_port (requestMsg : json) (p : Process) :
  prop requestMsg "command" = Some (JStr (lit "attach")) ->
  let port := prop (orEmpty (prop requestMsg "arguments")) "port" in
  let opened (n : Z) :=
      Ok tt
         (mkProcess (wrapper p) (sockets p ++ [mkSocket requestMsg 0 true])
                    (timers p) (children p))
         [SocketConnect (List.length (sockets p)) n] in
  (truthy_opt port = false ->
   dispatch requestMsg p = opened DEFAULT_HHVM_DEBUGGER_PORT) /\
  (forall v n, port = Some v -> truthy v = true -> parseInt v = Some n ->
               (0 <= n < 65536)%Z ->
               dispatch requestMsg p = opened n) /\
  (forall v, port = Some v -> truthy v = true -> parseInt v = None ->
             dispatch requestMsg p
             = Crashed (Error (lit "Invalid HHVM debug port specified.")) []).
Proof.
  intros Hcmd port opened.
  assert (Hd : dispatch requestMsg p = (attachTarget requestMsg 0 ;; ret tt) p).
  { unfold dispatch, handleWrapperRequest. cbv zeta.
    destruct requestMsg; try discriminate. rewrite Hcmd.
    change (jseqb (lit "attach") (lit "disconnect")) with false.
    change (jseqb (lit "attach") (lit "launch")) with false.
    change (jseqb (lit "attach") (lit "attach")) with true. cbv iota.
    rewrite !bind_assoc. apply bind_ext. intros _ q. reflexivity. }
  assert (Hopen : forall n, attachPort requestMsg = Some n -> (0 <= n < 65536)%Z ->
                            dispatch requestMsg p = opened n).
  { intros n Hn Hr. rewrite Hd, (bind_ok _ _ _ (attachTarget_eq _ 0 p Hn Hr)).
    cbn [prepend ret]. now rewrite app_nil_r. }
  split; [|split].
  - intros Hf. apply Hopen; [|unfold DEFAULT_HHVM_DEBUGGER_PORT; lia].
    unfold attachPort. fold port. destruct port as [v|]; [|reflexivity].
    cbn [truthy_opt] in Hf. now rewrite Hf.
  - intros v n Hv Ht Hn Hr. apply Hopen; [|exact Hr].
    unfold attachPort. fold port. now rewrite Hv, Ht.
  - intros v Hv Ht Hn. rewrite Hd. apply bind_crashed.
    unfold attachTarget, attachPort. fold port. now rewrite Hv, Ht, Hn.
Qed.

End Routing.

Lemma ordinary_request command seq :
  jseqb (lit command) (lit "disconnect") = false ->
  jseqb (lit command) (lit "launch") = false ->
  jseqb (lit command) (lit "attach") = false ->
  ordinary (request command seq).
Proof.
  intros H1 H2 H3. split; [discriminate|].
  intros c H. cbn in H. injection H as <-. repeat split; assumption.
Qed.

(** After a launch, a request goes to the child, with its prefix
    replaced. *)
Lemma request_is_queued_or_forwarded_witness :
  let events := [StdinData (frame (request "launch" 1))] in
  let requestMsg := request "nuclide_info" 2 in
  exists p out,
    @run Mini.runtime events boot = Ok tt p out /\
    ordinary requestMsg /\
    @dispatch Mini.runtime requestMsg p
    = Ok tt p [ChildWrite 0 0 (Mini.stringify (request "fb_info" 2) ++ [NUL])].
Proof.
  intros events requestMsg.
  destruct (@run Mini.runtime events boot) as [[] p out| |] eqn:Hrun;
    [|vm_compute in Hrun; discriminate..].
  assert (Ho : ordinary requestMsg) by (apply ordinary_request; reflexivity).
  exists p, out. split; [reflexivity|]. split; [exact Ho|].
  destruct (@request_is_queued_or_forwarded Mini.runtime events p out requestMsg Hrun Ho)
    as [[Hd _]|(callback & _ & Hc & Hq)].
  - vm_compute in Hrun. injection Hrun as <- _. discriminate.
  - rewrite Hq. vm_compute in Hrun. injection Hrun as <- _.
    injection Hc as <-. reflexivity.
Defined.

(** The prefix twice in a command. *)
Lemma connected_request_is_translated_witness :
  let p := mkProcess (mkWrapper 3 [] [] 0 [] true (Some (SocketWriter 0)))
                     [mkSocket (request "attach" 1) 0 false] [] [] in
  let command := lit "nuclide_nuclide_info" in
  let fields := [(lit "command", JStr command); (lit "seq", JNum 7)] in
  debugging (wrapper p) = true /\
  debuggerWriteCallback (wrapper p) = Some (SocketWriter 0) /\
  ordinary (JObj fields) /\
  lookup (lit "command") fields = Some (JStr command) /\
  @dispatch Mini.runtime (JObj fields) p
  = Ok tt p [SocketWrite 0 (Mini.stringify (request "fb_nuclide_info" 7) ++ [NUL])].
Proof.
  intros p command fields.
  assert (Ho : ordinary (JObj fields)).
  { apply (@ordinary_request "nuclide_nuclide_info" 7); reflexivity. }
  split; [reflexivity|]. split; [reflexivity|]. split; [exact Ho|]. split; [reflexivity|].
  exact (@connected_request_is_translated Mini.runtime p (SocketWriter 0) fields command
                                          eq_refl eq_refl Ho eq_refl).
Defined.

(** An attach request without arguments. *)
Lemma attach_request_port_witness :
  let requestMsg := request "attach" 1 in
  prop requestMsg "command" = Some (JStr (lit "attach")) /\
  truthy_opt (prop (orEmpty (prop requestMsg "arguments")) "port") = false /\
  @dispatch Mini.runtime requestMsg boot
  = Ok tt (mkProcess constructor [mkSocket requestMsg 0 true] [] [])
       [SocketConnect 0 8999].
Proof.
  intros requestMsg.
  assert (H : prop requestMsg "command" = Some (JStr (lit "attach"))) by reflexivity.
  split; [exact H|]. split; [reflexivity|].
  destruct (@attach_request_port Mini.runtime requestMsg boot H) as [Hdefault _].
  exact (Hdefault eq_refl).
Defined.

(** A launch request with [noDebug], from a new adapter. *)
Lemma launchTarget_noDebug_crashes_witness :
  let launchMessage := request_with "launch" 1 [(lit "noDebug", JBool true)] in
  truthy_opt (prop (orEmpty (prop launchMessage "arguments")) "noDebug") = true /\
  spawn_cwd (orEmpty (prop launchMessage "arguments")) = Some None /\
  @launchTarget Mini.runtime launchMessage boot = Crashed TypeError [Spawn 0 3 None].
Proof.
  intros launchMessage. split; [reflexivity|]. split; [reflexivity|].
  exact (@launchTarget_noDebug_crashes Mini.runtime launchMessage None boot eq_refl eq_refl).
Defined.

(** ** What is written to a target *)

Create HintDb tidy.

Section Tidy.

Context {R : Runtime}.

Lemma tidy_bind {A B} (m : M A) (k : A -> M B) :
  tidy m -> (forall a, tidy (k a)) -> tidy (bind m k).
Proof.
  intros Hm Hk p. specialize (Hm p). unfold bind.
  destruct (m p) as [a p1 o1| |]; cbn [effects] in *; try exact Hm.
  specialize (Hk a p1).
  destruct (k a p1); cbn [effects] in *; apply Forall_app; split; assumption.
Qed.

Lemma tidy_quiet {A} (m : M A) : (forall p, effects (m p) = []) -> tidy m.
Proof. intros H p. rewrite H. constructor. Qed.

Lemma tidy_emit out : Forall to_target out -> tidy (emit out).
Proof. intros H p. exact H. Qed.

Lemma tidy_call callback message : tidy (call callback (JSON_stringify message)).
Proof.
  apply tidy_emit. constructor; [|constructor].
  destruct callback; cbn [written to_target]; eauto.
Qed.

Lemma tidy_forEach {A} (l : list A) (h : A -> M unit) :
  (forall x, tidy (h x)) -> tidy (forEach l h).
Proof.
  intros H. induction l as [|x l IH]; cbn [forEach].
  - now apply tidy_quiet.
  - apply tidy_bind; [apply H | intros _; exact IH].
Qed.

Ltac tidy :=
  repeat first
         [ solve [eauto with tidy]
         | apply tidy_call
         | apply tidy_quiet; intros ?; reflexivity
         | apply tidy_emit; solve [repeat constructor]
         | apply tidy_forEach; intros ?
         | apply tidy_bind; [|intros ?]
         | match goal with
           | |- tidy (match ?x with _ => _ end) => destruct x
           end ].

Lemma tidy_nextSequenceNumber : tidy nextSequenceNumber.
Proof. unfold nextSequenceNumber. tidy. Qed.
#[local] Hint Resolve tidy_nextSequenceNumber : tidy.

Lemma tidy_writeOutputWithHeader output : tidy (writeOutputWithHeader output).
Proof. unfold writeOutputWithHeader. tidy. Qed.
#[local] Hint Resolve tidy_writeOutputWithHeader : tidy.

Lemma tidy_writeResponseMessage message : tidy (writeResponseMessage message).
Proof. unfold writeResponseMessage. tidy. Qed.
#[local] Hint Resolve tidy_writeResponseMessage : tidy.

Lemma tidy_writeOutputEvent eventType message : tidy (writeOutputEvent eventType message).
Proof. unfold writeOutputEvent. tidy. Qed.
#[local] Hint Resolve tidy_writeOutputEvent : tidy.

Lemma tidy_forwardBufferedMessages : tidy forwardBufferedMessages.
Proof. unfold forwardBufferedMessages. tidy. Qed.
#[local] Hint Resolve tidy_forwardBufferedMessages : tidy.

Lemma tidy_attachTarget attachMessage retries : tidy (attachTarget attachMessage retries).
Proof. unfold attachTarget. tidy. Qed.
#[local] Hint Resolve tidy_attachTarget : tidy.

Lemma tidy_onConnect sock attachMessage : tidy (onConnect sock attachMessage).
Proof. unfold onConnect. tidy. Qed.
#[local] Hint Resolve tidy_onConnect : tidy.

Lemma tidy_onError attachMessage retries error : tidy (onError attachMessage retries error).
Proof. unfold onError, processExit. tidy. Qed.
#[local] Hint Resolve tidy_onError : tidy.

Lemma tidy_launchTarget launchMessage : tidy (launchTarget launchMessage).
Proof. unfold launchTarget. cbv zeta. tidy. Qed.
#[local] Hint Resolve tidy_launchTarget : tidy.

Lemma tidy_handleWrapperRequest requestMsg : tidy (handleWrapperRequest requestMsg).
Proof. unfold handleWrapperRequest. cbv zeta. tidy. Qed.
#[local] Hint Resolve tidy_handleWrapperRequest : tidy.

Lemma tidy_forward requestMsg callback :
  tidy (data <- translateNuclideRequest requestMsg ;; call callback data).
Proof.
  intros p. unfold bind. rewrite translateNuclideRequest_forwarded.
  pose proof (tidy_call callback (forwarded requestMsg) p) as H.
  destruct requestMsg; try destruct (unforwardable _);
    cbn [effects call emit app] in *; first [exact H | constructor].
Qed.
#[local] Hint Resolve tidy_forward : tidy.

Lemma tidy_dispatch requestMsg : tidy (dispatch requestMsg).
Proof. unfold dispatch. tidy. Qed.
#[local] Hint Resolve tidy_dispatch : tidy.

Lemma tidy_readContentHeader : tidy readContentHeader.
Proof. unfold readContentHeader. tidy. Qed.
#[local] Hint Resolve tidy_readContentHeader : tidy.

Lemma tidy_clientLoop fuel : tidy (clientLoop fuel).
Proof. induction fuel as [|fuel IH]; cbn [clientLoop]; tidy. Qed.
#[local] Hint Resolve tidy_clientLoop : tidy.

Lemma tidy_processClientMessage chunk : tidy (processClientMessage chunk).
Proof. unfold processClientMessage. tidy. Qed.
#[local] Hint Resolve tidy_processClientMessage : tidy.

Lemma tidy_deliver message : tidy (deliver message).
Proof. unfold deliver. tidy. Qed.
#[local] Hint Resolve tidy_deliver : tidy.

Lemma tidy_debuggerLoop fuel : tidy (debuggerLoop fuel).
Proof. induction fuel as [|fuel IH]; cbn [debuggerLoop]; tidy. Qed.
#[local] Hint Resolve tidy_debuggerLoop : tidy.

Lemma tidy_processDebuggerMessage chunk : tidy (processDebuggerMessage chunk).
Proof. unfold processDebuggerMessage. tidy. Qed.
#[local] Hint Resolve tidy_processDebuggerMessage : tidy.

Lemma tidy_handle e : tidy (handle e).
Proof. destruct e; unfold handle, withSocket, withChild, onClose, onDisconnect; tidy. Qed.

Lemma tidy_run events : tidy (run events).
Proof.
  induction events as [|e events IH]; cbn [run].
  - now apply tidy_quiet.
  - apply tidy_bind; [apply tidy_handle | intros _; exact IH].
Qed.

(** X15.  In every run, from any state: whatever is written to a
    target is the JSON serialisation of a message followed by one NUL,
    in one write, and a write to a launched child goes to its stream 0,
    the standard input - never to stream 3. *)
Theorem target_writes_end_in_NUL_and_go_to_stdin (events : list Event) (p : Process) :
  Forall to_target (effects (run events p)).
Proof. apply tidy_run. Qed.

End Tidy.

(** ** Frames written and frames read *)

Section RoundTrip.

Context {R : Runtime}.

Lemma byteLength_ascii (s : JSString) :
  Forall (fun u => (u < 128)%N) s -> byteLength s = List.length s.
Proof.
  induction 1 as [|u s Hu _ IH]; [reflexivity|].
  cbn [byteLength List.length].
  replace (u <? 128)%N with true by (symmetry; now apply N.ltb_lt).
  now rewrite IH.
Qed.

Lemma positive_frames (payloads : list JSString) :
  Forall (fun payload => payload <> []) payloads ->
  positive (deframing (flat_map framed payloads) 0).
Proof.
  induction 1 as [|payload payloads Hne _ IH]; [exact I|].
  cbn [flat_map]. rewrite deframing_framed by exact Hne. cbn [positive].
  split; [|exact IH]. unfold jslength. destruct payload; [congruence | cbn; lia].
Qed.

(** X18.  What [writeOutputWithHeader] writes for an output of ASCII
    characters is one frame as [processClientMessage] reads frames: the
    two writes together are the header with the length of the output
    and the output, and deframing that text gives the output back and
    leaves nothing behind. *)
Theorem written_frame_reads_back (output : JSString) (p : Process) :
  Forall (fun u => (u < 128)%N) output ->
  output <> [] ->
  let text := stdout_text (effects (writeOutputWithHeader output p)) in
  text = framed output /\
  payloads (deframing text 0) = [output] /\
  ending (deframing text 0) = Some ([], 0%Z).
Proof.
  intros Hascii Hne text.
  assert (Ht : text = framed output).
  { unfold text. rewrite writeOutputWithHeader_eq. cbn [effects frame_of stdout_text flat_map].
    rewrite (byteLength_ascii Hascii), app_nil_r. unfold framed.
    now rewrite <- !app_assoc. }
  split; [exact Ht|]. rewrite Ht.
  rewrite <- (app_nil_r (framed output)), deframing_framed by exact Hne.
  split; reflexivity.
Qed.

(** X1.  Requests arrive as they were sent, however the stream is
    cut.  Take frames with payloads that are not empty, sent as ASCII
    bytes and cut into chunks at any places, and an adapter whose input
    buffer is empty.  Handling the chunks one after the other does for
    each frame, in the order sent, what [handleFrame] does: one value
    of the counter for the header, then the payload parsed and the
    request dispatched. *)
Theorem chunked_frames_are_requests
        (chunks : list Buffer) (payloads : list JSString) (p : Process) :
  Forall is_ascii chunks ->
  Buffer_toString (List.concat chunks) = flat_map framed payloads ->
  Forall (fun payload => payload <> []) payloads ->
  framing p = ([], 0%Z) ->
  forEach chunks processClientMessage p = forEach payloads handleFrame p.
Proof.
  intros Hascii Htext Hne Hp.
  rewrite chunks_as_one_read; [|exact Hascii|exact Hp|].
  - now apply frames_in_one_chunk.
  - rewrite Htext. now apply positive_frames.
Qed.

Lemma clientLoopWithin_eq turns : forall p,
  (0 <= currentContentLength (wrapper p))%Z ->
  List.length (currentInputData (wrapper p)) < turns ->
  clientLoopWithin turns p = bind (clientLoop turns) (fun _ => ret true) p.
Proof.
  induction turns as [|turns IH]; intros p Hlen Hturns; [lia|].
  cbn [clientLoopWithin clientLoop]. rewrite bind_assoc, !bind_this.
  set (header := if (currentContentLength (wrapper p) =? 0)%Z
                 then readContentHeader else ret tt).
  assert (Hh : forall a p1 o1, header p = Ok a p1 o1 ->
               List.length (currentInputData (wrapper p1))
               <= List.length (currentInputData (wrapper p)) /\
               (0 <= currentContentLength (wrapper p1))%Z).
  { intros a p1 o1. unfold header.
    destruct (currentContentLength (wrapper p) =? 0)%Z.
    - now apply readContentHeader_framing.
    - intros H. injection H as _ <- _. split; [lia | exact Hlen]. }
  rewrite bind_assoc. apply bind_ext_ok. intros [] p1 o1 Eh.
  destruct (Hh _ _ _ Eh) as [Hin1 Hlen1].
  rewrite bind_assoc, !bind_this.
  destruct ((currentContentLength (wrapper p1) =? 0)
            || (jslength (currentInputData (wrapper p1)) <? currentContentLength (wrapper p1)))%Z
           eqn:Etest; [reflexivity|].
  apply orb_false_iff in Etest. destruct Etest as [Ez Elt].
  apply Z.eqb_neq in Ez. apply Z.ltb_ge in Elt. unfold jslength in Elt.
  destruct (JSON_parse _) as [text|requestMsg]; [reflexivity|].
  rewrite bind_assoc. apply bind_ext_ok. intros [] p2 o2 Ed.
  pose proof (dispatch_framing _ _ Ed) as Hf. unfold framing in Hf.
  injection Hf as Hf1 Hf2.
  rewrite !bind_assoc, !bind_update, !bind_assoc, !bind_this, !bind_assoc, !bind_update.
  apply IH.
  - cbn. lia.
  - cbn [wrapper with_wrapper currentInputData set_currentInputData
         set_currentContentLength]. rewrite Hf1.
    unfold substrFrom. rewrite length_skipn. lia.
Qed.

(** X19.  The [while (true)] loop of [processClientMessage] is left:
    in a state whose expected length is not negative, within one turn
    per code unit of the buffer, plus one, the loop reaches its [break],
    or the handler has thrown or ended the process before.  The
    outcome is that of [processClientMessage]. *)
Theorem processClientMessage_loop_ends (chunk : Buffer) (p : Process) (turns : nat) :
  (0 <= currentContentLength (wrapper p))%Z ->
  List.length (currentInputData (wrapper p) ++ Buffer_toString chunk) < turns ->
  (update (fun w => set_currentInputData (currentInputData w ++ Buffer_toString chunk) w) ;;
   clientLoopWithin turns) p
  = (processClientMessage chunk ;; ret true) p.
Proof.
  intros Hlen Hturns. unfold processClientMessage.
  rewrite !bind_assoc, !bind_update, bind_assoc, bind_this.
  rewrite clientLoopWithin_eq by assumption.
  apply bind_congr. now apply clientLoop_enough.
Qed.

End RoundTrip.

(** A message the adapter writes. *)
Lemma written_frame_reads_back_witness :
  let output := Mini.stringify (event "stopped") in
  Forall (fun u => (u < 128)%N) output /\
  output <> [] /\
  payloads (deframing (stdout_text (effects (writeOutputWithHeader output boot))) 0)
  = [output].
Proof.
  intros output.
  assert (Ha : Forall (fun u => (u < 128)%N) output) by (repeat constructor).
  assert (Hn : output <> []) by discriminate.
  split; [exact Ha|]. split; [exact Hn|].
  destruct (@written_frame_reads_back output boot Ha Hn) as (_ & Hp & _).
  exact Hp.
Defined.

(** Two frames cut into three chunks. *)
Lemma chunked_frames_are_requests_witness :
  let payloads := [Mini.stringify (request "initialize" 1);
                   Mini.stringify (request "threads" 2)] in
  let whole := ascii_bytes (flat_map framed payloads) in
  let chunks := [firstn 10 whole; firstn 40 (skipn 10 whole); skipn 50 whole] in
  Forall is_ascii chunks /\
  Buffer_toString (List.concat chunks) = flat_map framed payloads /\
  Forall (fun payload => payload <> []) payloads /\
  framing boot = ([], 0%Z) /\
  forEach chunks (@processClientMessage Mini.runtime) boot
  = forEach payloads (@handleFrame Mini.runtime) boot.
Proof.
  intros payloads whole chunks.
  assert (Ha : Forall is_ascii chunks) by (repeat constructor; vm_compute; reflexivity).
  assert (Ht : Buffer_toString (List.concat chunks) = flat_map framed payloads)
    by (vm_compute; reflexivity).
  assert (Hn : Forall (fun payload => payload <> []) payloads)
    by (repeat constructor; discriminate).
  split; [exact Ha|]. split; [exact Ht|]. split; [exact Hn|]. split; [reflexivity|].
  exact (@chunked_frames_are_requests Mini.runtime chunks payloads boot Ha Ht Hn eq_refl).
Defined.

(** One frame, a bound of 1000 turns. *)
Lemma processClientMessage_loop_ends_witness :
  let chunk := frame (request "initialize" 1) in
  (0 <= currentContentLength (wrapper boot))%Z /\
  List.length (currentInputData (wrapper boot) ++ Buffer_toString chunk) < 1000 /\
  (update (fun w => set_currentInputData (currentInputData w ++ Buffer_toString chunk) w) ;;
   @clientLoopWithin Mini.runtime 1000) boot
  = (@processClientMessage Mini.runtime chunk ;; ret true) boot.
Proof.
  intros chunk.
  assert (H1 : (0 <= currentContentLength (wrapper boot))%Z) by (cbn; lia).
  assert (H2 : List.length (currentInputData (wrapper boot) ++ Buffer_toString chunk) < 1000)
    by (vm_compute; lia).
  split; [exact H1|]. split; [exact H2|].
  exact (@processClientMessage_loop_ends Mini.runtime chunk boot 1000 H1 H2).
Defined.

(** ** The output of a launched child *)

Section ChildOutput.

Context {R : Runtime}.

Lemma writeOutputEvent_eq eventType message p :
  writeOutputEvent eventType message p
  = Ok tt (bump p)
       (frame_of (JSON_stringify
                    (outputEvent (increment (sequenceNumber (wrapper p))) eventType message))).
Proof. reflexivity. Qed.

Lemma output_events (toEvent : Buffer -> Event) (eventType : string)
      (children0 : list nat) (chunks : list Buffer) :
  (forall chunk p, children p = children0 ->
                   handle (toEvent chunk) p
                   = writeOutputEvent eventType (Buffer_toString chunk) p) ->
  forall p,
    children p = children0 ->
    run (map toEvent chunks) p
    = Ok tt (bumps (List.length chunks) p)
         (eventsFrom (sequenceNumber (wrapper p)) eventType (map Buffer_toString chunks)).
Proof.
  intros Hh. induction chunks as [|chunk chunks IH]; intros p Hp; [reflexivity|].
  cbn [map run List.length eventsFrom bumps].
  rewrite (@bind_ok _ _ _ _ p tt (bump p)
                    (frame_of (JSON_stringify
                                 (outputEvent (increment (sequenceNumber (wrapper p)))
                                              eventType (Buffer_toString chunk)))))
    by (rewrite Hh by exact Hp; apply writeOutputEvent_eq).
  rewrite IH by exact Hp. reflexivity.
Qed.

(** X21.  The output of a launched child.  Every chunk that the child
    writes on its stdout, or on its stderr, goes to the client as one
    output event of that category, in the order of arrival: the event
    carries the text of the chunk and the next value of the counter.
    Nothing else happens - the text is not searched for messages of
    the debugger, nothing is written to a target, the queue and the
    buffers stay as they are. *)
Theorem child_output_becomes_events
        (p : Process) (child stdio : nat) (chunks : list Buffer) :
  nth_error (children p) child = Some stdio ->
  run (map (ChildStdout child) chunks) p
  = Ok tt (bumps (List.length chunks) p)
       (eventsFrom (sequenceNumber (wrapper p)) "stdout" (map Buffer_toString chunks)) /\
  run (map (ChildStderr child) chunks) p
  = Ok tt (bumps (List.length chunks) p)
       (eventsFrom (sequenceNumber (wrapper p)) "stderr" (map Buffer_toString chunks)).
Proof.
  intros Hc. split.
  - apply (@output_events (ChildStdout child) "stdout" (children p)); [|reflexivity].
    intros chunk q Hq. cbn [handle]. unfold withChild. now rewrite bind_process, Hq, Hc.
  - apply (@output_events (ChildStderr child) "stderr" (children p)); [|reflexivity].
    intros chunk q Hq. cbn [handle]. unfold withChild. now rewrite bind_process, Hq, Hc.
Qed.

End ChildOutput.

(** Two chunks on the stdout of a child launched by a new adapter. *)
Lemma child_output_becomes_events_witness :
  let launch := [StdinData (frame (request "launch" 1))] in
  let chunks := [ascii_bytes (lit "Hello"); ascii_bytes (lit "World")] in
  exists p out,
    @run Mini.runtime launch boot = Ok tt p out /\
    nth_error (children p) 0 = Some 4 /\
    effects (@run Mini.runtime (map (ChildStdout 0) chunks) p)
    = frame_of (Mini.stringify (outputEvent 2 "stdout" (lit "Hello")))
        ++ frame_of (Mini.stringify (outputEvent 3 "stdout" (lit "World"))).
Proof.
  intros launch chunks.
  destruct (@run Mini.runtime launch boot) as [[] p out| |] eqn:Hrun;
    [|vm_compute in Hrun; discriminate..].
  assert (Hc : nth_error (children p) 0 = Some 4)
    by (vm_compute in Hrun; injection Hrun as <- _; reflexivity).
  exists p, out. split; [reflexivity|]. split; [exact Hc|].
  destruct (@child_output_becomes_events Mini.runtime p 0 4 chunks Hc) as [Hout _].
  rewrite Hout. vm_compute in Hrun. injection Hrun as <- _. reflexivity.
Defined.

(** ** The client command (src/Config.ts) *)

Lemma split_nonempty (s : JSString) : Config.split s <> [].
Proof.
  destruct s as [|u r]; cbn [Config.split]; [discriminate|].
  destruct (u =? Config.SPACE)%N; [discriminate|]. destruct (Config.split r); discriminate.
Qed.

Lemma join_split (s : JSString) : Config.join (Config.split s) = s.
Proof.
  induction s as [|u r IH]; [reflexivity|]. cbn [Config.split].
  pose proof (split_nonempty r) as Hne.
  destruct (u =? Config.SPACE)%N eqn:E.
  - apply N.eqb_eq in E. subst u.
    destruct (Config.split r) as [|part parts]; [congruence|].
    cbn [Config.join app] in *. now rewrite IH.
  - destruct (Config.split r) as [|part parts]; [congruence|].
    cbn [Config.join] in *. destruct parts; cbn [app]; now rewrite <- IH.
Qed.

Lemma split_no_space (s : JSString) : Forall (fun part => ~ In Config.SPACE part) (Config.split s).
Proof.
  induction s as [|u r IH]; cbn [Config.split]; [repeat constructor; auto|].
  destruct (u =? Config.SPACE)%N eqn:E.
  - constructor; [intros []|exact IH].
  - apply N.eqb_neq in E. destruct (Config.split r) as [|part parts]; [repeat constructor|].
    + intros [H|[]]. congruence.
    + inversion IH as [|? ? Hp Hps]; subst. constructor; [|exact Hps].
      intros [H|H]; [congruence | now apply Hp].
Qed.

(** X20.  The client command of the settings.  When [clientPath] is
    set to a string that is not empty, [hhClientCommand] is its part
    before the first space and [hhClientArgs] the parts after it, cut
    at every space: joined with spaces they give [clientPath] back, and
    no part holds a space (two spaces in a row give an empty part; a
    path with a space in it is cut).  When the setting is missing or
    falsy the command is [hh_client] and there are no arguments.  A
    truthy value that is not a string has no [split]: loading the
    module fails. *)
Theorem client_command_and_arguments (get : string -> option json) :
  match Config.clientPath get with
  | JStr path =>
    exists command args,
      Config.hhClientCommand get = Some command /\
      Config.hhClientArgs get = Some args /\
      Config.join (command :: args) = path /\
      Forall (fun part => ~ In Config.SPACE part) (command :: args) /\
      path <> []
  | _ => Config.hhClientCommand get = None /\ Config.hhClientArgs get = None
  end /\
  (truthy_opt (get "clientPath") = false ->
   Config.hhClientCommand get = Some (lit "hh_client") /\
   Config.hhClientArgs get = Some []).
Proof.
  split.
  - unfold Config.hhClientCommand, Config.hhClientArgs, Config.splitClientPath.
    destruct (Config.clientPath get) as [| | |path| |] eqn:E; try (split; reflexivity).
    pose proof (split_nonempty path) as Hne.
    pose proof (join_split path) as Hj.
    pose proof (split_no_space path) as Hs.
    destruct (Config.split path) as [|command args]; [congruence|].
    exists command, args. repeat split; try assumption.
    unfold Config.clientPath, Config.orElse in E.
    destruct (get "clientPath") as [v|].
    + destruct (truthy v) eqn:Et; [|injection E as <-; discriminate].
      subst v. now destruct path.
    + injection E as <-. discriminate.
  - intros Hf.
    unfold Config.hhClientCommand, Config.hhClientArgs, Config.splitClientPath,
      Config.clientPath, Config.orElse.
    destruct (get "clientPath") as [v|]; [|split; reflexivity].
    cbn [truthy_opt] in Hf. rewrite Hf. split; reflexivity.
Qed.
